(** * sidechainnet: build-parameter optimisation and the OpenMM loss wrapper

    A shallow embedding of
    - [research/build_parameter_optim/optimize_build_params.py]
      (class [BuildParamOptimizer]) and
    - [research/openfold/openfold_loss.py] (function [openmm_loss]),
    together with the properties of the design document that concern them.

    Conventions of the embedding.
    - A Python [float] that only steers control flow (the loss compared in
      the early-stopping test, the learning rate) is an exact rational [Q];
      [NaN] and rounding are outside the model.
    - The entries of a torch tensor and the energies of the oracle are real
      numbers [R]; a tensor is the flat list of its entries together with
      its [requires_grad] flag. The loss of [openmm_loss], which goes
      through divisions, is a real number, an infinity or NaN.
    - A Python [dict] with string keys is a [gmap string _]; a missing key
      raises [KeyError].
    - A raised exception is the [Raise] case of [result]. *)

From Stdlib Require Import Ascii ZArith Reals QArith Qabs Psatz Lia.
From stdpp Require Import gmap strings list fin_maps.

(** ** Python values and exceptions *)

Module Py.

Inductive exn : Type :=
  | KeyError
  | IndexError
  | TypeError
  | ValueError
  | UnboundLocalError.

Inductive result (A : Type) : Type :=
  | Ok (a : A)
  | Raise (e : exn).

Arguments Ok {A} a.
Arguments Raise {A} e.

#[global] Instance result_ret : MRet result := @Ok.
#[global] Instance result_bind : MBind result :=
  λ A B f m, match m with Ok a => f a | Raise e => Raise e end.
#[global] Instance result_fmap : FMap result :=
  λ A B f m, match m with Ok a => Ok (f a) | Raise e => Raise e end.

(** [d[k]] on a dict. *)
Definition getitem {V : Type} (d : gmap string V) (k : string) : result V :=
  match d !! k with
  | Some v => Ok v
  | None => Raise KeyError
  end.

(** [l[i]] on a list, for [i >= 0]. *)
Definition index {A : Type} (l : list A) (i : nat) : result A :=
  match l !! i with
  | Some x => Ok x
  | None => Raise IndexError
  end.

(** A value that is either [None] or a list: what the local variable
    [best_params_so_far] can hold. *)
Inductive maybe_list (A : Type) : Type :=
  | PyNone
  | PyList (l : list A).

Arguments PyNone {A}.
Arguments PyList {A} l.

(** [v[i]]: [None] is not subscriptable. *)
Definition subscript {A : Type} (v : maybe_list A) (i : nat) : result A :=
  match v with
  | PyNone => Raise TypeError
  | PyList l => index l i
  end.

(** [k in l] for a list of strings. *)
Definition contains (l : list string) (k : string) : bool :=
  existsb (String.eqb k) l.

(** [for x in l: body], threading the variables the body assigns; the first
    exception leaves the loop. *)
Fixpoint for_each {A S : Type} (l : list A) (body : A → S → result S) (s : S)
  : result S :=
  match l with
  | [] => Ok s
  | x :: l' => s' ← body x s; for_each l' body s'
  end.

End Py.

(** ** Angles *)

Module Angle.

(** The two-argument arctangent on the reals ([torch.atan2(y, x)] entrywise,
    signed zeros apart). *)
Definition atan2 (y x : R) : R :=
  if Rlt_dec 0 x then atan (y / x)
  else if Rlt_dec x 0 then
    if Rle_dec 0 y then atan (y / x) + PI else atan (y / x) - PI
  else if Rlt_dec 0 y then PI / 2
  else if Rlt_dec y 0 then - (PI / 2)
  else 0.

(** Two angles that differ by a whole number of turns. *)
Definition same_angle (a b : R) : Prop :=
  ∃ n : Z, (a = b + 2 * IZR n * PI)%R.

End Angle.

(** ** Tensors *)

Module Torch.
Import Angle.

Record tensor : Type := Tensor { data : list R; requires_grad : bool }.

(** [t.requires_grad_()] sets the flag in place and returns the tensor. *)
Definition requires_grad_ (t : tensor) : tensor := Tensor (data t) true.

(** [t.detach()] and [t.detach().cpu()]: same entries, cut from the graph. *)
Definition detach (t : tensor) : tensor := Tensor (data t) false.

(** [copy.deepcopy(t)] of a leaf keeps entries and flag. *)
Definition deepcopy (t : tensor) : tensor := t.

(** Entrywise operations; the result of an operation tracks gradients as
    soon as one operand does. The two operands of [atan2] have the same
    shape in the build-parameter table. *)
Definition sin (t : tensor) : tensor :=
  Tensor (map Rtrigo_def.sin (data t)) (requires_grad t).

Definition cos (t : tensor) : tensor :=
  Tensor (map Rtrigo_def.cos (data t)) (requires_grad t).

Definition atan2_ (y x : tensor) : tensor :=
  Tensor (zip_with atan2 (data y) (data x)) (requires_grad y || requires_grad x).

(** An in-place update of the registered tensors by an optimizer: tensor [i]
    receives the entries [new i]; the list and the flags stay. *)
Definition assign_data (new : nat → list R) (ps : list tensor) : list tensor :=
  imap (λ i p, Tensor (new i) (requires_grad p)) ps.

End Torch.

(** ** [optimize_build_params.py]: the parameter store *)

Module OptimizeBuildParams.
Import Py Angle Torch.

(** [build_params]: anchor atom ↦ parameter group ↦ tensor. *)
Abbreviation build_params_t := (gmap string (gmap string tensor)).

(** [build_params[root][key]] read without raising. *)
Definition entry (build_params : build_params_t) (root key : string)
  : option tensor :=
  group ← build_params !! root; group !! key.

(** [build_params[root][key] = v]: the group is looked up, then written in
    place. *)
Definition setitem2 (build_params : build_params_t) (root key : string)
    (v : tensor) : result build_params_t :=
  group ← getitem build_params root;
  Ok (<[root := <[key := v]> group]> build_params).

Definition getitem2 (build_params : build_params_t) (root key : string)
  : result tensor :=
  group ← getitem build_params root; getitem group key.

(** The loop header [for root_atom in ['N', 'CA', 'C']]. *)
Definition root_atoms : list string := ["N"; "CA"; "C"].

(** [self.keys_to_optimize] as [__init__] fills it from its three flags. *)
Definition selected_keys (opt_bond_lengths opt_thetas opt_chis : bool)
  : list string :=
  (if opt_bond_lengths then ["bond_lengths"] else []) ++
  (if opt_thetas then ["thetas"] else []) ++
  (if opt_chis then ["chis"] else []).

Definition to_sin_cos (angles : tensor) : tensor * tensor :=
  (Torch.sin angles, Torch.cos angles).

(** Body of the loops of [create_param_list_from_build_params]: the variables
    it assigns are the store (through [requires_grad_()]) and [params]. The
    tensor appended is the store's own, so the list entry and the store
    entry are one object. *)
Definition create_body (root_atom param_key : string)
    (s : build_params_t * list tensor) : result (build_params_t * list tensor) :=
  let '(build_params, params) := s in
  t ← getitem2 build_params root_atom param_key;
  build_params' ← setitem2 build_params root_atom param_key (requires_grad_ t);
  Ok (build_params', params ++ [requires_grad_ t]).

Definition create_param_list_from_build_params (keys : list string)
    (build_params : build_params_t) : result (build_params_t * list tensor) :=
  for_each root_atoms
    (λ root_atom, for_each keys (create_body root_atom))
    (build_params, []).

(** Body of the loops of
    [update_complete_build_params_with_optimized_params]: the variables it
    assigns are [self.build_params] and the position [i]. The right-hand
    side [optimized_params[i]] is evaluated before the targets. *)
Definition update_body (optimized_params : maybe_list tensor)
    (root_atom param_key : string) (s : build_params_t * nat)
  : result (build_params_t * nat) :=
  let '(build_params, i) := s in
  if (param_key =? "thetas")%string then
    x ← subscript optimized_params i;
    let '(sn, cs) := to_sin_cos x in
    bp1 ← setitem2 build_params root_atom "sthetas" sn;
    bp2 ← setitem2 bp1 root_atom "cthetas" cs;
    Ok (bp2, S i)
  else if (param_key =? "chis")%string then
    x ← subscript optimized_params i;
    let '(sn, cs) := to_sin_cos x in
    bp1 ← setitem2 build_params root_atom "schis" sn;
    bp2 ← setitem2 bp1 root_atom "cchis" cs;
    Ok (bp2, S i)
  else
    x ← subscript optimized_params i;
    bp1 ← setitem2 build_params root_atom param_key x;
    Ok (bp1, S i).

Definition update_complete_build_params_with_optimized_params
    (keys : list string) (build_params : build_params_t)
    (optimized_params : maybe_list tensor) : result build_params_t :=
  fst <$> for_each root_atoms
    (λ root_atom, for_each keys (update_body optimized_params root_atom))
    (build_params, 0).

(** The (anchor, key) pairs both loops visit, in the order they visit them. *)
Definition slots (keys : list string) : list (string * string) :=
  root_atom ← root_atoms; param_key ← keys; [(root_atom, param_key)].

(** What scattering the tensor [x] into the slot [(root, key)] leaves in the
    store: the sine/cosine pair for an angle, the tensor itself otherwise. *)
Definition written (build_params : build_params_t) (root key : string)
    (x : tensor) : Prop :=
  if (key =? "thetas")%string then
    entry build_params root "sthetas" = Some (Torch.sin x) ∧
    entry build_params root "cthetas" = Some (Torch.cos x)
  else if (key =? "chis")%string then
    entry build_params root "schis" = Some (Torch.sin x) ∧
    entry build_params root "cchis" = Some (Torch.cos x)
  else entry build_params root key = Some x.

(** The store keys a slot's scatter assigns. *)
Definition target_keys (key : string) : list string :=
  if (key =? "thetas")%string then ["sthetas"; "cthetas"]
  else if (key =? "chis")%string then ["schis"; "cchis"]
  else [key].

(** *** Notions used to state what the two operations do *)

(** [marked bp bp']: the store [bp'] is [bp] with some tensors marked as
    requiring gradient. *)
Definition marked (bp bp' : build_params_t) : Prop :=
  (∀ r, is_Some (bp' !! r) ↔ is_Some (bp !! r)) ∧
  (∀ r k, entry bp' r k = entry bp r k ∨
          entry bp' r k = requires_grad_ <$> entry bp r k).

(** The store keys a slot's scatter assigns, each with what it stores there
    of the scattered tensor. *)
Definition targets (key : string) : list (string * (tensor → tensor)) :=
  if (key =? "thetas")%string then [("sthetas", Torch.sin); ("cthetas", Torch.cos)]
  else if (key =? "chis")%string then [("schis", Torch.sin); ("cchis", Torch.cos)]
  else [(key, λ t, t)].

(** [clashes p q]: scattering slot [q] assigns a store key that scattering
    slot [p] assigns too. *)
Definition clashes (p q : string * string) : bool :=
  (p.1 =? q.1)%string &&
  existsb (contains (target_keys q.2)) (target_keys p.2).

(** No slot of the list is overwritten by a later one. *)
Fixpoint no_clash (sl : list (string * string)) : bool :=
  match sl with
  | [] => true
  | p :: sl' => forallb (λ q, negb (clashes p q)) sl' && no_clash sl'
  end.

(** Entrywise [same_angle]. *)
Definition same_angles (a b : tensor) : Prop :=
  Forall2 same_angle (data a) (data b).

(** ** [optimize_build_params.py]: the optimizer object *)

(** What LBFGS does after an evaluation of its closure: return, or move the
    parameters in place and, if [again], evaluate the closure once more. *)
Inductive lbfgs_action : Type :=
  | Return
  | Move (new : nat → list R) (again : bool).

(** [a < b] on floats. *)
Definition Qltb (a b : Q) : bool := negb (Qle_bool b a).

(** The collaborators the module imports: the build-parameter table, the
    structure builder and the energy of [SCNProtein], autograd and the torch
    optimizers. A gradient or an update gives, for the position of a
    registered tensor, a list of entries. The constructor of a torch
    optimizer can refuse its arguments: each raises [ValueError] on an
    empty parameter list, and those of the first-order optimizers on a
    learning rate [lr < 0.0]; what else they refuse is left open. *)
Class Collaborators : Type := {
  SCNProtein : Type;
  Optimizer : Type;
  Scheduler : Type;
  (** [get_all_atom_build_params(SC_HBUILD_INFO, BB_BUILD_INFO)] *)
  get_all_atom_build_params : build_params_t;
  (** [protein.sb = None; protein.angles.requires_grad_()] *)
  track_angles : SCNProtein → SCNProtein;
  (** [p.fastbuild(add_hydrogens=True, build_params=..., inplace=True)] *)
  fastbuild : build_params_t → SCNProtein → SCNProtein;
  (** [p._initialize_openmm(nonbonded_interactions=False)] *)
  initialize_openmm : SCNProtein → SCNProtein;
  (** [float(OpenMMEnergyH().apply(p, p.hcoords))] *)
  energy : SCNProtein → Q;
  (** [loss.backward()]: the gradient left on the registered tensors *)
  backward : build_params_t → SCNProtein → list tensor → nat → list R;
  (** [torch.optim.LBFGS(to_optim, lr=lr)] and its siblings *)
  LBFGS : list tensor → Q → result Optimizer;
  Adam : list tensor → Q → result Optimizer;
  SGD : list tensor → Q → result Optimizer;
  LBFGS_empty : ∀ lr, LBFGS [] lr = Raise ValueError;
  Adam_empty : ∀ lr, Adam [] lr = Raise ValueError;
  SGD_empty : ∀ lr, SGD [] lr = Raise ValueError;
  Adam_negative : ∀ ps lr, Qltb lr 0 = true → Adam ps lr = Raise ValueError;
  SGD_negative : ∀ ps lr, Qltb lr 0 = true → SGD ps lr = Raise ValueError;
  (** [opt.step()] of a first-order optimizer: new state, new entries *)
  step : Optimizer → (nat → list R) → list tensor → Optimizer * (nat → list R);
  (** one decision of [LBFGS.step(closure)], and its bound on evaluations *)
  lbfgs_next :
    Optimizer → Q → (nat → list R) → list tensor → Optimizer * lbfgs_action;
  max_eval : nat;
  (** [ReduceLROnPlateau(opt, 'min', threshold=1e-4, factor=.5, patience=20)]
      and [scheduler.step(lossnp)], which may lower the rate inside [opt] *)
  ReduceLROnPlateau : Optimizer → Scheduler;
  scheduler_step : Scheduler → Optimizer → Q → Scheduler * Optimizer
}.

(** Lines 151-152: [patience = 20] and [epsilon = 1e-4]. *)
Definition patience : nat := 20.
Definition epsilon : Q := 1 # 10000.

(** The test of line 171:
    [best_loss is None or
     (lossnp < best_loss and np.abs(best_loss - lossnp) > epsilon)]. *)
Definition improves (lossnp : Q) (best_loss : option Q) : bool :=
  match best_loss with
  | None => true
  | Some best => Qltb lossnp best && Qltb epsilon (Qabs (best - lossnp))
  end.

(** How an iteration of a [for] loop ends. *)
Inductive signal : Type :=
  | Next
  | Broke
  | Raised (e : exn).

Section Optimizer.
Context `{Collaborators}.

(** The caller's protein, with the attribute [_last_loss] that the LBFGS
    closure sets on it. *)
Record protein_t : Type := Protein {
  scn : SCNProtein;
  _last_loss : option Q
}.

(** The attributes of a [BuildParamOptimizer]. [build_params_history] and
    [opt] are created by [optimize]. *)
Record BuildParamOptimizer : Type := BPO {
  build_params : build_params_t;
  _starting_build_params : build_params_t;
  protein : protein_t;
  keys_to_optimize : list string;
  losses : list Q;
  params : list tensor;
  build_params_history : list (list tensor);
  opt : option Optimizer
}.

Definition prepare_protein (build_params : build_params_t) (p : protein_t)
  : protein_t :=
  Protein
    (initialize_openmm (fastbuild build_params (track_angles (scn p))))
    (_last_loss p).

(** Body of the loop of lines 45-53. *)
Definition init_angles_body (keys : list string) (root_atom : string)
    (build_params : build_params_t) : result build_params_t :=
  bp1 ← (if contains keys "thetas" then
           sn ← getitem2 build_params root_atom "sthetas";
           cs ← getitem2 build_params root_atom "cthetas";
           setitem2 build_params root_atom "thetas" (atan2_ sn cs)
         else Ok build_params);
  if contains keys "chis" then
    sn ← getitem2 bp1 root_atom "schis";
    cs ← getitem2 bp1 root_atom "cchis";
    setitem2 bp1 root_atom "chis" (atan2_ sn cs)
  else Ok bp1.

Definition __init__ (p : protein_t)
    (opt_bond_lengths opt_thetas opt_chis : bool) : result BuildParamOptimizer :=
  let build_params := get_all_atom_build_params in
  let starting := build_params in
  let p := prepare_protein build_params p in
  let keys := selected_keys opt_bond_lengths opt_thetas opt_chis in
  build_params ← for_each root_atoms (init_angles_body keys) build_params;
  '(build_params, params) ←
    create_param_list_from_build_params keys build_params;
  Ok (BPO build_params starting p keys [] params [] None).

(** Attribute assignments. *)
Definition with_store (self : BuildParamOptimizer) (bp : build_params_t)
    (p : protein_t) : BuildParamOptimizer :=
  BPO bp (_starting_build_params self) p (keys_to_optimize self) (losses self)
    (params self) (build_params_history self) (opt self).

Definition with_losses (self : BuildParamOptimizer) (ls : list Q)
  : BuildParamOptimizer :=
  BPO (build_params self) (_starting_build_params self) (protein self)
    (keys_to_optimize self) ls (params self) (build_params_history self)
    (opt self).

Definition with_history (self : BuildParamOptimizer) (h : list (list tensor))
  : BuildParamOptimizer :=
  BPO (build_params self) (_starting_build_params self) (protein self)
    (keys_to_optimize self) (losses self) (params self) h (opt self).

Definition with_opt (self : BuildParamOptimizer) (o : Optimizer)
  : BuildParamOptimizer :=
  BPO (build_params self) (_starting_build_params self) (protein self)
    (keys_to_optimize self) (losses self) (params self)
    (build_params_history self) (Some o).

(** The registered tensors are the store's own objects: the list was filled
    from the store, and a scatter of the list puts the same objects back. An
    in-place update of the list therefore shows in the store under the slot
    keys. *)
Definition write_through (keys : list string) (ps : list tensor)
    (bp : build_params_t) : build_params_t :=
  foldl (λ bp st,
           match bp !! st.1.1 with
           | Some group => <[st.1.1 := <[st.1.2 := st.2]> group]> bp
           | None => bp
           end)
        bp (zip (slots keys) ps).

(** The optimizer writes the entries [new] into the registered tensors. *)
Definition in_place (self : BuildParamOptimizer) (new : nat → list R)
  : BuildParamOptimizer :=
  let ps := assign_data new (params self) in
  BPO (write_through (keys_to_optimize self) ps (build_params self))
    (_starting_build_params self) (protein self) (keys_to_optimize self)
    (losses self) ps (build_params_history self) (opt self).

(** The note keeping that opens each iteration:
    [[copy.deepcopy(p.detach().cpu()) for p in to_optim]]. *)
Definition note (self : BuildParamOptimizer) : BuildParamOptimizer :=
  with_history self
    (build_params_history self ++ [map (λ p, deepcopy (detach p)) (params self)]).

(** The closure of the LBFGS loop (lines 118-130): scatter, rebuild,
    evaluate, record the loss on the protein. *)
Definition closure (self : BuildParamOptimizer)
  : result (BuildParamOptimizer * Q) :=
  bp ← update_complete_build_params_with_optimized_params
         (keys_to_optimize self) (build_params self) (PyList (params self));
  let p := fastbuild bp (scn (protein self)) in
  let loss := energy p in
  Ok (with_store self bp (Protein p (Some loss)), loss).

(** [self.opt.step(closure)]: the closure is evaluated, then LBFGS decides;
    at most [S fuel] evaluations. *)
Fixpoint lbfgs_step (fuel : nat) (self : BuildParamOptimizer) (o : Optimizer)
  : BuildParamOptimizer * Optimizer * signal :=
  match closure self with
  | Raise e => (self, o, Raised e)
  | Ok (self1, loss) =>
      let g := backward (build_params self1) (scn (protein self1)) (params self1) in
      match lbfgs_next o loss g (params self1) with
      | (o1, Return) => (self1, o1, Next)
      | (o1, Move new again) =>
          let self2 := in_place self1 new in
          match fuel with
          | S fuel' =>
              if again then lbfgs_step fuel' self2 o1 else (self2, o1, Next)
          | 0 => (self2, o1, Next)
          end
      end
  end.

(** The LBFGS loop (lines 113-133). *)
Fixpoint lbfgs_loop (steps : nat) (self : BuildParamOptimizer) (o : Optimizer)
  : BuildParamOptimizer * Optimizer * signal :=
  match steps with
  | 0 => (self, o, Next)
  | S steps' =>
      match lbfgs_step max_eval (note self) o with
      | (self1, o1, Next) => lbfgs_loop steps' self1 o1
      | stopped => stopped
      end
  end.

(** The local variables of the first-order branch (lines 141-152). *)
Record locals : Type := Locals {
  best_loss : option Q;
  best_params_so_far : maybe_list tensor;
  counter : nat;
  scheduler : Scheduler
}.

(** The end of an iteration that does not break (lines 181-183): the loss is
    recorded, the optimizer and the scheduler step. *)
Definition sgd_finish (self : BuildParamOptimizer) (o : Optimizer)
    (lossnp : Q) (g : nat → list R) (l : locals)
  : BuildParamOptimizer * Optimizer * locals * signal :=
  let to_optim := params self in
  let self := with_losses self (losses self ++ [lossnp]) in
  let '(o1, new) := step o g to_optim in
  let self := in_place self new in
  let '(sch, o2) := scheduler_step (scheduler l) o1 lossnp in
  (self, o2, Locals (best_loss l) (best_params_so_far l) (counter l) sch, Next).

(** One iteration of the first-order loop (lines 154-185). *)
Definition sgd_body (self : BuildParamOptimizer) (o : Optimizer) (l : locals)
  : BuildParamOptimizer * Optimizer * locals * signal :=
  let to_optim := params self in
  let self := note self in
  match update_complete_build_params_with_optimized_params
          (keys_to_optimize self) (build_params self) (PyList to_optim) with
  | Raise e => (self, o, l, Raised e)
  | Ok bp =>
      let p := fastbuild bp (scn (protein self)) in
      let self := with_store self bp (Protein p (_last_loss (protein self))) in
      let lossnp := energy p in
      let g := backward bp p to_optim in
      if improves lossnp (best_loss l) then
        sgd_finish self o lossnp g
          (Locals (Some lossnp) (PyList (map deepcopy to_optim)) 0 (scheduler l))
      else if patience <? counter l then (self, o, l, Broke)
      else if counter l <? patience then
        sgd_finish self o lossnp g
          (Locals (best_loss l) (best_params_so_far l) (S (counter l))
             (scheduler l))
      else sgd_finish self o lossnp g l
  end.

(** The first-order loop [for i in pbar]. *)
Fixpoint sgd_loop (steps : nat) (self : BuildParamOptimizer) (o : Optimizer)
    (l : locals) : BuildParamOptimizer * Optimizer * locals * signal :=
  match steps with
  | 0 => (self, o, l, Next)
  | S steps' =>
      match sgd_body self o l with
      | (self1, o1, l1, Next) => sgd_loop steps' self1 o1 l1
      | stopped => stopped
      end
  end.

(** [optimize(self, opt, lr, steps)]: the object after the call and the value
    returned or the exception raised. An optimizer that refuses its
    arguments raises before the loop, with [self.build_params_history]
    already set. The local [best_params_so_far] is bound only by the
    first-order branch; [None] below stands for the unbound local. The loss
    plot written before the final scatter is not part of the model. *)
Definition optimize (self : BuildParamOptimizer) (opt_name : string) (lr : Q)
    (steps : nat) : BuildParamOptimizer * result build_params_t :=
  let to_optim := params self in
  let self := with_history self [map deepcopy (params self)] in
  let '(self, sig, bound) :=
    if (opt_name =? "LBFGS")%string then
      match LBFGS to_optim lr with
      | Raise e => (self, Raised e, None)
      | Ok o =>
          let '(self, o, sig) := lbfgs_loop steps self o in
          (with_opt self o, sig, None)
      end
    else if (opt_name =? "SGD")%string || (opt_name =? "adam")%string then
      match (if (opt_name =? "adam")%string then Adam to_optim lr
             else SGD to_optim lr) with
      | Raise e => (self, Raised e, None)
      | Ok o =>
          let l := Locals None PyNone 0 (ReduceLROnPlateau o) in
          let '(self, o, l, sig) := sgd_loop steps self o l in
          (with_opt self o, sig, Some (best_params_so_far l))
      end
    else (self, Next, None) in
  match sig with
  | Raised e => (self, Raise e)
  | _ =>
      match bound with
      | None => (self, Raise UnboundLocalError)
      | Some best =>
          match update_complete_build_params_with_optimized_params
                  (keys_to_optimize self) (build_params self) best with
          | Raise e => (self, Raise e)
          | Ok bp => (with_store self bp (protein self), Ok bp)
          end
      end
  end.

(** [well_formed self]: every slot has its anchor atom in the store and its
    tensor in the list, as [__init__] leaves them. *)
Definition well_formed (self : BuildParamOptimizer) : Prop :=
  (∀ r k, (r, k) ∈ slots (keys_to_optimize self) →
          is_Some (build_params self !! r)) ∧
  length (slots (keys_to_optimize self)) ≤ length (params self).

(** The smallest element of a list of losses. *)
Definition min_loss (a b : Q) : Q := if Qle_bool a b then a else b.

Definition minimum (l : list Q) : option Q :=
  match l with
  | [] => None
  | x :: l' => Some (foldl min_loss x l')
  end.

(** [tracks best obs]: [best] is one of the observed losses and none of them
    is below it by more than [epsilon]. *)
Definition tracks (best : option Q) (obs : list Q) : Prop :=
  match best with
  | None => obs = []
  | Some b => b ∈ obs ∧ ∀ x, x ∈ obs → (b - epsilon <= x)%Q
  end.

End Optimizer.

Section OptimizerKeeps.
Context `{Collaborators}.

(** What [optimize] keeps of an object, whatever it does to the selected
    slots: [kept_by self0 self] says that [self] has the key list, the
    starting table, the anchors and the number of registered tensors of
    [self0], and the entries of [self0] that no selected slot holds or
    assigns. *)
Definition kept_by (self0 self : BuildParamOptimizer) : Prop :=
  keys_to_optimize self = keys_to_optimize self0 ∧
  _starting_build_params self = _starting_build_params self0 ∧
  length (params self) = length (params self0) ∧
  (∀ r, is_Some (build_params self !! r) ↔ is_Some (build_params self0 !! r)) ∧
  (∀ r k', (r, k') ∉ slots (keys_to_optimize self0) →
     (∀ k, (r, k) ∈ slots (keys_to_optimize self0) → k' ∉ target_keys k) →
     entry (build_params self) r k' = entry (build_params self0) r k').

End OptimizerKeeps.

(** *** A mocked set of collaborators *)

(** A one-entry table: for each anchor atom a bond length of 1.5 and the
    angle 0 stored as (sin, cos) = (0, 1). *)
Definition mock_group : gmap string tensor :=
  <["bond_lengths" := Tensor [1.5%R] false]>
  (<["sthetas" := Tensor [0%R] false]>
  (<["cthetas" := Tensor [1%R] false]>
  (<["schis" := Tensor [0%R] false]>
  (<["cchis" := Tensor [1%R] false]> ∅)))).

Definition mock_table : build_params_t :=
  <["N" := mock_group]> (<["CA" := mock_group]> (<["C" := mock_group]> ∅)).

(** The mocked constructors refuse what torch refuses: an empty parameter
    list and, for the first-order optimizers, a negative learning rate. *)
Definition mock_LBFGS (ps : list tensor) (lr : Q) : result () :=
  match ps with
  | [] => Raise ValueError
  | _ :: _ => Ok ()
  end.

Definition mock_first_order (ps : list tensor) (lr : Q) : result () :=
  if Qltb lr 0 then Raise ValueError
  else match ps with
       | [] => Raise ValueError
       | _ :: _ => Ok ()
       end.

(** The mocked protein is the number of rebuilds it went through; the mocked
    oracle gives the loss [script n] after the [n]-th rebuild; the mocked
    optimizers leave the entries as they are. *)
Definition mock (script : nat → Q) : Collaborators := {|
  SCNProtein := nat;
  Optimizer := unit;
  Scheduler := unit;
  get_all_atom_build_params := mock_table;
  track_angles := λ n, n;
  fastbuild := λ _ n, S n;
  initialize_openmm := λ n, n;
  energy := script;
  backward := λ _ _ _ _, [];
  LBFGS := mock_LBFGS;
  Adam := mock_first_order;
  SGD := mock_first_order;
  LBFGS_empty := λ _, eq_refl;
  Adam_empty :=
    ltac:(intros lr; unfold mock_first_order; by destruct (Qltb lr 0));
  SGD_empty :=
    ltac:(intros lr; unfold mock_first_order; by destruct (Qltb lr 0));
  Adam_negative :=
    ltac:(intros ps lr Hlr; unfold mock_first_order; by rewrite Hlr);
  SGD_negative :=
    ltac:(intros ps lr Hlr; unfold mock_first_order; by rewrite Hlr);
  step := λ o _ ps, (o, λ i, default [] (data <$> ps !! i));
  lbfgs_next := λ o _ _ _, (o, Return);
  max_eval := 25;
  ReduceLROnPlateau := λ _, ();
  scheduler_step := λ s o _, (s, o)
|}.

(** A loss held constant, and a loss that drops by half of [epsilon] after
    the first iteration. *)
Definition plateau : nat → Q := λ _, 1%Q.
Definition small_drop : nat → Q :=
  λ n, if (n <=? 2)%nat then 1%Q else (1 - (1 # 20000))%Q.

(** The object [BuildParamOptimizer(p)] on the mocks, all keys selected. *)
Definition mock_bpo (script : nat → Q)
  : result (@BuildParamOptimizer (mock script)) :=
  @__init__ (mock script) (@Protein (mock script) 0%nat None) true true true.

Definition mock_self (script : nat → Q) : @BuildParamOptimizer (mock script) :=
  match mock_bpo script with
  | Ok self => self
  | Raise _ =>
      @BPO (mock script) ∅ ∅ (@Protein (mock script) 0%nat None) [] [] [] [] None
  end.

(** The object [BuildParamOptimizer(p, False, False, False)] on the mocks:
    no key selected, no tensor registered. *)
Definition mock_self_no_key (script : nat → Q)
  : @BuildParamOptimizer (mock script) :=
  match @__init__ (mock script) (@Protein (mock script) 0%nat None)
          false false false with
  | Ok self => self
  | Raise _ =>
      @BPO (mock script) ∅ ∅ (@Protein (mock script) 0%nat None) [] [] [] [] None
  end.

(** The table with the raw angles that lines 45-53 add to it. *)
Definition mock_store : build_params_t :=
  match for_each root_atoms (init_angles_body ["thetas"; "chis"]) mock_table with
  | Ok bp => bp
  | Raise _ => mock_table
  end.

(** The locals of the first-order branch as lines 148-152 set them. *)
Definition mock_locals (script : nat → Q) : @locals (mock script) :=
  @Locals (mock script) None PyNone 0%nat ().

(** The default learning rate of [optimize], [lr=1e-5]. *)
Definition mock_lr : Q := 1 # 100000.

End OptimizeBuildParams.

(** ** [openfold_loss.py]: the OpenMM loss of a batch *)

Module OpenfoldLoss.
Import Py.

(** ["X" in seq]. *)
Fixpoint has_X (seq : string) : bool :=
  match seq with
  | EmptyString => false
  | String c rest => Ascii.eqb c "X"%char || has_X rest
  end.

(** ["".join(["+" if char == 1 else "-" for char in seq_mask])]. *)
Fixpoint mask_string (seq_mask : list Z) : string :=
  match seq_mask with
  | [] => EmptyString
  | char :: rest =>
      String (if (char =? 1)%Z then "+"%char else "-"%char) (mask_string rest)
  end.

(** The keyword arguments of [openmm_loss]. *)
Record options : Type := Options {
  force_scaling : option R;
  force_clipping_val : option R;
  scale_by_length : bool;
  modified_sigmoid : bool;
  modified_sigmoid_params : R * R * R * R;
  add_relu : bool
}.

(** The defaults of the signature. *)
Definition default_options : options :=
  Options None None false false (1%R, 1%R, 1%R, 1%R) false.

(** *** The entry of a float tensor

    The loss goes through divisions, so it can leave the real numbers: the
    value of a float tensor of one entry is a real number, an infinity or
    NaN, with the arithmetic of IEEE 754. Rounding is outside the model,
    and so is the negative zero: a zero divisor ([len(protein)], [c], a sum
    that cancels) is the positive zero. *)
Inductive scalar : Type :=
  | Real (r : R)
  | PosInf
  | NegInf
  | NaN.

(** [-x]. *)
Definition neg (x : scalar) : scalar :=
  match x with
  | Real r => Real (- r)
  | PosInf => NegInf
  | NegInf => PosInf
  | NaN => NaN
  end.

(** [x + y]. *)
Definition add (x y : scalar) : scalar :=
  match x, y with
  | NaN, _ => NaN
  | _, NaN => NaN
  | Real a, Real b => Real (a + b)
  | PosInf, NegInf => NaN
  | NegInf, PosInf => NaN
  | PosInf, _ => PosInf
  | _, PosInf => PosInf
  | NegInf, _ => NegInf
  | _, NegInf => NegInf
  end.

(** [x * k] and [k * x] for a Python number [k]. *)
Definition mul_number (x : scalar) (k : R) : scalar :=
  match x with
  | Real r => Real (r * k)
  | NaN => NaN
  | inf =>
      if Rlt_dec 0 k then inf else if Rlt_dec k 0 then neg inf else NaN
  end.

(** [x / k] for a Python number [k]. *)
Definition div_number (x : scalar) (k : R) : scalar :=
  match x with
  | Real r =>
      if Req_dec_T k 0 then
        if Rlt_dec 0 r then PosInf else if Rlt_dec r 0 then NegInf else NaN
      else Real (r / k)
  | NaN => NaN
  | inf => if Rlt_dec k 0 then neg inf else inf
  end.

(** [torch.exp(x)]. *)
Definition exp_ (x : scalar) : scalar :=
  match x with
  | Real r => Real (exp r)
  | PosInf => PosInf
  | NegInf => Real 0
  | NaN => NaN
  end.

(** [x ** (-1)]. *)
Definition reciprocal (x : scalar) : scalar :=
  match x with
  | Real r => if Req_dec_T r 0 then PosInf else Real (/ r)
  | PosInf => Real 0
  | NegInf => Real 0
  | NaN => NaN
  end.

(** [total += x] from [torch.tensor(0.0)], in the order of the loop: for
    the energies the oracle gives, which are real numbers, and for the
    values the loop adds to the loss. *)
Definition total (xs : list R) : R := foldl Rplus 0%R xs.

Definition scalar_total (xs : list scalar) : scalar := foldl add (Real 0) xs.

(** How a call ends: it returns, or an exception propagates, the one the
    energy oracle raised or the [ZeroDivisionError] of the Python division
    [1/a]. *)
Inductive outcome (A : Type) : Type :=
  | Returns (a : A)
  | OracleRaises
  | ZeroDivisionError.

Arguments Returns {A} a.
Arguments OracleRaises {A}.
Arguments ZeroDivisionError {A}.

#[global] Instance outcome_ret : MRet outcome := @Returns.
#[global] Instance outcome_bind : MBind outcome :=
  λ A B f m,
    match m with
    | Returns a => f a
    | OracleRaises => OracleRaises
    | ZeroDivisionError => ZeroDivisionError
    end.

(** The first of the four numbers of [modified_sigmoid_params]. *)
Definition sigmoid_a (o : options) : R :=
  let '(a, _, _, _) := modified_sigmoid_params o in a.

(** The three transforms as the design document words them, on real
    numbers, and their composition in the order it gives. *)
Definition length_scaled (o : options) (residues : nat) (E : R) : R :=
  if scale_by_length o then (E / INR residues)%R else E.

Definition squashed (o : options) (E : R) : R :=
  if modified_sigmoid o then
    let '(a, b, c, d) := modified_sigmoid_params o in
    (/ (1 / a + exp (- (d * E + b) / c)) - (a - 1))%R
  else E.

Definition regularized (o : options) (pre_squash E : R) : R :=
  if add_relu o then (E + pre_squash * / 10 ^ 12)%R else E.

Definition transformed (o : options) (residues : nat) (E : R) : R :=
  regularized o (length_scaled o residues E)
    (squashed o (length_scaled o residues E)).

(** [divisions_defined o residues E]: on a protein of [residues] residues
    and energy [E] no division that the options request has a zero
    divisor: the sequence is not empty when the energy is divided by its
    length, and [a], [c] and the sum [1/a + exp(-(d·E+b)/c)] are not zero
    when the energy is squashed. *)
Definition divisions_defined (o : options) (residues : nat) (E : R) : Prop :=
  (scale_by_length o = true → 0 < residues) ∧
  (modified_sigmoid o = true →
   let '(a, b, c, d) := modified_sigmoid_params o in
   a ≠ 0%R ∧ c ≠ 0%R ∧
   (1 / a + exp (- (d * length_scaled o residues E + b) / c))%R ≠ 0%R).

(** What the module takes from OpenFold and SidechainNet to build a protein:
    the two coordinate layouts, the spelling of residue indices, and the
    coordinates [protein.add_hydrogens(add_to_heavy_atoms=True)] leaves in
    [hcoords]. *)
Class Collaborators : Type := {
  Coords15 : Type;
  HCoords : Type;
  (** [openfold.np.residue_constants.aatype_to_str_sequence] *)
  aatype_to_str_sequence : list Z → string;
  hydrogenate : Coords15 → string → HCoords
}.

Section Proteins.
Context `{Collaborators}.

(** One element of the batch: its row of [model_input], with the row of
    [model_output] (or of the ground truth) already brought to SidechainNet's
    atom layout by lines 121-125 and 141-143. *)
Record example : Type := Example {
  aatype : list Z;
  seq_length : nat;
  seq_mask : list Z;
  predicted : Coords15;
  ground_truth : Coords15;
  name : option string
}.

(** Modelled from the spec: the class [SCNProtein] lives in
    [sidechainnet.dataloaders]; here it is the record of the attributes this
    module reads and writes. *)
Record SCNProtein : Type := Protein {
  coordinates : Coords15;
  seq : string;
  mask : string;
  id : string;
  hcoords : option HCoords
}.

(** [len(protein)]. *)
Definition len (p : SCNProtein) : nat := String.length (seq p).

Definition add_hydrogens (p : SCNProtein) : SCNProtein :=
  Protein (coordinates p) (seq p) (mask p) (id p)
    (Some (hydrogenate (coordinates p) (seq p))).

(** What the generator yields for element [i] (lines 128-155). *)
Definition scnprotein_from_model_reps (gt : bool) (e : example)
  : option SCNProtein :=
  let sequence := aatype_to_str_sequence (take (seq_length e) (aatype e)) in
  let str_mask := mask_string (take (seq_length e) (seq_mask e)) in
  let coords15 := if gt then ground_truth e else predicted e in
  let ident := default "prot" (name e) in
  let protein := Protein coords15 sequence str_mask ident None in
  if has_X (seq protein) then None else Some protein.

Definition generate_scnproteins_from_model_reps (gt : bool)
    (batch : list example) : list (option SCNProtein) :=
  map (scnprotein_from_model_reps gt) batch.

(** The sequence and the protein the generator builds for an element. *)
Definition sequence_of (e : example) : string :=
  aatype_to_str_sequence (take (seq_length e) (aatype e)).

Definition protein_of (gt : bool) (e : example) : SCNProtein :=
  Protein (if gt then ground_truth e else predicted e) (sequence_of e)
    (mask_string (take (seq_length e) (seq_mask e)))
    (default "prot" (name e)) None.

(** The proteins that [openmm_loss] keeps of a batch:
    [[p for p in generate_scnproteins_from_model_reps(...) if p is not None]]. *)
Definition kept (gt : bool) (batch : list example) : list SCNProtein :=
  omap (λ p, p) (generate_scnproteins_from_model_reps gt batch).

End Proteins.

(** [OpenMMEnergyH().apply(protein, protein.hcoords, force_scaling,
    force_clipping_val)]; [None] when the oracle raises. *)
Class EnergyOracle `{Collaborators} : Type := {
  energy : SCNProtein → option R → option R → option R
}.

Section Loss.
Context `{EnergyOracle}.

(** Body of the loop of lines 64-84 on the pair
    [(total_energy, total_energy_raw)]. In line 80 the Python division
    [1/a] is evaluated first and raises [ZeroDivisionError] for [a = 0];
    the other operations are operations on the tensor. *)
Definition loss_body (o : options) (protein : SCNProtein) (acc : scalar * R)
  : outcome (scalar * R) :=
  let '(total_energy, total_energy_raw) := acc in
  if has_X (seq protein) then Returns acc
  else
    match energy protein (force_scaling o) (force_clipping_val o) with
    | None => OracleRaises
    | Some E =>
        let protein_energy := Real E in
        let protein_energy_raw := E in
        let total_energy_raw := (total_energy_raw + protein_energy_raw)%R in
        let protein_energy :=
          if scale_by_length o then div_number protein_energy (INR (len protein))
          else protein_energy in
        let relu_component := mul_number protein_energy (/ 10 ^ 12) in
        protein_energy ←
          (if modified_sigmoid o then
             let '(a, b, c, d) := modified_sigmoid_params o in
             if Req_dec_T a 0 then ZeroDivisionError
             else
               Returns
                 (add (reciprocal
                         (add (Real (1 / a))
                            (exp_ (div_number
                                     (neg (add (mul_number protein_energy d)
                                             (Real b)))
                                     c))))
                    (Real (- (a - 1))))
           else Returns protein_energy);
        let protein_energy :=
          if add_relu o then add protein_energy relu_component
          else protein_energy in
        Returns (add total_energy protein_energy, total_energy_raw)
    end.

Fixpoint loss_loop (o : options) (scn_proteins : list SCNProtein)
    (acc : scalar * R) : outcome (scalar * R) :=
  match scn_proteins with
  | [] => Returns acc
  | protein :: rest => acc' ← loss_body o protein acc; loss_loop o rest acc'
  end.

(** [openmm_loss]. *)
Definition openmm_loss (o : options) (batch : list example)
  : outcome (scalar * list SCNProtein * list SCNProtein * R) :=
  let scn_proteins := kept false batch in
  let scn_proteins_gt := kept true batch in
  let scn_proteins_no_hy := scn_proteins in
  let scn_proteins := map add_hydrogens scn_proteins in
  '(total_energy, total_energy_raw) ←
    loss_loop o scn_proteins (Real 0, 0%R);
  Returns (total_energy, scn_proteins_no_hy, scn_proteins_gt, total_energy_raw).

(** What an iteration of the loop adds to [total_energy] for a protein of
    [residues] residues and energy [E] when [1/a] does not raise
    (lines 74-82). *)
Definition contribution (o : options) (residues : nat) (E : R) : scalar :=
  let scaled :=
    if scale_by_length o then div_number (Real E) (INR residues) else Real E in
  let squashed :=
    if modified_sigmoid o then
      let '(a, b, c, d) := modified_sigmoid_params o in
      add (reciprocal
             (add (Real (1 / a))
                (exp_ (div_number (neg (add (mul_number scaled d) (Real b)))
                         c))))
        (Real (- (a - 1)))
    else scaled in
  if add_relu o then add squashed (mul_number scaled (/ 10 ^ 12)) else squashed.

End Loss.

(** *** A mocked batch *)

(** Residue index 20 is the unknown residue of OpenFold's alphabet; the mock
    spells every other index as alanine. *)
Definition mock_sequence (aatype : list Z) : string :=
  foldr (λ a rest, String (if (a =? 20)%Z then "X"%char else "A"%char) rest)
    EmptyString aatype.

Definition mock_reps : Collaborators := {|
  Coords15 := ();
  HCoords := ();
  aatype_to_str_sequence := mock_sequence;
  hydrogenate := λ _ _, ()
|}.

(** The mocked oracle raises on an unknown residue and otherwise gives the
    residue count as the energy. *)
Definition mock_oracle : @EnergyOracle mock_reps := {|
  energy := λ p _ _,
    if has_X (@seq mock_reps p) then None
    else Some (INR (String.length (@seq mock_reps p)))
|}.

Definition mock_example (aatype : list Z) : @example mock_reps :=
  @Example mock_reps aatype (length aatype) (map (λ _, 1%Z) aatype) () () None.

Definition resolvable_1 : @example mock_reps := mock_example [0%Z].
Definition resolvable_2 : @example mock_reps := mock_example [0%Z; 0%Z].
Definition unresolved : @example mock_reps := mock_example [0%Z; 20%Z; 0%Z].

(** All transforms requested, with squashing parameters (1, 1, 1, 1). *)
Definition all_options : options :=
  Options None None true true (1%R, 1%R, 1%R, 1%R) true.

(** The squashing alone, with parameters (1, 1, 1, 1). *)
Definition squash_only : options :=
  Options None None false true (1%R, 1%R, 1%R, 1%R) false.


(** The squashing alone, with first parameter 0. *)
Definition squash_zero : options :=
  Options None None false true (0%R, 1%R, 1%R, 1%R) false.


End OpenfoldLoss.

(** ** Python values and exceptions, continued *)

(** The exceptions that [OpenMMLR] and the parsers of [utils/parse.py] can
    raise, next to the ones of [Py] above. *)
Module Builtins.

Inductive exn : Type :=
  | ValueError
  | IndexError
  | KeyError
  | AssertionError.

Inductive result (A : Type) : Type :=
  | Ok (a : A)
  | Raise (e : exn).

Arguments Ok {A} a.
Arguments Raise {A} e.

#[global] Instance result_ret : MRet result := @Ok.
#[global] Instance result_bind : MBind result :=
  λ A B f m, match m with Ok a => f a | Raise e => Raise e end.

(** [l[i]] on a list, for [i >= 0]. *)
Definition index {A : Type} (l : list A) (i : nat) : result A :=
  match l !! i with
  | Some x => Ok x
  | None => Raise IndexError
  end.

(** [for x in l: body], threading the variables the body assigns. *)
Fixpoint for_each {A S : Type} (l : list A) (body : A → S → result S) (s : S)
  : result S :=
  match l with
  | [] => Ok s
  | x :: l' => s' ← body x s; for_each l' body s'
  end.

End Builtins.

(** ** [openfold_loss.py]: the learning-rate ramp [OpenMMLR] *)

Module LearningRate.
Import Builtins.

(** [np.linspace(start, stop, num)] of NumPy, endpoint included, on exact
    rationals: [num] samples [i * step + start] with
    [step = (stop - start) / (num - 1)], the last one set to [stop]. *)
Definition linspace (start stop : Q) (num : Z) : result (list Q) :=
  if (num <? 0)%Z then Raise ValueError
  else
    let div := (num - 1)%Z in
    let delta := (stop - start)%Q in
    let y := map (λ i, inject_Z (Z.of_nat i)) (seq 0 (Z.to_nat num)) in
    let y :=
      if (0 <? div)%Z then
        let step := (delta / inject_Z div)%Q in
        map (λ v, (v * step)%Q) y
      else map (λ v, (v * delta)%Q) y in
    let y := map (λ v, (v + start)%Q) y in
    Ok (if (1 <? num)%Z then <[Z.to_nat div := stop]> y else y).

(** [a[i]] on a one-dimensional array, for a Python integer [i]: a negative
    index counts from the end. *)
Definition getitem (a : list Q) (i : Z) : result Q :=
  let n := Z.of_nat (length a) in
  let j := if (i <? 0)%Z then (i + n)%Z else i in
  if (0 <=? j)%Z && (j <? n)%Z then
    match a !! Z.to_nat j with
    | Some v => Ok v
    | None => Raise IndexError
    end
  else Raise IndexError.

(** The attributes of an [OpenMMLR]. *)
Record OpenMMLR : Type := Build {
  lr : list Q;
  steps : Z;
  cur_step : Z
}.

Definition __init__ (start end_ : Q) (steps cur_step : Z) : result OpenMMLR :=
  lr ← linspace start end_ steps;
  Ok (Build lr steps cur_step).

(** The defaults of the signature: [start=1e-4, end=1, steps=1000,
    cur_step=0]. *)
Definition default_start : Q := 1 # 10000.
Definition default_end : Q := 1.
Definition default_steps : Z := 1000.

Definition step (self : OpenMMLR) (new_step : option Z) : OpenMMLR :=
  match new_step with
  | Some n => Build (lr self) (steps self) n
  | None => Build (lr self) (steps self) (cur_step self + 1)
  end.

(** [get_lr(self, step=None)]: the local [step] is assigned and not read;
    both branches index with [self.cur_step]. *)
Definition get_lr (self : OpenMMLR) (step : option Z) : result Q :=
  let step := match step with None => cur_step self | Some s => s end in
  if (steps self <=? cur_step self)%Z then getitem (lr self) (-1)
  else getitem (lr self) (cur_step self).

Definition get_lr_and_step (self : OpenMMLR) : result (Q * OpenMMLR) :=
  val ← get_lr self None;
  let self := step self None in
  Ok (val, self).

(** [n] successive calls of [get_lr_and_step], as a training loop makes
    them: the values returned, in order, and the object afterwards. *)
Fixpoint calls (n : nat) (self : OpenMMLR) : result (list Q * OpenMMLR) :=
  match n with
  | O => Ok ([], self)
  | S n' =>
      '(val, self) ← get_lr_and_step self;
      '(vals, self) ← calls n' self;
      Ok (val :: vals, self)
  end.

(** Sample [i] of the ramp from [start] to [stop] in [num] samples. *)
Definition ramp (start stop : Q) (num : Z) (i : Z) : Q :=
  (start + inject_Z i * ((stop - start) / inject_Z (num - 1)))%Q.

(** The position of the array that [get_lr] reads when [cur_step] is [c]
    and the array has [num] samples. *)
Definition position (num c : Z) : Z :=
  if (num <=? c)%Z then (num - 1)%Z
  else if (c <? 0)%Z then (c + num)%Z else c.

End LearningRate.

(** ** [utils/parse.py]: strings and text files *)

(** A [str] is modelled as a [string]: its characters are code points below
    256. *)
Module Text.
Import Builtins.

(** The newline character, and a string that holds only it. *)
Definition newline : ascii := "010"%char.
Definition nl : string := String newline EmptyString.

(** [c.isspace()] on one character: the ASCII white space, the four
    separators 28-31, NEL (133) and the no-break space (160). *)
Definition isspace (c : ascii) : bool :=
  let n := nat_of_ascii c in
  ((9 <=? n) && (n <=? 13)) || ((28 <=? n) && (n <=? 32))
  || (n =? 133) || (n =? 160).

(** [s.split()]: the maximal runs of characters that are not white space.
    [word] is the run being read. *)
Fixpoint split_from (word : string) (s : string) : list string :=
  match s with
  | EmptyString =>
      match word with
      | EmptyString => []
      | _ => [word]
      end
  | String c rest =>
      if isspace c then
        match word with
        | EmptyString => split_from EmptyString rest
        | _ => word :: split_from EmptyString rest
        end
      else split_from (word +:+ String c EmptyString) rest
  end.

Definition split (s : string) : list string := split_from EmptyString s.

(** [s.startswith(c)] for a one-character prefix. *)
Definition startswith (s : string) (c : ascii) : bool :=
  match s with
  | String c' _ => Ascii.eqb c' c
  | EmptyString => false
  end.

(** [s[:-1]]: all but the last character; the empty string stays empty. *)
Fixpoint but_last (s : string) : string :=
  match s with
  | EmptyString => EmptyString
  | String _ EmptyString => EmptyString
  | String c rest => String c (but_last rest)
  end.

(** The characters of a string, as [for c in s] visits them. *)
Fixpoint chars (s : string) : list ascii :=
  match s with
  | EmptyString => []
  | String c rest => c :: chars rest
  end.

(** An opened text file is the text not read yet. [fp.readline()] gives the
    text up to and including the next newline, or what is left when there is
    none, and moves the file on. *)
Fixpoint readline (fp : string) : string * string :=
  match fp with
  | EmptyString => (EmptyString, EmptyString)
  | String c rest =>
      if Ascii.eqb c newline then (String c EmptyString, rest)
      else let '(line, fp') := readline rest in (String c line, fp')
  end.

(** [sep.join(words)]. *)
Fixpoint join (sep : string) (words : list string) : string :=
  match words with
  | [] => EmptyString
  | [w] => w
  | w :: ws => w +:+ sep +:+ join sep ws
  end.

(** [c in s] for a character. *)
Fixpoint contains_char (c : ascii) (s : string) : bool :=
  match s with
  | EmptyString => false
  | String c' rest => Ascii.eqb c' c || contains_char c rest
  end.

(** [s.split(sep)] for a one-character separator: the pieces between the
    separators, empty ones included. *)
Fixpoint split_on (sep : ascii) (s : string) : list string :=
  match s with
  | EmptyString => [EmptyString]
  | String c rest =>
      if Ascii.eqb c sep then EmptyString :: split_on sep rest
      else
        match split_on sep rest with
        | piece :: pieces => String c piece :: pieces
        | [] => [String c EmptyString]
        end
  end.

(** [s.replace(c, new)] for a one-character pattern. *)
Fixpoint replace_char (c : ascii) (new : string) (s : string) : string :=
  match s with
  | EmptyString => EmptyString
  | String c' rest =>
      if Ascii.eqb c' c then new +:+ replace_char c new rest
      else String c' (replace_char c new rest)
  end.

(** The number of times a character occurs in a string. *)
Fixpoint count_char (c : ascii) (s : string) : nat :=
  match s with
  | EmptyString => 0
  | String c' rest => (if Ascii.eqb c' c then 1 else 0) + count_char c rest
  end.

(** The tab character as a string. *)
Definition tab : string := String "009"%char EmptyString.

(** A non-empty string without white space, and a string without newline. *)
Definition is_word (w : string) : Prop :=
  w ≠ EmptyString ∧ Forall (λ c, isspace c = false) (chars w).

Definition one_line (s : string) : Prop :=
  Forall (λ c, c ≠ newline) (chars s).

End Text.

(** ** [utils/parse.py]: the ASTRAL summary *)

Module Parse.
Import Builtins Text.

(** Body of the loop of [parse_astral_summary_file] on the dict [d]. *)
Definition astral_body (line : string) (d : gmap string (string * string))
  : result (gmap string (string * string)) :=
  if startswith line "#" then Ok d
  else
    let line_items := split line in
    key ← index line_items 3;
    if (key =? "-")%string then Ok d
    else
      match d !! key with
      | Some _ => Ok d
      | None =>
          pdbid ← index line_items 4;
          chain ← index line_items 5;
          Ok (<[key := (pdbid, chain)]> d)
      end.

Definition parse_astral_summary_file (lines : list string)
  : result (gmap string (string * string)) :=
  for_each lines astral_body ∅.

(** [astral_ok seen lines]: every line that is not a comment has a fourth
    field, and when this is an identifier met for the first time (neither
    "-", nor one that [seen] holds, nor the fourth field of an earlier
    line that is not a comment), the line has a fifth and a sixth field as
    well. *)
Definition astral_ok (seen : string → Prop) (lines : list string) : Prop :=
  ∀ i line, lines !! i = Some line → startswith line "#" = false →
    ∃ k, split line !! 3 = Some k ∧
      (k = "-" ∨ seen k ∨ 6 ≤ length (split line) ∨
       ∃ j line', j < i ∧ lines !! j = Some line' ∧
                  startswith line' "#" = false ∧ split line' !! 3 = Some k).

(** What [get_chain_from_astral_id] asks of ProDy:
    [pr.parsePDB(pdbid, chain=chain)] and then, if there is a selection,
    [a.select(selection)]. *)
Record request : Type := Request {
  req_pdbid : string;
  req_chain : string;
  req_selection : option string
}.

(** The selection string of lines 265-270; [None] when [resnums] is
    empty. *)
Definition selection (resnums : string) : option string :=
  match resnums with
  | EmptyString => None
  | String c rest =>
      if Ascii.eqb c "-" then
        Some ("resnum `" +:+ String c (replace_char "-" " to " rest) +:+ "`")
      else Some ("resnum " +:+ replace_char "-" " to " resnums)
  end.

Definition get_chain_from_astral_id (astral_id : string)
    (d : gmap string (string * string)) : result request :=
  match d !! astral_id with
  | None => Raise KeyError
  | Some (pdbid, chain) =>
      if contains_char "," chain then Raise AssertionError
      else
        match split_on ":" chain with
        | [chain; resnums] =>
            let chain :=
              if (astral_id =? "d4qrye_")%string then "A" else chain in
            Ok (Request pdbid chain (selection resnums))
        | _ => Raise ValueError
        end
  end.

(** *** ProteinNet records *)

(** What the module takes from Python and NumPy to read numbers: [float(s)],
    which raises [ValueError] on a string that spells no number, and
    [np.asarray(rows).T]. *)
Class Numeric : Type := {
  Float : Type;
  Array : Type;
  float : string → option Float;
  asarray_T : list (list Float) → Array
}.

(** The literals of lines 79-80. *)
Definition _dssp_dict : list (ascii * Z) :=
  [("L"%char, 0%Z); ("H"%char, 1%Z); ("B"%char, 2%Z); ("E"%char, 3%Z);
   ("G"%char, 4%Z); ("I"%char, 5%Z); ("T"%char, 6%Z); ("S"%char, 7%Z)].

Definition _mask_dict : list (ascii * Z) := [("-"%char, 0%Z); ("+"%char, 1%Z)].

(** [d[c]] on such a literal. *)
Fixpoint getchar (d : list (ascii * Z)) (c : ascii) : result Z :=
  match d with
  | [] => Raise KeyError
  | (c', v) :: d' => if Ascii.eqb c c' then Ok v else getchar d' c
  end.

(** [[d[c] for c in s]]. *)
Fixpoint codes (d : list (ascii * Z)) (s : list ascii) : result (list Z) :=
  match s with
  | [] => Ok []
  | c :: s' => v ← getchar d c; vs ← codes d s'; Ok (v :: vs)
  end.

Section Records.
Context `{Numeric}.

(** [[float(x) for x in words]]. *)
Fixpoint floats (words : list string) : result (list Float) :=
  match words with
  | [] => Ok []
  | w :: ws =>
      match float w with
      | None => Raise ValueError
      | Some x => xs ← floats ws; Ok (x :: xs)
      end
  end.

(** The loops of lines 92-94 and 103-105: [n] lines of numbers. *)
Fixpoint float_rows (n : nat) (fp : string)
  : result (list (list Float) * string) :=
  match n with
  | O => Ok ([], fp)
  | S n' =>
      let '(line, fp) := readline fp in
      row ← floats (split line);
      '(rows, fp) ← float_rows n' fp;
      Ok (row :: rows, fp)
  end.

(** The dict that [read_protein_from_file] builds: its keys are among the
    six below, each with values of one type, so it is a record of optional
    fields; a field that is [None] is a key that is absent. *)
Record record : Type := Record_ {
  id : option string;
  primary : option string;
  evolutionary : option Array;
  secondary : option (list Z);
  tertiary : option (list (list Float));
  mask : option (list Z)
}.

(** [{}]. *)
Definition empty : record := Record_ None None None None None None.

(** [dict_.update({key: v})] for each key, and [del dict_["id"]]. *)
Definition update_id (v : string) (r : record) : record :=
  Record_ (Some v) (primary r) (evolutionary r) (secondary r) (tertiary r)
    (mask r).

Definition update_primary (v : string) (r : record) : record :=
  Record_ (id r) (Some v) (evolutionary r) (secondary r) (tertiary r) (mask r).

Definition update_evolutionary (v : Array) (r : record) : record :=
  Record_ (id r) (primary r) (Some v) (secondary r) (tertiary r) (mask r).

Definition update_secondary (v : list Z) (r : record) : record :=
  Record_ (id r) (primary r) (evolutionary r) (Some v) (tertiary r) (mask r).

Definition update_tertiary (v : list (list Float)) (r : record) : record :=
  Record_ (id r) (primary r) (evolutionary r) (secondary r) (Some v) (mask r).

Definition update_mask (v : list Z) (r : record) : record :=
  Record_ (id r) (primary r) (evolutionary r) (secondary r) (tertiary r)
    (Some v).

Definition del_id (r : record) : record :=
  Record_ None (primary r) (evolutionary r) (secondary r) (tertiary r) (mask r).

(** The loop of [read_protein_from_file]: [None] when [fuel] iterations
    did not reach a [return]; every iteration that does not return reads at
    least one character. The value is what is returned, with the file as
    the call leaves it. *)
Fixpoint read_loop (fuel : nat) (include_tertiary : bool) (fp : string)
    (dict_ : record) : option (result (option record * string)) :=
  match fuel with
  | O => None
  | S fuel' =>
      let '(next_line, fp) := readline fp in
      if (next_line =? "[ID]" +:+ nl)%string then
        let '(line, fp) := readline fp in
        let id_ := but_last line in
        read_loop fuel' include_tertiary fp (update_id id_ dict_)
      else if (next_line =? "[PRIMARY]" +:+ nl)%string then
        let '(line, fp) := readline fp in
        let primary := but_last line in
        read_loop fuel' include_tertiary fp (update_primary primary dict_)
      else if (next_line =? "[EVOLUTIONARY]" +:+ nl)%string then
        match float_rows 21 fp with
        | Raise e => Some (Raise e)
        | Ok (evolutionary, fp) =>
            read_loop fuel' include_tertiary fp
              (update_evolutionary (asarray_T evolutionary) dict_)
        end
      else if (next_line =? "[SECONDARY]" +:+ nl)%string then
        let '(line, fp) := readline fp in
        match codes _dssp_dict (chars (but_last line)) with
        | Raise e => Some (Raise e)
        | Ok secondary =>
            read_loop fuel' include_tertiary fp
              (update_secondary secondary dict_)
        end
      else if (next_line =? "[TERTIARY]" +:+ nl)%string && include_tertiary then
        match float_rows 3 fp with
        | Raise e => Some (Raise e)
        | Ok (tertiary, fp) =>
            read_loop fuel' include_tertiary fp (update_tertiary tertiary dict_)
        end
      else if (next_line =? "[MASK]" +:+ nl)%string then
        let '(line, fp) := readline fp in
        match codes _mask_dict (chars (but_last line)) with
        | Raise e => Some (Raise e)
        | Ok mask =>
            read_loop fuel' include_tertiary fp (update_mask mask dict_)
        end
      else if (next_line =? nl)%string then Some (Ok (Some dict_, fp))
      else if (next_line =? EmptyString)%string then Some (Ok (None, fp))
      else read_loop fuel' include_tertiary fp dict_
  end.

(** [read_protein_from_file(file_pointer, include_tertiary)]. *)
Definition read_protein_from_file (file_pointer : string)
    (include_tertiary : bool) : option (result (option record * string)) :=
  read_loop (S (String.length file_pointer)) include_tertiary file_pointer
    empty.

(** What [process_file] leaves: the text written to the ids file, the dict
    that is pickled, and the value returned. *)
Record processed : Type := Processed {
  ids_text : string;
  meta_dict : gmap string record;
  returned : option (list string)
}.

(** The loop of [process_file] (lines 128-137) on the input file, the text
    written so far, [meta_dict] and [all_ids]; [None] when [fuel]
    iterations did not reach the [break]. *)
Fixpoint process_loop (fuel : nat) (return_ids : bool) (input_file : string)
    (text_file : string) (meta_dict : gmap string record)
    (all_ids : list string)
  : option (result (string * gmap string record * list string)) :=
  match fuel with
  | O => None
  | S fuel' =>
      match read_protein_from_file input_file true with
      | None => None
      | Some (Raise e) => Some (Raise e)
      | Some (Ok (None, _)) => Some (Ok (text_file, meta_dict, all_ids))
      | Some (Ok (Some next_protein, input_file)) =>
          match id next_protein with
          | None => Some (Raise KeyError)
          | Some id_ =>
              let next_protein := del_id next_protein in
              let meta_dict := <[id_ := next_protein]> meta_dict in
              let text_file := text_file +:+ id_ +:+ nl in
              let all_ids := if return_ids then all_ids ++ [id_] else all_ids in
              process_loop fuel' return_ids input_file text_file meta_dict
                all_ids
          end
      end
  end.

(** [process_file((input_filename, out_dir), return_ids)], on the text of
    the input file. *)
Definition process_file (input_text : string) (return_ids : bool)
  : option (result processed) :=
  match process_loop (S (String.length input_text)) return_ids input_text
          EmptyString ∅ [] with
  | None => None
  | Some (Raise e) => Some (Raise e)
  | Some (Ok (text_file, meta_dict, all_ids)) =>
      Some (Ok (Processed text_file meta_dict
                  (if return_ids then Some all_ids else None)))
  end.

(** *** The text of a record *)

(** What a ProteinNet text file holds for one protein: the lines of the
    six sections, the numbers as the lists of their spellings. *)
Record source : Type := Source {
  src_id : string;
  src_primary : string;
  src_evolutionary : list (list string);
  src_secondary : string;
  src_tertiary : list (list string);
  src_mask : string
}.

(** Rows of numbers, one line each, the numbers separated by tabs. *)
Definition number_lines (rows : list (list string)) : string :=
  foldr (λ row text, join tab row +:+ nl +:+ text) EmptyString rows.

(** The sections of a record, and the record as the file holds it: the
    sections followed by an empty line. *)
Definition record_body (s : source) : string :=
  "[ID]" +:+ nl +:+ src_id s +:+ nl +:+
  "[PRIMARY]" +:+ nl +:+ src_primary s +:+ nl +:+
  "[EVOLUTIONARY]" +:+ nl +:+ number_lines (src_evolutionary s) +:+
  "[SECONDARY]" +:+ nl +:+ src_secondary s +:+ nl +:+
  "[TERTIARY]" +:+ nl +:+ number_lines (src_tertiary s) +:+
  "[MASK]" +:+ nl +:+ src_mask s +:+ nl.

Definition record_text (s : source) : string := record_body s +:+ nl.

(** [spells s include_tertiary r]: the source [s] is well formed (one line
    per text section, 21 rows of numbers for the profile and 3 for the
    coordinates, every number a word that [float] reads, every coordinate
    row starting with a number, every letter of the secondary structure
    and of the mask in its alphabet) and [r] is the record of its values,
    with the coordinates if they are asked for. *)
Definition spells (s : source) (include_tertiary : bool) (r : record) : Prop :=
  one_line (src_id s) ∧ one_line (src_primary s) ∧
  one_line (src_secondary s) ∧ one_line (src_mask s) ∧
  length (src_evolutionary s) = 21 ∧ length (src_tertiary s) = 3 ∧
  Forall (Forall is_word) (src_evolutionary s) ∧
  Forall (Forall is_word) (src_tertiary s) ∧
  Forall (λ row, ∃ w ws, row = w :: ws ∧ startswith w "[" = false)
    (src_tertiary s) ∧
  ∃ evo ter sec msk,
    Forall2 (λ row xs, floats row = Ok xs) (src_evolutionary s) evo ∧
    Forall2 (λ row xs, floats row = Ok xs) (src_tertiary s) ter ∧
    codes _dssp_dict (chars (src_secondary s)) = Ok sec ∧
    codes _mask_dict (chars (src_mask s)) = Ok msk ∧
    r = Record_ (Some (src_id s)) (Some (src_primary s))
          (Some (asarray_T evo)) (Some sec)
          (if include_tertiary then Some ter else None) (Some msk).

(** The text of a file that holds the records of [sources] one after the
    other, and the lines of their identifiers. *)
Definition records_text (sources : list source) : string :=
  foldr (λ s text, record_text s +:+ text) EmptyString sources.

Definition id_lines (sources : list source) : string :=
  foldr (λ s text, src_id s +:+ nl +:+ text) EmptyString sources.

End Records.

(** *** A mocked reader of numbers, a small record and a small summary *)

(** The mocked [float] reads every word as itself; the mocked array is the
    list of rows. *)
Definition mock_numeric : Numeric := {|
  Float := string;
  Array := list (list string);
  float := Some;
  asarray_T := λ rows, rows
|}.

Definition mock_source : source :=
  Source "1A9U_1_A" "MR" (replicate 21 ["0.5"; "0.25"]) "LH"
    (replicate 3 ["1.0"; "2.0"]) "+-".

Definition mock_record (include_tertiary : bool) : @record mock_numeric :=
  @Record_ mock_numeric (Some "1A9U_1_A") (Some "MR")
    (Some (replicate 21 ["0.5"; "0.25"])) (Some [0%Z; 1%Z])
    (if include_tertiary then Some (replicate 3 ["1.0"; "2.0"]) else None)
    (Some [1%Z; 0%Z]).

(** A comment, an entry, an entry without identifier and a second entry
    for the identifier of the first. *)
Definition mock_astral : list string :=
  ["# dir.cla.scope"; "46456 px a.1.1.1 d1dlwa_ 1dlw A:";
   "46457 px a.1.1.1 - 1dlw B:"; "46458 px a.1.1.1 d1dlwa_ 9xyz Z:"].

End Parse.

(** ** [openfold_loss.py]: the map from OpenFold's to SidechainNet's atoms *)

Module Mapping.
Import Builtins.

(** A Python dict whose order matters: its items in the order in which
    their keys were first assigned. [d[k] = v] replaces the value of a key
    that is there and appends a new key. *)
Section Dict.
Context {K V : Type} `{EqDecision K}.

Fixpoint setitem (k : K) (v : V) (d : list (K * V)) : list (K * V) :=
  match d with
  | [] => [(k, v)]
  | (k', v') :: d' =>
      if decide (k = k') then (k', v) :: d' else (k', v') :: setitem k v d'
  end.

Fixpoint get (k : K) (d : list (K * V)) : option V :=
  match d with
  | [] => None
  | (k', v') :: d' => if decide (k = k') then Some v' else get k d'
  end.

Definition getitem (d : list (K * V)) (k : K) : result V :=
  match get k d with
  | Some v => Ok v
  | None => Raise KeyError
  end.

End Dict.

(** The tables the function imports from SidechainNet and OpenFold, as the
    items of each dict. *)
Class Tables : Type := {
  ATOM_MAP_HEAVY : list (string * list string);
  ONE_TO_THREE_LETTER_MAP : list (string * string);
  THREE_TO_ONE_LETTER_MAP : list (string * string);
  restype_name_to_atom14_names : list (string * list string)
}.

(** [{atom_name: i for i, atom_name in enumerate(atom_names) if keep}]. *)
Definition name_index (keep : string → bool) (atom_names : list string)
  : list (string * nat) :=
  foldl (λ d ix, if keep ix.2 then setitem ix.2 ix.1 d else d) []
    (imap (λ i atom_name, (i, atom_name)) atom_names).

Section Mapping.
Context `{Tables}.

(** Lines 186-192. *)
Definition openfold_name_to_openfold_idx : list (string * list (string * nat)) :=
  foldl (λ d item,
           setitem item.1
             (name_index (λ atom_name, negb (atom_name =? EmptyString)%string)
                item.2) d)
    [] restype_name_to_atom14_names.

(** Lines 194-200. *)
Definition scn_name_to_scn_idx : result (list (string * list (string * nat))) :=
  for_each ATOM_MAP_HEAVY
    (λ item d,
       resname ← getitem ONE_TO_THREE_LETTER_MAP item.1;
       Ok (setitem resname
             (name_index (λ atom_name, negb (atom_name =? "PAD")%string) item.2)
             d))
    [].

(** The inner loop of lines 207-214: the dict from OpenFold's position to
    SidechainNet's, for one residue. A name that OpenFold does not have for
    the residue is left out. *)
Definition pair_up (resname : string) (scn_atomnames : list (string * nat))
  : list (nat * nat) :=
  foldl (λ d item,
           match get resname openfold_name_to_openfold_idx ≫= get item.1 with
           | None => d
           | Some openfold_idx => setitem openfold_idx item.2 d
           end)
    [] scn_atomnames.

(** [get_openfold_to_sidechainnet_mapping()]; a tensor is the list of its
    entries. *)
Definition get_openfold_to_sidechainnet_mapping
  : result (list (string * (list nat * list nat))) :=
  scn ← scn_name_to_scn_idx;
  openfold_idx_to_scn_idx ←
    for_each scn
      (λ item d,
         rescode ← getitem THREE_TO_ONE_LETTER_MAP item.1;
         let pairs := pair_up item.1 item.2 in
         Ok (setitem rescode (pairs.*1, pairs.*2) d))
      [];
  glycine ← getitem openfold_idx_to_scn_idx "G";
  Ok (setitem "X" glycine openfold_idx_to_scn_idx).

End Mapping.

(** *** Mocked tables: glycine and alanine *)

Definition mock_tables : Tables := {|
  ATOM_MAP_HEAVY :=
    [("A", ["N"; "CA"; "C"; "O"; "CB"; "PAD"]);
     ("G", ["N"; "CA"; "C"; "O"; "PAD"; "PAD"])];
  ONE_TO_THREE_LETTER_MAP := [("A", "ALA"); ("G", "GLY")];
  THREE_TO_ONE_LETTER_MAP := [("ALA", "A"); ("GLY", "G")];
  restype_name_to_atom14_names :=
    [("ALA", ["N"; "CA"; "C"; "O"; "CB"; EmptyString]);
     ("GLY", ["N"; "CA"; "C"; "O"; EmptyString; EmptyString])]
|}.

End Mapping.

(** * Properties *)

(** ** Angles *)

Module AngleFacts.
Import Angle.

Section Trigonometry.
Local Open Scope R_scope.

Lemma sin_period_Z x (n : Z) : sin (x + 2 * IZR n * PI) = sin x.
Proof.
  destruct (Z.le_gt_cases 0 n) as [Hn|Hn].
  - rewrite <- (Z2Nat.id n Hn), <- INR_IZR_INZ. apply sin_period.
  - rewrite <- (sin_period (x + 2 * IZR n * PI) (Z.to_nat (- n))).
    rewrite INR_IZR_INZ, Z2Nat.id by lia. rewrite opp_IZR. f_equal. ring.
Qed.

Lemma cos_period_Z x (n : Z) : cos (x + 2 * IZR n * PI) = cos x.
Proof.
  destruct (Z.le_gt_cases 0 n) as [Hn|Hn].
  - rewrite <- (Z2Nat.id n Hn), <- INR_IZR_INZ. apply cos_period.
  - rewrite <- (cos_period (x + 2 * IZR n * PI) (Z.to_nat (- n))).
    rewrite INR_IZR_INZ, Z2Nat.id by lia. rewrite opp_IZR. f_equal. ring.
Qed.

(** Every angle has a representative in (-PI, PI]. *)
Lemma principal_angle x :
  exists (y : R) (n : Z), x = y + 2 * IZR n * PI /\ - PI < y <= PI.
Proof.
  pose proof PI_RGT_0 as Hpi.
  set (r := (- x - PI) / (2 * PI)).
  destruct (archimed r) as [Hup1 Hup2].
  exists (x + 2 * IZR (up r) * PI), (- up r)%Z.
  rewrite opp_IZR. split; [ring|].
  assert (r * (2 * PI) = - x - PI) as Hr by (unfold r; field; lra).
  split; nra.
Qed.

Ltac case_sign :=
  repeat match goal with
  | |- context [Rlt_dec ?a ?b] => destruct (Rlt_dec a b); try lra
  | |- context [Rle_dec ?a ?b] => destruct (Rle_dec a b); try lra
  end.

Lemma atan2_principal y : - PI < y <= PI -> atan2 (sin y) (cos y) = y.
Proof.
  intros [Hlo Hhi]. pose proof PI_RGT_0 as Hpi. unfold atan2.
  destruct (Rtotal_order y (- (PI / 2))) as [Hy|[Hy|Hy]].
  - (* third quadrant: shift by PI *)
    pose proof (neg_sin y) as Hs. pose proof (neg_cos y) as Hc.
    assert (0 < cos (y + PI)) by (apply cos_gt_0; lra).
    assert (0 < sin (y + PI)) by (apply sin_gt_0; lra).
    case_sign.
    replace (sin y / cos y) with (tan (y + PI)).
    + rewrite atan_tan; lra.
    + unfold tan. rewrite Hs, Hc. field. lra.
  - subst y. rewrite sin_neg, cos_neg, sin_PI2, cos_PI2. case_sign.
  - destruct (Rtotal_order y (PI / 2)) as [Hy'|[Hy'|Hy']].
    + assert (0 < cos y) by (apply cos_gt_0; lra).
      case_sign.
      change (sin y / cos y) with (tan y). apply atan_tan. lra.
    + subst y. rewrite sin_PI2, cos_PI2. case_sign.
    + pose proof (neg_sin (y - PI)) as Hs. pose proof (neg_cos (y - PI)) as Hc.
      replace (y - PI + PI) with y in * by ring.
      assert (0 < cos (y - PI)) by (apply cos_gt_0; lra).
      assert (0 <= sin y) by (apply sin_ge_0; lra).
      case_sign.
      replace (sin y / cos y) with (tan (y - PI)).
      * rewrite atan_tan; lra.
      * unfold tan. rewrite Hs, Hc. field. lra.
Qed.

Lemma atan2_sin_cos x : same_angle (atan2 (sin x) (cos x)) x.
Proof.
  destruct (principal_angle x) as (y & n & -> & Hy).
  exists (- n)%Z. rewrite sin_period_Z, cos_period_Z, atan2_principal by done.
  rewrite opp_IZR. ring.
Qed.

End Trigonometry.

End AngleFacts.

(** ** [optimize_build_params.py] *)

Module OptimizeBuildParamsFacts.
Import Py Angle AngleFacts Torch OptimizeBuildParams.

(** *** Loops *)

Lemma for_each_cons {A S : Type} (x : A) l (body : A → S → result S) s :
  for_each (x :: l) body s = s' ← body x s; for_each l body s'.
Proof. done. Qed.

Lemma for_each_app {A S : Type} (l1 l2 : list A) (body : A → S → result S) s :
  for_each (l1 ++ l2) body s = s' ← for_each l1 body s; for_each l2 body s'.
Proof.
  revert s. induction l1 as [|x l1 IH]; intros s; simpl; [done|].
  destruct (body x s) as [s1|e]; simpl; [apply IH|done].
Qed.

Lemma for_each_ext {A S : Type} (l : list A) (f g : A → S → result S) s :
  (∀ x s, f x s = g x s) → for_each l f s = for_each l g s.
Proof.
  intros Hfg. revert s. induction l as [|x l IH]; intros s; simpl; [done|].
  rewrite Hfg. destruct (g x s); simpl; [apply IH|done].
Qed.

Lemma for_each_bind {A B S : Type} (l : list A) (f : A → list B)
    (body : B → S → result S) s :
  for_each (l ≫= f) body s = for_each l (λ x, for_each (f x) body) s.
Proof.
  revert s. induction l as [|x l IH]; intros s; [done|].
  change ((x :: l) ≫= f) with (f x ++ (l ≫= f)).
  rewrite for_each_app. simpl.
  destruct (for_each (f x) body s); simpl; [apply IH|done].
Qed.

(** The two nested loops visit [slots keys] in order. *)
Lemma for_each_slots {S : Type} (body : string → string → S → result S)
    (keys : list string) (s : S) :
  for_each root_atoms (λ root_atom, for_each keys (body root_atom)) s =
  for_each (slots keys) (λ p, body p.1 p.2) s.
Proof.
  unfold slots. rewrite for_each_bind.
  apply for_each_ext. intros r s'.
  rewrite for_each_bind. apply for_each_ext. intros k s''. simpl.
  by destruct (body r k s'').
Qed.

Lemma slots_lookup_elem keys i r k :
  slots keys !! i = Some (r, k) → r ∈ root_atoms ∧ k ∈ keys.
Proof.
  intros H. apply list_elem_of_lookup_2 in H. unfold slots in H.
  apply list_elem_of_bind in H as (r' & H & Hr).
  apply list_elem_of_bind in H as (k' & H & Hk).
  apply list_elem_of_singleton in H. by simplify_eq.
Qed.

Lemma slots_elem_lookup keys r k :
  r ∈ root_atoms → k ∈ keys → ∃ i, slots keys !! i = Some (r, k).
Proof.
  intros Hr Hk. apply list_elem_of_lookup_1. unfold slots.
  apply list_elem_of_bind. exists r. split; [|done].
  apply list_elem_of_bind. exists k. split; [|done].
  by apply list_elem_of_singleton.
Qed.

Lemma length_slots keys : length (slots keys) = 3 * length keys.
Proof.
  assert (∀ r : string, length (keys ≫= λ k, [(r, k)]) = length keys) as E.
  { intros r. induction keys as [|k keys IH]; [done|].
    rewrite bind_cons, length_app, IH. done. }
  unfold slots, root_atoms.
  rewrite !bind_cons, !length_app, !E. simpl. lia.
Qed.

(** *** Reading and writing the store *)

Lemma requires_grad__idemp t : requires_grad_ (requires_grad_ t) = requires_grad_ t.
Proof. done. Qed.

Lemma requires_grad__id t : requires_grad t = true → requires_grad_ t = t.
Proof. destruct t as [d b]. simpl. by intros ->. Qed.

Lemma getitem_Ok {V : Type} (d : gmap string V) k v :
  getitem d k = Ok v ↔ d !! k = Some v.
Proof. unfold getitem. destruct (d !! k); split; intros; by simplify_eq. Qed.

Lemma getitem2_Ok bp r k t : getitem2 bp r k = Ok t ↔ entry bp r k = Some t.
Proof.
  unfold getitem2, entry, getitem.
  destruct (bp !! r) as [g|]; simpl; [|split; intros; by simplify_eq].
  destruct (g !! k); split; intros; by simplify_eq.
Qed.

Lemma setitem2_Ok bp r k v bp' :
  setitem2 bp r k v = Ok bp' ↔
  ∃ g, bp !! r = Some g ∧ bp' = <[r := <[k := v]> g]> bp.
Proof.
  unfold setitem2, getitem. destruct (bp !! r) as [g|]; simpl.
  - split; [intros [= <-]; eauto|]. by intros (g' & [= <-] & ->).
  - split; [done|]. by intros (g' & ? & _).
Qed.

Lemma setitem2_total bp r k v :
  is_Some (bp !! r) → ∃ bp', setitem2 bp r k v = Ok bp'.
Proof. intros [g Hg]. eexists. apply setitem2_Ok. eauto. Qed.

Lemma setitem2_root bp r k v bp' r' :
  setitem2 bp r k v = Ok bp' → is_Some (bp' !! r') ↔ is_Some (bp !! r').
Proof.
  intros (g & Hg & ->)%setitem2_Ok.
  destruct (decide (r = r')) as [<-|Hne].
  - rewrite lookup_insert_eq, Hg. split; eauto.
  - by rewrite lookup_insert_ne.
Qed.

Lemma entry_setitem2_eq bp r k v bp' :
  setitem2 bp r k v = Ok bp' → entry bp' r k = Some v.
Proof.
  intros (g & Hg & ->)%setitem2_Ok. unfold entry.
  rewrite lookup_insert_eq. simpl. by rewrite lookup_insert_eq.
Qed.

Lemma entry_setitem2_ne bp r k v bp' r' k' :
  setitem2 bp r k v = Ok bp' → r ≠ r' ∨ k ≠ k' →
  entry bp' r' k' = entry bp r' k'.
Proof.
  intros (g & Hg & ->)%setitem2_Ok Hne. unfold entry.
  destruct (decide (r = r')) as [<-|Hr].
  - rewrite lookup_insert_eq, Hg. simpl.
    destruct Hne as [?|Hk]; [done|]. by rewrite lookup_insert_ne.
  - by rewrite lookup_insert_ne.
Qed.

(** *** Extraction marks tensors and changes nothing else *)

Lemma marked_refl bp : marked bp bp.
Proof. split; [done|]. intros; by left. Qed.

Lemma marked_trans bp1 bp2 bp3 : marked bp1 bp2 → marked bp2 bp3 → marked bp1 bp3.
Proof.
  intros [Hr1 He1] [Hr2 He2]. split.
  - intros r. by rewrite Hr2, Hr1.
  - intros r k. destruct (He2 r k) as [->| ->], (He1 r k) as [->| ->]; auto.
    right. destruct (entry bp1 r k); done.
Qed.

Lemma marked_keeps bp bp' r k t :
  marked bp bp' → entry bp r k = Some t → requires_grad t = true →
  entry bp' r k = Some t.
Proof.
  intros [_ He] Ht Hg. destruct (He r k) as [->| ->]; [done|].
  rewrite Ht. simpl. by rewrite requires_grad__id.
Qed.

Lemma marked_entry bp bp' r k t' :
  marked bp bp' → entry bp' r k = Some t' →
  ∃ t, entry bp r k = Some t ∧ requires_grad_ t = requires_grad_ t'.
Proof.
  intros [_ He] Ht'. destruct (He r k) as [E|E]; rewrite E in Ht'; [eauto|].
  destruct (entry bp r k) as [t|]; [|done]. simpl in Ht'. simplify_eq. eauto.
Qed.

Lemma create_body_Ok r k bp ps bp1 ps1 :
  create_body r k (bp, ps) = Ok (bp1, ps1) →
  ∃ t, entry bp r k = Some t ∧ ps1 = ps ++ [requires_grad_ t] ∧
       entry bp1 r k = Some (requires_grad_ t) ∧ marked bp bp1.
Proof.
  unfold create_body. intros H.
  destruct (getitem2 bp r k) as [t|] eqn:Ht; [|done]. simpl in H.
  destruct (setitem2 bp r k (requires_grad_ t)) as [bp'|] eqn:Hs; [|done].
  simpl in H. simplify_eq. apply getitem2_Ok in Ht.
  exists t. split_and!; [done|done|by eapply entry_setitem2_eq|].
  split; [intros r'; by eapply setitem2_root|].
  intros r' k'. destruct (decide (r = r' ∧ k = k')) as [[<- <-]|Hne].
  - right. rewrite Ht. by eapply entry_setitem2_eq.
  - left. eapply entry_setitem2_ne; [done|].
    destruct (decide (r = r')); [right|left]; naive_solver.
Qed.

Lemma create_slots_spec sl : ∀ bp ps bp' ps',
  for_each sl (λ p, create_body p.1 p.2) (bp, ps) = Ok (bp', ps') →
  marked bp bp' ∧
  ∃ l, ps' = ps ++ l ∧ length l = length sl ∧
    ∀ i r k, sl !! i = Some (r, k) →
      ∃ t, entry bp r k = Some t ∧ l !! i = Some (requires_grad_ t) ∧
           entry bp' r k = Some (requires_grad_ t).
Proof.
  induction sl as [|[r0 k0] sl IH]; intros bp ps bp' ps' H.
  - simpl in H. simplify_eq. split; [apply marked_refl|].
    exists []. rewrite app_nil_r. split_and!; [done|done|]. by intros [].
  - rewrite for_each_cons in H. cbn [fst snd] in H.
    destruct (create_body r0 k0 (bp, ps)) as [[bp1 ps1]|] eqn:Hstep; [|done].
    cbn [mbind result_bind] in H. apply create_body_Ok in Hstep as (t0 & Ht0 & -> & Ht0' & Hm1).
    apply IH in H as (Hm & l & -> & Hlen & Hl).
    split; [by eapply marked_trans|].
    exists (requires_grad_ t0 :: l). rewrite <- app_assoc.
    split_and!; [done|simpl; by rewrite Hlen|].
    intros [|i] r k Hi; simpl in Hi.
    + simplify_eq. exists t0. split_and!; [done|done|].
      by eapply marked_keeps.
    + destruct (Hl i r k Hi) as (t1 & Ht1 & Hli & Ht1').
      destruct (marked_entry _ _ _ _ _ Hm1 Ht1) as (t & Ht & Ett).
      exists t. rewrite Ett. done.
Qed.

(** *** Scattering writes each slot and nothing else *)

Lemma target_keys_targets key : target_keys key = (targets key).*1.
Proof. unfold target_keys, targets. by repeat case_match. Qed.

Lemma written_targets bp r k x :
  written bp r k x ↔ ∀ k' f, (k', f) ∈ targets k → entry bp r k' = Some (f x).
Proof.
  unfold written, targets.
  destruct (k =? "thetas")%string; [|destruct (k =? "chis")%string].
  - split.
    + intros [H1 H2] k' f [?|[?|[]]]%list_elem_of_In; by simplify_eq.
    + intros Hall. split; apply Hall; set_solver.
  - split.
    + intros [H1 H2] k' f [?|[?|[]]]%list_elem_of_In; by simplify_eq.
    + intros Hall. split; apply Hall; set_solver.
  - split.
    + intros H1 k' f [?|[]]%list_elem_of_In. by simplify_eq.
    + intros Hall. apply (Hall k (λ t, t)). set_solver.
Qed.

Lemma setitem2_pair_Ok bp r k1 v1 k2 v2 bp2 :
  (bp1 ← setitem2 bp r k1 v1; setitem2 bp1 r k2 v2) = Ok bp2 →
  k1 ≠ k2 →
  (∀ r', is_Some (bp2 !! r') ↔ is_Some (bp !! r')) ∧
  (∀ r' k', r' ≠ r ∨ k' ∉ [k1; k2] → entry bp2 r' k' = entry bp r' k') ∧
  entry bp2 r k1 = Some v1 ∧ entry bp2 r k2 = Some v2.
Proof.
  intros H Hk. destruct (setitem2 bp r k1 v1) as [b1|] eqn:E1; [|done].
  cbn [mbind result_bind] in H. split_and!.
  - intros r'. rewrite (setitem2_root _ _ _ _ _ _ H).
    by rewrite (setitem2_root _ _ _ _ _ _ E1).
  - intros r' k' Hne.
    rewrite (entry_setitem2_ne _ _ _ _ _ r' k' H),
      (entry_setitem2_ne _ _ _ _ _ r' k' E1); [done|..];
      (destruct Hne as [?|Hne]; [left; done|right; set_solver]).
  - rewrite (entry_setitem2_ne _ _ _ _ _ r k1 H); [|right; done].
    by eapply entry_setitem2_eq.
  - by eapply entry_setitem2_eq.
Qed.

Lemma update_body_Ok vs r k bp i bp1 i1 :
  update_body vs r k (bp, i) = Ok (bp1, i1) →
  i1 = S i ∧
  (∀ r', is_Some (bp1 !! r') ↔ is_Some (bp !! r')) ∧
  (∀ r' k', r' ≠ r ∨ k' ∉ target_keys k → entry bp1 r' k' = entry bp r' k') ∧
  ∃ x, subscript vs i = Ok x ∧ written bp1 r k x.
Proof.
  unfold update_body, written, target_keys, to_sin_cos. intros H.
  destruct (subscript vs i) as [x|] eqn:Hx; cbn [mbind result_bind] in H;
    [|by repeat case_match].
  destruct (k =? "thetas")%string; [|destruct (k =? "chis")%string].
  - destruct (setitem2 bp r "sthetas" _) as [b1|] eqn:E1; [|done].
    cbn [mbind result_bind] in H.
    destruct (setitem2 b1 r "cthetas" _) as [b2|] eqn:E2; [|done].
    cbn [mbind result_bind] in H. simplify_eq.
    destruct (setitem2_pair_Ok bp r "sthetas" (Torch.sin x) "cthetas" (Torch.cos x) bp1)
      as (? & ? & ? & ?); [by rewrite E1|done|]. eauto 10.
  - destruct (setitem2 bp r "schis" _) as [b1|] eqn:E1; [|done].
    cbn [mbind result_bind] in H.
    destruct (setitem2 b1 r "cchis" _) as [b2|] eqn:E2; [|done].
    cbn [mbind result_bind] in H. simplify_eq.
    destruct (setitem2_pair_Ok bp r "schis" (Torch.sin x) "cchis" (Torch.cos x) bp1)
      as (? & ? & ? & ?); [by rewrite E1|done|]. eauto 10.
  - destruct (setitem2 bp r k x) as [b1|] eqn:H1; [|done].
    cbn [mbind result_bind] in H. simplify_eq. split_and!; [done| | |].
    + intros r'. by rewrite (setitem2_root _ _ _ _ _ _ H1).
    + intros r' k' Hne.
      rewrite (entry_setitem2_ne _ _ _ _ _ r' k' H1); [done|].
      destruct Hne as [?|Hk]; [left; done|right; set_solver].
    + exists x. split; [done|]. by eapply entry_setitem2_eq.
Qed.

Lemma contains_elem l k : contains l k = true ↔ k ∈ l.
Proof.
  unfold contains. split.
  - intros (x & Hin & ->%String.eqb_eq)%existsb_exists. by apply list_elem_of_In.
  - intros Hin. apply existsb_exists. exists k.
    split; [by apply list_elem_of_In|by apply String.eqb_eq].
Qed.

Lemma clashes_false p q k' :
  clashes p q = false → k' ∈ target_keys p.2 →
  p.1 ≠ q.1 ∨ k' ∉ target_keys q.2.
Proof.
  unfold clashes. intros [Hr|Hk]%andb_false_iff Hin.
  - left. by apply String.eqb_neq.
  - right. intros Hin'. apply not_true_iff_false in Hk. apply Hk.
    apply existsb_exists. exists k'. split; [by apply list_elem_of_In|].
    by apply contains_elem.
Qed.

Lemma no_clash_selected_keys b1 b2 b3 :
  no_clash (slots (selected_keys b1 b2 b3)) = true.
Proof. by destruct b1, b2, b3. Qed.

Lemma update_body_frame vs p q x bp i bp1 i1 :
  update_body vs q.1 q.2 (bp, i) = Ok (bp1, i1) →
  clashes p q = false →
  written bp p.1 p.2 x → written bp1 p.1 p.2 x.
Proof.
  intros (_ & _ & Hframe & _)%update_body_Ok Hc.
  rewrite !written_targets. intros Hw k' f Hin.
  rewrite Hframe; [by apply Hw|].
  destruct (clashes_false p q k' Hc) as [?|?]; [|by left|by right].
  rewrite target_keys_targets. apply list_elem_of_fmap. by exists (k', f).
Qed.

Lemma update_slots_frame vs p x sl : ∀ bp i bp' i',
  for_each sl (λ q, update_body vs q.1 q.2) (bp, i) = Ok (bp', i') →
  forallb (λ q, negb (clashes p q)) sl = true →
  written bp p.1 p.2 x → written bp' p.1 p.2 x.
Proof.
  induction sl as [|q sl IH]; intros bp i bp' i' H Hc Hw.
  - simpl in H. by simplify_eq.
  - rewrite for_each_cons in H.
    destruct (update_body vs q.1 q.2 (bp, i)) as [[bp1 i1]|] eqn:Hstep; [|done].
    cbn [mbind result_bind] in H. simpl in Hc.
    apply andb_true_iff in Hc as [Hq Hc]. apply negb_true_iff in Hq.
    eapply IH; [done|done|]. by eapply update_body_frame.
Qed.

Lemma update_slots_spec vs sl : ∀ bp i bp' i',
  no_clash sl = true →
  for_each sl (λ q, update_body vs q.1 q.2) (bp, i) = Ok (bp', i') →
  i' = i + length sl ∧
  ∀ j r k, sl !! j = Some (r, k) →
    ∃ x, subscript vs (i + j) = Ok x ∧ written bp' r k x.
Proof.
  induction sl as [|[r0 k0] sl IH]; intros bp i bp' i' Hnc H.
  - simpl in H. simplify_eq. split; [simpl; lia|]. by intros [].
  - rewrite for_each_cons in H. cbn [fst snd] in H.
    destruct (update_body vs r0 k0 (bp, i)) as [[bp1 i1]|] eqn:Hstep; [|done].
    cbn [mbind result_bind] in H. simpl in Hnc.
    apply andb_true_iff in Hnc as [Hc Hnc].
    pose proof Hstep as (-> & _ & _ & x0 & Hx0 & Hw0)%update_body_Ok.
    destruct (IH _ _ _ _ Hnc H) as (-> & Hsl).
    split; [simpl; lia|]. intros [|j] r k Hj; simpl in Hj.
    + simplify_eq. exists x0. rewrite Nat.add_0_r. split; [done|].
      by eapply (update_slots_frame vs (r, k)).
    + destruct (Hsl j r k Hj) as (x & Hx & Hw). exists x.
      by replace (i + S j) with (S i + j) by lia.
Qed.

Lemma update_body_total vs r k bp i x :
  is_Some (bp !! r) → subscript vs i = Ok x →
  ∃ bp1, update_body vs r k (bp, i) = Ok (bp1, S i) ∧
         ∀ r', is_Some (bp1 !! r') ↔ is_Some (bp !! r').
Proof.
  intros Hr Hx. unfold update_body, to_sin_cos. rewrite Hx.
  cbn [mbind result_bind].
  destruct (k =? "thetas")%string; [|destruct (k =? "chis")%string].
  - destruct (setitem2_total bp r "sthetas" (Torch.sin x) Hr) as [b1 E1].
    rewrite E1. cbn [mbind result_bind].
    destruct (setitem2_total b1 r "cthetas" (Torch.cos x)) as [b2 E2].
    { by rewrite (setitem2_root _ _ _ _ _ _ E1). }
    rewrite E2. eexists. split; [done|]. intros r'.
    by rewrite (setitem2_root _ _ _ _ _ _ E2), (setitem2_root _ _ _ _ _ _ E1).
  - destruct (setitem2_total bp r "schis" (Torch.sin x) Hr) as [b1 E1].
    rewrite E1. cbn [mbind result_bind].
    destruct (setitem2_total b1 r "cchis" (Torch.cos x)) as [b2 E2].
    { by rewrite (setitem2_root _ _ _ _ _ _ E1). }
    rewrite E2. eexists. split; [done|]. intros r'.
    by rewrite (setitem2_root _ _ _ _ _ _ E2), (setitem2_root _ _ _ _ _ _ E1).
  - destruct (setitem2_total bp r k x Hr) as [b1 E1].
    rewrite E1. eexists. split; [done|]. intros r'.
    by rewrite (setitem2_root _ _ _ _ _ _ E1).
Qed.

Lemma update_slots_total (vs : list tensor) sl : ∀ bp i,
  (∀ r k, (r, k) ∈ sl → is_Some (bp !! r)) →
  i + length sl ≤ length vs →
  ∃ bp', for_each sl (λ q, update_body (PyList vs) q.1 q.2) (bp, i)
         = Ok (bp', i + length sl) ∧
         ∀ r', is_Some (bp' !! r') ↔ is_Some (bp !! r').
Proof.
  induction sl as [|[r0 k0] sl IH]; intros bp i Hroots Hlen.
  - exists bp. simpl. by rewrite Nat.add_0_r.
  - simpl in Hlen. destruct (lookup_lt_is_Some_2 vs i) as [x Hx]; [lia|].
    destruct (update_body_total (PyList vs) r0 k0 bp i x) as (bp1 & E1 & Hr1).
    { apply (Hroots r0 k0). by left. }
    { simpl. unfold index. by rewrite Hx. }
    destruct (IH bp1 (S i)) as (bp' & E & Hr); [|lia|].
    { intros r k Hin. rewrite Hr1. apply (Hroots r k). by right. }
    exists bp'. rewrite for_each_cons. cbn [fst snd]. rewrite E1.
    cbn [mbind result_bind]. rewrite E. split.
    + do 2 f_equal. simpl. lia.
    + intros r'. by rewrite Hr, Hr1.
Qed.

(** *** The two operations as a whole *)

Lemma atan2_to_sin_cos t :
  same_angles (atan2_ (to_sin_cos t).1 (to_sin_cos t).2) t.
Proof.
  unfold same_angles. destruct t as [d g]. simpl. clear g.
  induction d as [|x d IH]; simpl; constructor; [apply atan2_sin_cos|done].
Qed.

Lemma slots_list_prod keys : slots keys = list_prod root_atoms keys.
Proof.
  unfold slots. generalize root_atoms as rs.
  induction rs as [|r rs IH]; [done|]. rewrite bind_cons, IH. simpl.
  by f_equal.
Qed.

Lemma selected_keys_sublist b1 b2 b3 :
  selected_keys b1 b2 b3 `sublist_of` ["bond_lengths"; "thetas"; "chis"].
Proof.
  destruct b1, b2, b3; simpl;
    repeat first [apply sublist_nil | apply sublist_skip | apply sublist_cons].
Qed.

Lemma selected_keys_elem b1 b2 b3 k :
  k ∈ selected_keys b1 b2 b3 →
  k = "bond_lengths" ∨ k = "thetas" ∨ k = "chis".
Proof.
  intros Hk.
  apply (sublist_subseteq _ _ (selected_keys_sublist b1 b2 b3)) in Hk.
  apply list_elem_of_In in Hk. simpl in Hk. intuition.
Qed.

Lemma create_param_list_spec keys bp bp1 ps :
  create_param_list_from_build_params keys bp = Ok (bp1, ps) →
  marked bp bp1 ∧ length ps = length (slots keys) ∧
  ∀ i r k, slots keys !! i = Some (r, k) →
    ∃ t, entry bp r k = Some t ∧ ps !! i = Some (requires_grad_ t) ∧
         entry bp1 r k = Some (requires_grad_ t).
Proof.
  unfold create_param_list_from_build_params. rewrite for_each_slots.
  intros (Hm & l & -> & Hlen & Hl)%create_slots_spec. done.
Qed.

Lemma update_complete_spec keys bp vs bp2 :
  no_clash (slots keys) = true →
  update_complete_build_params_with_optimized_params keys bp vs = Ok bp2 →
  ∀ i r k, slots keys !! i = Some (r, k) →
    ∃ x, subscript vs i = Ok x ∧ written bp2 r k x.
Proof.
  unfold update_complete_build_params_with_optimized_params.
  rewrite for_each_slots. intros Hnc H.
  destruct (for_each (slots keys) _ (bp, 0)) as [[bp' i']|] eqn:E; [|done].
  cbn in H. simplify_eq.
  by destruct (update_slots_spec _ _ _ _ _ _ Hnc E) as [_ Hsl].
Qed.

Lemma update_complete_total keys bp (vs : list tensor) :
  (∀ r k, (r, k) ∈ slots keys → is_Some (bp !! r)) →
  length (slots keys) ≤ length vs →
  ∃ bp2, update_complete_build_params_with_optimized_params keys bp (PyList vs)
         = Ok bp2 ∧
         ∀ r, is_Some (bp2 !! r) ↔ is_Some (bp !! r).
Proof.
  intros Hroots Hlen.
  destruct (update_slots_total vs (slots keys) bp 0 Hroots) as (bp2 & E & Hr);
    [simpl; lia|].
  exists bp2. unfold update_complete_build_params_with_optimized_params.
  rewrite for_each_slots, E. done.
Qed.

Lemma entry_root bp r k t : entry bp r k = Some t → is_Some (bp !! r).
Proof. unfold entry. destruct (bp !! r); [eauto|done]. Qed.

(** C8. Extraction lists the store in the order anchor atom (N, CA, C) by
    key (bond_lengths, thetas, chis, restricted to the selected keys) and
    marks every listed tensor as requiring gradient; scattering a list reads
    it in the same order: entry [i] of either list belongs to slot [i], which
    receives the entry itself for bond lengths and its sine/cosine pair for
    an angle. *)
Theorem C8_extract_scatter_positional (b1 b2 b3 : bool)
    (bp bp1 bp0 bp2 : build_params_t) (ps vs : list tensor) :
  create_param_list_from_build_params (selected_keys b1 b2 b3) bp
    = Ok (bp1, ps) →
  update_complete_build_params_with_optimized_params
    (selected_keys b1 b2 b3) bp0 (PyList vs) = Ok bp2 →
  selected_keys b1 b2 b3 `sublist_of` ["bond_lengths"; "thetas"; "chis"] ∧
  slots (selected_keys b1 b2 b3)
    = list_prod ["N"; "CA"; "C"] (selected_keys b1 b2 b3) ∧
  length ps = length (slots (selected_keys b1 b2 b3)) ∧
  ∀ i root key, slots (selected_keys b1 b2 b3) !! i = Some (root, key) →
    (∃ t, entry bp root key = Some t ∧
          ps !! i = Some (requires_grad_ t) ∧
          entry bp1 root key = Some (requires_grad_ t)) ∧
    (∃ x, vs !! i = Some x ∧ written bp2 root key x).
Proof.
  intros (_ & Hlen & Hps)%create_param_list_spec Hup.
  split_and!; [apply selected_keys_sublist|apply slots_list_prod|done|].
  intros i r k Hi. split; [by apply Hps|].
  destruct (update_complete_spec _ _ _ _ (no_clash_selected_keys b1 b2 b3)
              Hup i r k Hi) as (x & Hx & Hw).
  exists x. split; [|done]. simpl in Hx. unfold index in Hx.
  by destruct (vs !! i); simplify_eq.
Qed.

(** C4. Scattering the list just extracted succeeds and brings every
    selected slot back: a bond-length tensor holds the entries it held, and
    the stored sine/cosine pair of an angle tensor, read through [atan2],
    gives the extracted angles up to whole turns. *)
Theorem C4_scatter_extract_round_trip (b1 b2 b3 : bool)
    (bp bp1 : build_params_t) (ps : list tensor) :
  create_param_list_from_build_params (selected_keys b1 b2 b3) bp
    = Ok (bp1, ps) →
  ∃ bp2,
    update_complete_build_params_with_optimized_params
      (selected_keys b1 b2 b3) bp1 (PyList ps) = Ok bp2 ∧
    ∀ root key, root ∈ root_atoms → key ∈ selected_keys b1 b2 b3 →
      ∃ t, entry bp root key = Some t ∧
        if (key =? "bond_lengths")%string then
          ∃ t2, entry bp2 root key = Some t2 ∧ data t2 = data t
        else
          ∃ sn cs, entry bp2 root ("s" +:+ key) = Some sn ∧
                   entry bp2 root ("c" +:+ key) = Some cs ∧
                   same_angles (atan2_ sn cs) t.
Proof.
  intros (_ & Hlen & Hps)%create_param_list_spec.
  destruct (update_complete_total (selected_keys b1 b2 b3) bp1 ps)
    as (bp2 & Hup & _); [|lia|].
  { intros r k (i & Hi)%list_elem_of_lookup_1.
    destruct (Hps i r k Hi) as (t & _ & _ & Ht). by eapply entry_root. }
  exists bp2. split; [done|]. intros r k Hr Hk.
  destruct (slots_elem_lookup _ r k Hr Hk) as [i Hi].
  destruct (Hps i r k Hi) as (t & Ht & Hpi & _).
  destruct (update_complete_spec _ _ _ _ (no_clash_selected_keys b1 b2 b3)
              Hup i r k Hi) as (x & Hx & Hw).
  simpl in Hx. unfold index in Hx. rewrite Hpi in Hx. simplify_eq.
  exists t. split; [done|].
  destruct (selected_keys_elem _ _ _ _ Hk) as [->|[->| ->]].
  - simpl. by exists (requires_grad_ t).
  - destruct Hw as [Hs Hc]. simpl. eexists _, _. split_and!; [done|done|].
    apply (atan2_to_sin_cos (requires_grad_ t)).
  - destruct Hw as [Hs Hc]. simpl. eexists _, _. split_and!; [done|done|].
    apply (atan2_to_sin_cos (requires_grad_ t)).
Qed.

Section Optimizer.
Context `{Collaborators}.

(** *** The store keeps its anchors, the list its length *)

Lemma write_through_root keys ps bp r :
  is_Some (write_through keys ps bp !! r) ↔ is_Some (bp !! r).
Proof.
  unfold write_through. generalize (zip (slots keys) ps) as l. intros l.
  revert bp. induction l as [|[[r0 k0] t] l IH]; intros bp; [done|].
  simpl. rewrite IH. destruct (bp !! r0) as [g|] eqn:E; [|done].
  destruct (decide (r0 = r)) as [<-|Hne].
  - rewrite lookup_insert_eq, E. split; eauto.
  - by rewrite lookup_insert_ne.
Qed.

Lemma length_assign_data new ps : length (assign_data new ps) = length ps.
Proof. apply length_imap. Qed.

Lemma well_formed_in_place self new :
  well_formed self → well_formed (in_place self new).
Proof.
  intros [Hr Hl]. split; simpl.
  - intros r k Hin. rewrite write_through_root. by eapply Hr.
  - by rewrite length_assign_data.
Qed.

Lemma well_formed_scatter self :
  well_formed self →
  ∃ bp, update_complete_build_params_with_optimized_params
          (keys_to_optimize self) (build_params self) (PyList (params self))
        = Ok bp ∧
        ∀ r, is_Some (bp !! r) ↔ is_Some (build_params self !! r).
Proof. intros [Hr Hl]. by apply update_complete_total. Qed.

Lemma well_formed_init p b1 b2 b3 self :
  __init__ p b1 b2 b3 = Ok self → well_formed self.
Proof.
  unfold __init__. intros Hinit.
  destruct (for_each root_atoms _ _) as [bp0|]; [|done].
  cbn [mbind result_bind] in Hinit.
  destruct (create_param_list_from_build_params _ bp0) as [[bp1 ps]|] eqn:E;
    [|done].
  cbn [mbind result_bind] in Hinit. simplify_eq.
  apply create_param_list_spec in E as (_ & Hlen & Hps).
  split; simpl; [|lia].
  intros r k (i & Hi)%list_elem_of_lookup_1.
  destruct (Hps i r k Hi) as (t & _ & _ & Ht). by eapply entry_root.
Qed.

(** *** One iteration of the first-order loop *)

Lemma sgd_finish_inv self o lossnp g l self' o' l' sig :
  sgd_finish self o lossnp g l = (self', o', l', sig) →
  sig = Next ∧ keys_to_optimize self' = keys_to_optimize self ∧
  (well_formed self → well_formed self') ∧
  losses self' = losses self ++ [lossnp] ∧
  best_loss l' = best_loss l ∧
  best_params_so_far l' = best_params_so_far l ∧
  counter l' = counter l.
Proof.
  unfold sgd_finish. destruct (step o g (params self)) as [o1 new].
  destruct (scheduler_step (scheduler l) o1 lossnp) as [sch o2].
  intros Heq. simplify_eq. split_and!; try done.
  intros [Hr Hl]. apply well_formed_in_place. by split.
Qed.

Lemma sgd_body_inv self o l self' o' l' sig :
  sgd_body self o l = (self', o', l', sig) →
  keys_to_optimize self' = keys_to_optimize self ∧
  match sig with
  | Raised e => losses self' = losses self ∧ l' = l ∧ ¬ well_formed self
  | Broke => patience < counter l
  | Next =>
      (well_formed self → well_formed self') ∧
      ∃ lossnp, losses self' = losses self ++ [lossnp] ∧
        if improves lossnp (best_loss l) then
          best_loss l' = Some lossnp ∧
          best_params_so_far l' = PyList (map deepcopy (params self)) ∧
          counter l' = 0
        else
          best_loss l' = best_loss l ∧
          best_params_so_far l' = best_params_so_far l ∧
          counter l < S patience ∧
          counter l' = (if counter l <? patience then S (counter l)
                        else counter l)
  end.
Proof.
  unfold sgd_body. intros Hb.
  destruct (update_complete_build_params_with_optimized_params _ _ _)
    as [bp|e] eqn:Hup.
  2:{ simplify_eq. split_and!; [done..|]. intros Hwf.
      destruct (well_formed_scatter self Hwf) as (bp & Hbp & _).
      simpl in Hup. congruence. }
  set (p := fastbuild bp _) in *. set (lossnp := energy p) in *.
  assert (well_formed self →
          well_formed (with_store (note self) bp
                         (Protein p (_last_loss (protein (note self)))))) as Hwf0.
  { intros Hwf. destruct (well_formed_scatter self Hwf) as (bp' & Hbp & Hroots).
    simpl in Hup. rewrite Hbp in Hup. simplify_eq.
    destruct Hwf as [Hr Hl]. split; simpl; [|done].
    intros r k Hin. rewrite Hroots. by eapply Hr. }
  destruct (improves lossnp (best_loss l)) eqn:Himp.
  - apply sgd_finish_inv in Hb as (-> & Hk & Hwf & Hl & Hbl & Hbp & Hc).
    split; [done|]. split; [by auto|]. exists lossnp. by rewrite Himp.
  - destruct (patience <? counter l) eqn:Hgt.
    + simplify_eq. split; [done|]. by apply Nat.ltb_lt.
    + apply Nat.ltb_ge in Hgt.
      destruct (counter l <? patience) eqn:Hlt;
        apply sgd_finish_inv in Hb as (-> & Hk & Hwf & Hl & Hbl & Hbp & Hc);
        (split; [done|]); (split; [by auto|]); exists lossnp; rewrite Himp;
        simpl in *; split_and!; try done; lia.
Qed.

(** *** Best-loss tracking *)

Lemma Qltb_lt a b : Qltb a b = true ↔ (a < b)%Q.
Proof.
  unfold Qltb. rewrite negb_true_iff, <- not_true_iff_false, Qle_bool_iff.
  split; [apply Qnot_le_lt|apply Qlt_not_le].
Qed.

Lemma epsilon_pos : (0 < epsilon)%Q.
Proof. done. Qed.

Lemma improves_true x b :
  improves x (Some b) = true → (x < b - epsilon)%Q.
Proof.
  unfold improves. intros [H1%Qltb_lt H2%Qltb_lt]%andb_true_iff.
  revert H2. apply Qabs_case; intros; lra.
Qed.

Lemma improves_false x b :
  improves x (Some b) = false → (b - epsilon <= x)%Q.
Proof.
  unfold improves. pose proof epsilon_pos.
  intros [H1|H1]%andb_false_iff; apply not_true_iff_false in H1;
    rewrite Qltb_lt in H1; apply Qnot_lt_le in H1; [lra|].
  revert H1. apply Qabs_case; intros; lra.
Qed.

Lemma tracks_step best obs x :
  tracks best obs →
  tracks (if improves x best then Some x else best) (obs ++ [x]).
Proof.
  pose proof epsilon_pos as He. unfold tracks. destruct best as [b|].
  - intros [Hb Hobs]. destruct (improves x (Some b)) eqn:Himp.
    + apply improves_true in Himp. split; [set_solver|].
      intros y [Hy| ->%list_elem_of_singleton]%elem_of_app; [|lra].
      specialize (Hobs y Hy). lra.
    + apply improves_false in Himp. split; [set_solver|].
      intros y [Hy| ->%list_elem_of_singleton]%elem_of_app; [by apply Hobs|done].
  - intros ->. simpl. split; [set_solver|].
    intros y ->%list_elem_of_singleton. lra.
Qed.

Lemma foldl_min_loss_spec l : ∀ x,
  foldl min_loss x l ∈ x :: l ∧
  ∀ y, y ∈ x :: l → (foldl min_loss x l <= y)%Q.
Proof.
  induction l as [|z l IH]; intros x; simpl.
  - split; [left|]. intros y ->%list_elem_of_singleton. lra.
  - destruct (IH (min_loss x z)) as [Hin Hle].
    assert ((min_loss x z <= x)%Q ∧ (min_loss x z <= z)%Q ∧
            (min_loss x z = x ∨ min_loss x z = z)) as (Hx & Hz & Hor).
    { unfold min_loss. destruct (Qle_bool x z) eqn:E.
      - apply Qle_bool_iff in E. split_and!; [lra|done|by left].
      - apply not_true_iff_false in E. rewrite Qle_bool_iff in E.
        apply Qnot_le_lt in E. split_and!; [lra|lra|by right]. }
    split.
    + apply elem_of_cons in Hin as [E|Hin]; [|by do 2 right].
      rewrite E. destruct Hor as [-> | ->]; [left|right; left].
    + intros y [->|[->|Hy]%elem_of_cons]%elem_of_cons.
      * eapply Qle_trans; [apply Hle; left|done].
      * eapply Qle_trans; [apply Hle; left|done].
      * apply Hle. by right.
Qed.

Lemma minimum_spec l m :
  minimum l = Some m → m ∈ l ∧ ∀ y, y ∈ l → (m <= y)%Q.
Proof.
  destruct l as [|x l]; [done|]. intros [= <-]. apply foldl_min_loss_spec.
Qed.

(** With a minimum [m] of the observed losses, a tracked best loss lies
    between [m] and [m + epsilon]. *)
Lemma tracks_minimum best obs m :
  tracks best obs → minimum obs = Some m →
  ∃ b, best = Some b ∧ b ∈ obs ∧ (m <= b)%Q ∧ (b <= m + epsilon)%Q.
Proof.
  intros Ht (Hm & Hle)%minimum_spec. destruct best as [b|]; simpl in Ht.
  - destruct Ht as [Hb Hobs]. exists b. split_and!; [done|done|by apply Hle|].
    specialize (Hobs m Hm). lra.
  - subst obs. by apply elem_of_nil in Hm.
Qed.

(** *** The first-order loop as a whole *)

Lemma sgd_loop_inv steps : ∀ self o l self' o' l' sig obs0,
  sgd_loop steps self o l = (self', o', l', sig) →
  counter l ≤ patience → tracks (best_loss l) obs0 →
  counter l' ≤ patience ∧ sig ≠ Broke ∧
  keys_to_optimize self' = keys_to_optimize self ∧
  (well_formed self → sig = Next ∧ well_formed self') ∧
  ∃ obs, losses self' = losses self ++ obs ∧
         (sig = Next → length obs = steps) ∧
         tracks (best_loss l') (obs0 ++ obs).
Proof.
  induction steps as [|steps IH]; intros self o l self' o' l' sig obs0 Hloop Hc Ht.
  - simpl in Hloop. simplify_eq. split_and!; [done..|].
    exists []. by rewrite !app_nil_r.
  - simpl in Hloop.
    destruct (sgd_body self o l) as [[[self1 o1] l1] sig1] eqn:Hbody.
    apply sgd_body_inv in Hbody as [Hk Hbody]. destruct sig1 as [| |e].
    + destruct Hbody as (Hwf1 & lossnp & Hl1 & Hcase).
      assert (counter l1 ≤ patience ∧
              best_loss l1 = if improves lossnp (best_loss l)
                             then Some lossnp else best_loss l) as [Hc1 Hb1].
      { destruct (improves lossnp (best_loss l)).
        - destruct Hcase as (-> & _ & ->). split; [lia|done].
        - destruct Hcase as (-> & _ & _ & ->). split; [|done].
          destruct (counter l <? patience) eqn:E; [|done].
          apply Nat.ltb_lt in E. lia. }
      destruct (IH _ _ _ _ _ _ _ (obs0 ++ [lossnp]) Hloop Hc1)
        as (Hc' & Hsig & Hk' & Hwf' & obs & Hl' & Hlen & Ht').
      { rewrite Hb1. by apply tracks_step. }
      split_and!; [done|done|congruence|by auto|].
      exists (lossnp :: obs). rewrite Hl', Hl1, <- !app_assoc in *.
      split_and!; [done| |done]. intros E. simpl. by rewrite Hlen.
    + unfold patience in *. lia.
    + destruct Hbody as (Hl1 & -> & Hnwf). simplify_eq.
      split_and!; [done|done|done|done|].
      exists []. rewrite !app_nil_r. done.
Qed.

(** C9. In the first-order loop the counter stays at most [patience]: it is
    incremented only below [patience]. So no iteration takes the break
    branch; every iteration that does not raise appends its loss, and on an
    object as [__init__] leaves it no iteration raises: the loop runs its
    whole step budget. *)
Theorem C9_counter_never_exceeds_patience (steps : nat)
    (self self' : BuildParamOptimizer) (o o' : Optimizer) (l l' : locals)
    (sig : signal) :
  counter l ≤ patience →
  sgd_loop steps self o l = (self', o', l', sig) →
  counter l' ≤ patience ∧ sig ≠ Broke ∧
  (sig = Next → length (losses self') = length (losses self) + steps) ∧
  (well_formed self → sig = Next).
Proof.
  intros Hc Hloop.
  assert (∃ obs0, tracks (best_loss l) obs0) as [obs0 Ht].
  { destruct (best_loss l) as [b|]; [exists [b]|by exists []].
    pose proof epsilon_pos. split; [left|].
    intros x ->%list_elem_of_singleton. lra. }
  destruct (sgd_loop_inv _ _ _ _ _ _ _ _ obs0 Hloop Hc Ht)
    as (Hc' & Hsig & _ & Hwf & obs & Hl & Hlen & _).
  split_and!; [done|done| |by intros [? _]%Hwf].
  intros E. rewrite Hl, length_app, Hlen; done.
Qed.

(** C5, amended. After the first-order loop, started with no best loss, has
    run, the best loss is one of the losses observed and lies above their
    minimum by at most [epsilon]. *)
Theorem C5_best_loss_within_epsilon_of_minimum (steps : nat)
    (self self' : BuildParamOptimizer) (o o' : Optimizer) (sch : Scheduler)
    (l' : locals) (sig : signal) :
  sgd_loop steps self o (Locals None PyNone 0 sch) = (self', o', l', sig) →
  ∃ obs, losses self' = losses self ++ obs ∧
    (sig = Next → length obs = steps) ∧
    ∀ m, minimum obs = Some m →
      ∃ b, best_loss l' = Some b ∧ b ∈ obs ∧ (m <= b)%Q ∧ (b <= m + epsilon)%Q.
Proof.
  intros Hloop.
  destruct (sgd_loop_inv _ _ _ _ _ _ _ _ [] Hloop)
    as (_ & _ & _ & _ & obs & Hl & Hlen & Ht); [simpl; lia|done|].
  exists obs. split_and!; [done|done|]. intros m Hm.
  by eapply tracks_minimum.
Qed.

(** *** The LBFGS loop *)

Lemma closure_well_formed self :
  well_formed self →
  ∃ self1 loss, closure self = Ok (self1, loss) ∧ well_formed self1 ∧
    build_params_history self1 = build_params_history self.
Proof.
  intros Hwf. destruct (well_formed_scatter self Hwf) as (bp & Hbp & Hroots).
  unfold closure. rewrite Hbp. cbn [mbind result_bind].
  eexists _, _. split_and!; [done| |done].
  destruct Hwf as [Hr Hl]. split; simpl; [|done].
  intros r k Hin. rewrite Hroots. by eapply Hr.
Qed.

Lemma lbfgs_step_well_formed fuel : ∀ self o,
  well_formed self →
  ∃ self' o', lbfgs_step fuel self o = (self', o', Next) ∧ well_formed self' ∧
    build_params_history self' = build_params_history self.
Proof.
  induction fuel as [|fuel IH]; intros self o Hwf;
    destruct (closure_well_formed self Hwf) as (self1 & loss & Hcl & Hwf1 & Hh);
    simpl; rewrite Hcl;
    destruct (lbfgs_next o loss _ _) as [o1 [|new again]]; eauto.
  - eexists _, _. split_and!; [done|by apply well_formed_in_place|done].
  - destruct again.
    + destruct (IH (in_place self1 new) o1) as (self' & o' & E & Hwf' & Hh');
        [by apply well_formed_in_place|].
      exists self', o'. split_and!; [done|done|]. by rewrite Hh'.
    + eexists _, _. split_and!; [done|by apply well_formed_in_place|done].
Qed.

Lemma lbfgs_loop_well_formed steps : ∀ self o,
  well_formed self →
  ∃ self' o', lbfgs_loop steps self o = (self', o', Next) ∧ well_formed self' ∧
    length (build_params_history self')
    = length (build_params_history self) + steps.
Proof.
  induction steps as [|steps IH]; intros self o Hwf; simpl.
  - exists self, o. split_and!; [done|done|lia].
  - destruct (lbfgs_step_well_formed max_eval (note self) o)
      as (self1 & o1 & E1 & Hwf1 & Hh1); [done|].
    rewrite E1. destruct (IH self1 o1 Hwf1) as (self' & o' & E & Hwf' & Hh').
    exists self', o'. split_and!; [done|done|].
    rewrite Hh', Hh1. simpl. rewrite length_app. simpl. lia.
Qed.

(** C10, amended. On an object as [__init__] leaves it
    ([well_formed_init]), [optimize] called with a strategy name other than
    'LBFGS', 'SGD' and 'adam' raises [UnboundLocalError]: the local
    [best_params_so_far] is read by the final scatter and only the
    first-order branch binds it. With 'LBFGS' the same happens after the
    loop has run all its steps when [torch.optim.LBFGS] accepts the
    registered tensors and the learning rate; when it refuses them, its
    exception leaves the call before the first step, and it refuses, with
    [ValueError], the empty list of an object built with no key selected. *)
Theorem C10_lbfgs_ends_in_unbound_local (self : BuildParamOptimizer)
    (opt_name : string) (lr : Q) (steps : nat) :
  well_formed self →
  opt_name ≠ "SGD" → opt_name ≠ "adam" →
  (opt_name ≠ "LBFGS" →
   (optimize self opt_name lr steps).2 = Raise UnboundLocalError) ∧
  (opt_name = "LBFGS" →
   match LBFGS (params self) lr with
   | Ok _ =>
       (optimize self opt_name lr steps).2 = Raise UnboundLocalError ∧
       length (build_params_history (optimize self opt_name lr steps).1)
       = S steps
   | Raise e =>
       (optimize self opt_name lr steps).2 = Raise e ∧
       length (build_params_history (optimize self opt_name lr steps).1) = 1
   end) ∧
  (opt_name = "LBFGS" → params self = [] →
   (optimize self opt_name lr steps).2 = Raise ValueError).
Proof.
  intros Hwf Hsgd%String.eqb_neq Hadam%String.eqb_neq.
  assert (opt_name = "LBFGS" →
          match LBFGS (params self) lr with
          | Ok _ =>
              (optimize self opt_name lr steps).2 = Raise UnboundLocalError ∧
              length (build_params_history
                        (optimize self opt_name lr steps).1) = S steps
          | Raise e =>
              (optimize self opt_name lr steps).2 = Raise e ∧
              length (build_params_history
                        (optimize self opt_name lr steps).1) = 1
          end) as Hlbfgs.
  { intros ->. unfold optimize. cbn [String.eqb Ascii.eqb Bool.eqb].
    destruct (LBFGS (params self) lr) as [o|e]; [|done].
    destruct (lbfgs_loop_well_formed steps
                (with_history self [map deepcopy (params self)]) o)
      as (self' & o' & Hloop & _ & Hh); [done|].
    rewrite Hloop. simpl. split; [done|]. by rewrite Hh. }
  split_and!; [|done|].
  - intros Hne%String.eqb_neq. unfold optimize. by rewrite Hne, Hsgd, Hadam.
  - intros Hl Hps. specialize (Hlbfgs Hl). rewrite Hps, LBFGS_empty in Hlbfgs.
    by destruct Hlbfgs.
Qed.

(** *** The constructor *)

Lemma NoDup_root_atoms : NoDup root_atoms.
Proof. apply (bool_decide_unpack _). by vm_compute. Qed.

Lemma create_body_frame r0 k0 bp ps bp1 ps1 r k :
  create_body r0 k0 (bp, ps) = Ok (bp1, ps1) → (r, k) ≠ (r0, k0) →
  entry bp1 r k = entry bp r k.
Proof.
  unfold create_body. intros Hc Hne.
  destruct (getitem2 bp r0 k0) as [t|]; [|done]. cbn [mbind result_bind] in Hc.
  destruct (setitem2 bp r0 k0 (requires_grad_ t)) as [bp'|] eqn:Hs; [|done].
  cbn [mbind result_bind] in Hc. simplify_eq.
  eapply entry_setitem2_ne; [done|].
  destruct (decide (r0 = r)) as [->|]; [right|by left]. congruence.
Qed.

Lemma create_slots_frame sl : ∀ bp ps bp' ps' r k,
  for_each sl (λ p, create_body p.1 p.2) (bp, ps) = Ok (bp', ps') →
  (r, k) ∉ sl → entry bp' r k = entry bp r k.
Proof.
  induction sl as [|[r0 k0] sl IH]; intros bp ps bp' ps' r k Hloop Hnin.
  - simpl in Hloop. by simplify_eq.
  - rewrite for_each_cons in Hloop. cbn [fst snd] in Hloop.
    destruct (create_body r0 k0 (bp, ps)) as [[bp1 ps1]|] eqn:Hstep; [|done].
    cbn [mbind result_bind] in Hloop. apply not_elem_of_cons in Hnin as [? ?].
    rewrite (IH _ _ _ _ _ _ Hloop) by done. by eapply create_body_frame.
Qed.

(** One angle of one anchor atom, as lines 46-49 and 50-53 create it. *)
Lemma init_angle_Ok r key bp bp1 :
  (sn ← getitem2 bp r ("s" +:+ key); cs ← getitem2 bp r ("c" +:+ key);
   setitem2 bp r key (atan2_ sn cs)) = Ok bp1 →
  (∀ r' k, r' ≠ r ∨ k ≠ key → entry bp1 r' k = entry bp r' k) ∧
  ∃ sn cs, entry bp r ("s" +:+ key) = Some sn ∧
           entry bp r ("c" +:+ key) = Some cs ∧
           entry bp1 r key = Some (atan2_ sn cs).
Proof.
  intros Hi. destruct (getitem2 bp r ("s" +:+ key)) as [sn|] eqn:Hs; [|done].
  cbn [mbind result_bind] in Hi.
  destruct (getitem2 bp r ("c" +:+ key)) as [cs|] eqn:Hc; [|done].
  cbn [mbind result_bind] in Hi. apply getitem2_Ok in Hs, Hc. split.
  - intros r' k Hne. eapply entry_setitem2_ne; [done|].
    destruct Hne; [left|right]; congruence.
  - exists sn, cs. split_and!; [done|done|]. by eapply entry_setitem2_eq.
Qed.

Lemma init_angles_body_Ok keys r bp bp1 :
  init_angles_body keys r bp = Ok bp1 →
  (∀ r' k, r' ≠ r ∨ (k ≠ "thetas" ∧ k ≠ "chis") →
           entry bp1 r' k = entry bp r' k) ∧
  (∀ key, key = "thetas" ∨ key = "chis" → contains keys key = true →
     ∃ sn cs, entry bp r ("s" +:+ key) = Some sn ∧
              entry bp r ("c" +:+ key) = Some cs ∧
              entry bp1 r key = Some (atan2_ sn cs)).
Proof.
  unfold init_angles_body. intros Hi.
  destruct (if contains keys "thetas" then _ else _) as [bpA|] eqn:HA; [|done].
  cbn [mbind result_bind] in Hi.
  assert ((∀ r' k, r' ≠ r ∨ k ≠ "thetas" → entry bpA r' k = entry bp r' k) ∧
          (contains keys "thetas" = true →
           ∃ sn cs, entry bp r "sthetas" = Some sn ∧
                    entry bp r "cthetas" = Some cs ∧
                    entry bpA r "thetas" = Some (atan2_ sn cs))) as [HfA HtA].
  { destruct (contains keys "thetas").
    - apply (init_angle_Ok r "thetas") in HA as [? ?]. by split.
    - simplify_eq. by split. }
  assert ((∀ r' k, r' ≠ r ∨ k ≠ "chis" → entry bp1 r' k = entry bpA r' k) ∧
          (contains keys "chis" = true →
           ∃ sn cs, entry bpA r "schis" = Some sn ∧
                    entry bpA r "cchis" = Some cs ∧
                    entry bp1 r "chis" = Some (atan2_ sn cs))) as [HfB HtB].
  { destruct (contains keys "chis").
    - apply (init_angle_Ok r "chis") in Hi as [? ?]. by split.
    - simplify_eq. by split. }
  split.
  - intros r' k Hne.
    rewrite HfB, HfA; [done|..]; (destruct Hne as [?|[? ?]]; [by left|by right]).
  - intros key [-> | ->] Hk.
    + destruct (HtA Hk) as (sn & cs & ? & ? & ?). exists sn, cs.
      split_and!; [done|done|]. rewrite HfB; [done|by right].
    + destruct (HtB Hk) as (sn & cs & Hs & Hc & ?). exists sn, cs.
      rewrite HfA in Hs, Hc by (by right). done.
Qed.

Lemma init_angles_loop keys rs : NoDup rs → ∀ bp bp',
  for_each rs (init_angles_body keys) bp = Ok bp' →
  (∀ r k, r ∉ rs ∨ (k ≠ "thetas" ∧ k ≠ "chis") →
          entry bp' r k = entry bp r k) ∧
  (∀ r key, r ∈ rs → key = "thetas" ∨ key = "chis" →
     contains keys key = true →
     ∃ sn cs, entry bp r ("s" +:+ key) = Some sn ∧
              entry bp r ("c" +:+ key) = Some cs ∧
              entry bp' r key = Some (atan2_ sn cs)).
Proof.
  induction 1 as [|r0 rs Hnin Hnd IH]; intros bp bp' Hloop.
  - simpl in Hloop. simplify_eq. split; [done|]. by intros r key ?%elem_of_nil.
  - rewrite for_each_cons in Hloop.
    destruct (init_angles_body keys r0 bp) as [bp1|] eqn:Hstep; [|done].
    cbn [mbind result_bind] in Hloop.
    apply init_angles_body_Ok in Hstep as [Hf1 Ht1].
    destruct (IH _ _ Hloop) as [Hf Ht]. split.
    + intros r k Hne. rewrite Hf, Hf1; [done|..].
      * destruct Hne as [[? ?]%not_elem_of_cons|?]; [by left|by right].
      * destruct Hne as [[? ?]%not_elem_of_cons|?]; [by left|by right].
    + intros r key [->|Hin]%elem_of_cons Hkey Hk.
      * destruct (Ht1 key Hkey Hk) as (sn & cs & ? & ? & ?). exists sn, cs.
        split_and!; [done|done|]. rewrite Hf; [done|by left].
      * destruct (Ht r key Hin Hkey Hk) as (sn & cs & Hs & Hc & ?).
        exists sn, cs. rewrite Hf1 in Hs, Hc; [done|..];
          right; by destruct Hkey as [-> | ->].
Qed.

(** C2, amended. For an angle selected for optimization, the constructor
    computes the raw angle tensor once as [atan2] of the table's sine/cosine
    pair, marks that raw tensor as requiring gradient and registers it in
    [params]; the stored sine/cosine pair stays the table's, unmarked. *)
Theorem C2_raw_angle_is_the_tracked_tensor (p : protein_t) (b1 b2 b3 : bool)
    (self : BuildParamOptimizer) (i : nat) (root key : string) :
  __init__ p b1 b2 b3 = Ok self →
  slots (selected_keys b1 b2 b3) !! i = Some (root, key) →
  key = "thetas" ∨ key = "chis" →
  ∃ sn cs,
    entry get_all_atom_build_params root ("s" +:+ key) = Some sn ∧
    entry get_all_atom_build_params root ("c" +:+ key) = Some cs ∧
    entry (build_params self) root key = Some (requires_grad_ (atan2_ sn cs)) ∧
    params self !! i = Some (requires_grad_ (atan2_ sn cs)) ∧
    entry (build_params self) root ("s" +:+ key) = Some sn ∧
    entry (build_params self) root ("c" +:+ key) = Some cs.
Proof.
  unfold __init__. intros Hinit Hi Hkey.
  destruct (for_each root_atoms _ _) as [bp0|] eqn:Hloop; [|done].
  cbn [mbind result_bind] in Hinit.
  destruct (create_param_list_from_build_params _ bp0) as [[bp1 ps]|] eqn:E;
    [|done].
  cbn [mbind result_bind] in Hinit. simplify_eq. simpl.
  destruct (slots_lookup_elem _ _ _ _ Hi) as [Hroot Hk].
  apply init_angles_loop in Hloop as [Hf0 Ht0]; [|apply NoDup_root_atoms].
  destruct (Ht0 root key Hroot Hkey) as (sn & cs & Hs & Hc & Ht);
    [by apply contains_elem|].
  pose proof E as (_ & _ & Hps)%create_param_list_spec.
  destruct (Hps i root key Hi) as (t & Ht' & Hpi & Ht1).
  rewrite Ht in Ht'. simplify_eq. exists sn, cs.
  assert (∀ k, k = "s" +:+ key ∨ k = "c" +:+ key →
            entry bp1 root k = entry get_all_atom_build_params root k) as Hsc.
  { intros k Hk'. unfold create_param_list_from_build_params in E.
    rewrite for_each_slots in E.
    rewrite (create_slots_frame _ _ _ _ _ root k E).
    - apply Hf0. right. destruct Hkey as [-> | ->], Hk' as [-> | ->]; done.
    - intros (j & Hj)%list_elem_of_lookup_1.
      apply slots_lookup_elem in Hj as [_ Hin%selected_keys_elem].
      destruct Hkey as [-> | ->], Hk' as [-> | ->], Hin as [?|[?|?]]; done. }
  split_and!; try done; rewrite Hsc; auto.
Qed.

End Optimizer.

Lemma mock_bpo_Ok script : mock_bpo script = Ok (mock_self script).
Proof. by vm_compute. Qed.

(** *** The properties on the mocks *)

Lemma C8_extract_scatter_positional_witness :
  ∃ bp1 ps bp2,
    create_param_list_from_build_params (selected_keys true true true) mock_store
      = Ok (bp1, ps) ∧
    update_complete_build_params_with_optimized_params
      (selected_keys true true true) mock_table (PyList ps) = Ok bp2 ∧
    (selected_keys true true true `sublist_of` ["bond_lengths"; "thetas"; "chis"] ∧
     slots (selected_keys true true true)
       = list_prod ["N"; "CA"; "C"] (selected_keys true true true) ∧
     length ps = length (slots (selected_keys true true true)) ∧
     ∀ i root key,
       slots (selected_keys true true true) !! i = Some (root, key) →
       (∃ t, entry mock_store root key = Some t ∧
             ps !! i = Some (requires_grad_ t) ∧
             entry bp1 root key = Some (requires_grad_ t)) ∧
       (∃ x, ps !! i = Some x ∧ written bp2 root key x)).
Proof.
  eexists _, _, _. split; [reflexivity|]. split; [reflexivity|].
  apply (C8_extract_scatter_positional true true true mock_store _ mock_table);
    reflexivity.
Defined.

Lemma C4_scatter_extract_round_trip_witness :
  ∃ bp1 ps,
    create_param_list_from_build_params (selected_keys true true true) mock_store
      = Ok (bp1, ps) ∧
    ∃ bp2,
      update_complete_build_params_with_optimized_params
        (selected_keys true true true) bp1 (PyList ps) = Ok bp2 ∧
      ∀ root key, root ∈ root_atoms → key ∈ selected_keys true true true →
        ∃ t, entry mock_store root key = Some t ∧
          if (key =? "bond_lengths")%string then
            ∃ t2, entry bp2 root key = Some t2 ∧ data t2 = data t
          else
            ∃ sn cs, entry bp2 root ("s" +:+ key) = Some sn ∧
                     entry bp2 root ("c" +:+ key) = Some cs ∧
                     same_angles (atan2_ sn cs) t.
Proof.
  eexists _, _. split; [reflexivity|].
  apply (C4_scatter_extract_round_trip true true true mock_store). reflexivity.
Defined.

Lemma C2_raw_angle_is_the_tracked_tensor_witness :
  ∃ self,
    @__init__ (mock plateau) (@Protein (mock plateau) 0%nat None) true true true
      = Ok self ∧
    slots (selected_keys true true true) !! 1%nat = Some ("N", "thetas") ∧
    ("thetas" = "thetas" ∨ "thetas" = "chis") ∧
    ∃ sn cs,
      entry mock_table "N" "sthetas" = Some sn ∧
      entry mock_table "N" "cthetas" = Some cs ∧
      entry (build_params self) "N" "thetas"
        = Some (requires_grad_ (atan2_ sn cs)) ∧
      params self !! 1%nat = Some (requires_grad_ (atan2_ sn cs)) ∧
      entry (build_params self) "N" "sthetas" = Some sn ∧
      entry (build_params self) "N" "cthetas" = Some cs.
Proof.
  eexists. split; [reflexivity|]. split; [reflexivity|]. split; [by left|].
  apply (@C2_raw_angle_is_the_tracked_tensor (mock plateau)
           (@Protein (mock plateau) 0%nat None) true true true _ 1%nat
           "N" "thetas"); [reflexivity|reflexivity|by left].
Defined.

(** C2 as stated fails on the mocks: after construction the raw angle tensor
    of anchor N requires gradient and is the tensor registered at position 1
    of [params], while the stored sine/cosine pair does not require
    gradient. *)
Lemma C2_counterexample :
  requires_grad <$> entry (build_params (mock_self plateau)) "N" "thetas"
    = Some true ∧
  params (mock_self plateau) !! 1%nat
    = entry (build_params (mock_self plateau)) "N" "thetas" ∧
  requires_grad <$> entry (build_params (mock_self plateau)) "N" "sthetas"
    = Some false ∧
  requires_grad <$> entry (build_params (mock_self plateau)) "N" "cthetas"
    = Some false.
Proof. split_and!; by vm_compute. Qed.

Lemma C9_counter_never_exceeds_patience_witness :
  ∃ (self' : @BuildParamOptimizer (mock plateau)) (o' : ())
    (l' : @locals (mock plateau)) (sig : signal),
    counter (mock_locals plateau) ≤ patience ∧
    sgd_loop 30 (mock_self plateau) () (mock_locals plateau)
      = (self', o', l', sig) ∧
    (counter l' ≤ patience ∧ sig ≠ Broke ∧
     (sig = Next →
      length (losses self') = length (losses (mock_self plateau)) + 30) ∧
     (well_formed (mock_self plateau) → sig = Next)).
Proof.
  assert (counter (mock_locals plateau) ≤ patience) as Hc
    by (simpl; unfold patience; lia).
  destruct (sgd_loop 30 (mock_self plateau) () (mock_locals plateau))
    as [[[self' o'] l'] sig] eqn:E.
  exists self', o', l', sig. split; [exact Hc|]. split; [reflexivity|].
  exact (@C9_counter_never_exceeds_patience (mock plateau) 30
           (mock_self plateau) self' () o' (mock_locals plateau) l' sig Hc E).
Defined.

Lemma C5_best_loss_within_epsilon_of_minimum_witness :
  ∃ (self' : @BuildParamOptimizer (mock small_drop)) (o' : ())
    (l' : @locals (mock small_drop)) (sig : signal),
    sgd_loop 2 (mock_self small_drop) () (mock_locals small_drop)
      = (self', o', l', sig) ∧
    ∃ obs, losses self' = losses (mock_self small_drop) ++ obs ∧
      (sig = Next → length obs = 2%nat) ∧
      ∀ m, minimum obs = Some m →
        ∃ b, best_loss l' = Some b ∧ b ∈ obs ∧
             (m <= b)%Q ∧ (b <= m + epsilon)%Q.
Proof.
  destruct (sgd_loop 2 (mock_self small_drop) () (mock_locals small_drop))
    as [[[self' o'] l'] sig] eqn:E.
  exists self', o', l', sig. split; [reflexivity|].
  exact (@C5_best_loss_within_epsilon_of_minimum (mock small_drop) 2
           (mock_self small_drop) self' () o' () l' sig E).
Defined.

(** C5 as stated fails on the mocks: the second observed loss is below the
    first by half of [epsilon], so after two iterations the best loss is
    still the first loss, 1, while the minimum of the two observed losses is
    19999/20000. *)
Lemma C5_counterexample :
  (sgd_loop 2 (mock_self small_drop) () (mock_locals small_drop)).2 = Next ∧
  losses (sgd_loop 2 (mock_self small_drop) () (mock_locals small_drop)).1.1.1
    = [1%Q; 19999 # 20000] ∧
  best_loss (sgd_loop 2 (mock_self small_drop) () (mock_locals small_drop)).1.2
    = Some 1%Q ∧
  minimum
    (losses (sgd_loop 2 (mock_self small_drop) () (mock_locals small_drop)).1.1.1)
    = Some (19999 # 20000) ∧
  ¬ (1 == 19999 # 20000)%Q.
Proof.
  split_and!; [vm_compute; reflexivity..|]. by intros ?.
Qed.

Lemma C10_lbfgs_ends_in_unbound_local_witness :
  well_formed (mock_self plateau) ∧ "LBFGS" ≠ "SGD" ∧ "LBFGS" ≠ "adam" ∧
  @LBFGS (mock plateau) (params (mock_self plateau)) mock_lr = Ok () ∧
  (optimize (mock_self plateau) "LBFGS" mock_lr 100).2 = Raise UnboundLocalError ∧
  length (build_params_history
            (optimize (mock_self plateau) "LBFGS" mock_lr 100).1) = 101%nat.
Proof.
  assert (well_formed (mock_self plateau)) as Hwf.
  { apply (@well_formed_init (mock plateau)
             (@Protein (mock plateau) 0%nat None) true true true).
    apply mock_bpo_Ok. }
  assert ("LBFGS" ≠ "SGD") as H1 by done.
  assert ("LBFGS" ≠ "adam") as H2 by done.
  split; [exact Hwf|]. split; [exact H1|]. split; [exact H2|].
  split; [reflexivity|].
  exact (proj1 (proj2 (@C10_lbfgs_ends_in_unbound_local (mock plateau)
                         (mock_self plateau) "LBFGS" mock_lr 100 Hwf H1 H2))
           eq_refl).
Defined.

(** C10 as stated fails on the mocks: on the object built with no key
    selected no tensor is registered, [torch.optim.LBFGS] refuses the empty
    list, and the call with 'LBFGS' raises [ValueError] before the first
    step instead of [UnboundLocalError] after the last: the history holds
    its initial entry only. *)
Lemma C10_counterexample :
  @__init__ (mock plateau) (@Protein (mock plateau) 0%nat None)
    false false false = Ok (mock_self_no_key plateau) ∧
  params (mock_self_no_key plateau) = [] ∧
  (optimize (mock_self_no_key plateau) "LBFGS" mock_lr 100).2
  = Raise ValueError ∧
  (optimize (mock_self_no_key plateau) "LBFGS" mock_lr 100).2
  ≠ Raise UnboundLocalError ∧
  length (build_params_history
            (optimize (mock_self_no_key plateau) "LBFGS" mock_lr 100).1)
  = 1%nat.
Proof. split_and!; [by vm_compute..| |by vm_compute]. by vm_compute. Qed.

(** C1 fails on the code. With the loss held constant, the first-order loop
    does not stop after [patience] iterations without improvement: called
    with 100 steps it runs them all, records the hundred equal losses and
    returns normally. *)
Theorem C1_plateau_runs_the_whole_budget :
  losses (optimize (mock_self plateau) "SGD" mock_lr 100).1
    = replicate 100 1%Q ∧
  length (build_params_history (optimize (mock_self plateau) "SGD" mock_lr 100).1)
    = 101%nat ∧
  (optimize (mock_self plateau) "SGD" mock_lr 100).2
    = Ok (build_params (optimize (mock_self plateau) "SGD" mock_lr 100).1).
Proof. split_and!; vm_compute; reflexivity. Qed.

(** C3 fails on the code. Called with its default strategy 'LBFGS' and its
    default 100 steps, [optimize] returns no store: it raises
    [UnboundLocalError] at the final scatter. *)
Theorem C3_default_call_raises :
  (optimize (mock_self plateau) "LBFGS" mock_lr 100).2 = Raise UnboundLocalError.
Proof. by vm_compute. Qed.

(** *** More on the store: scatter and extraction as a whole *)

Lemma store_ext (a b : build_params_t) :
  (∀ r, is_Some (a !! r) ↔ is_Some (b !! r)) →
  (∀ r k, entry a r k = entry b r k) → a = b.
Proof.
  intros Hr He. apply map_eq. intros r. specialize (Hr r).
  pose proof (He r) as Her. unfold entry in Her.
  destruct (a !! r) as [ga|], (b !! r) as [gb|]; simpl in Her.
  - f_equal. by apply map_eq.
  - destruct Hr as [Hr _]. by destruct Hr.
  - destruct Hr as [_ Hr]. by destruct Hr.
  - done.
Qed.

Lemma update_slots_Ok_inv vs sl : ∀ bp i bp' i',
  for_each sl (λ q, update_body (PyList vs) q.1 q.2) (bp, i) = Ok (bp', i') →
  (i ≤ length vs → i + length sl ≤ length vs) ∧
  (∀ r k, (r, k) ∈ sl → is_Some (bp !! r)) ∧
  (∀ r, is_Some (bp' !! r) ↔ is_Some (bp !! r)) ∧
  (∀ r k', (∀ k, (r, k) ∈ sl → k' ∉ target_keys k) →
           entry bp' r k' = entry bp r k').
Proof.
  induction sl as [|[r0 k0] sl IH]; intros bp i bp' i' Hloop.
  - simpl in Hloop. simplify_eq. split_and!; [simpl; lia| |done|done].
    by intros r k ?%elem_of_nil.
  - rewrite for_each_cons in Hloop. cbn [fst snd] in Hloop.
    destruct (update_body (PyList vs) r0 k0 (bp, i)) as [[bp1 i1]|] eqn:Hstep;
      [|done].
    cbn [mbind result_bind] in Hloop.
    pose proof Hstep as (-> & Hroot1 & Hframe1 & x & Hx & Hw)%update_body_Ok.
    destruct (IH _ _ _ _ Hloop) as (Hlen & Hroots & Hroot & Hframe).
    assert (i < length vs) as Hi.
    { simpl in Hx. unfold index in Hx.
      destruct (vs !! i) eqn:E; [|done]. by eapply lookup_lt_Some. }
    assert (is_Some (bp !! r0)) as Hr0.
    { apply Hroot1. unfold written in Hw.
      destruct (k0 =? "thetas")%string; [|destruct (k0 =? "chis")%string];
        [destruct Hw as [Hw _]|destruct Hw as [Hw _]|]; by eapply entry_root. }
    split_and!.
    + intros _. simpl. specialize (Hlen ltac:(lia)). lia.
    + intros r k [[= -> ->]|Hin]%elem_of_cons; [done|].
      apply Hroot1. by eapply Hroots.
    + intros r. by rewrite Hroot, Hroot1.
    + intros r k' Hk'. rewrite Hframe, Hframe1; [done|..].
      * destruct (decide (r = r0)) as [->|]; [right|by left].
        apply (Hk' k0). by left.
      * intros k Hin. apply Hk'. by right.
Qed.

Lemma update_complete_Ok_inv keys bp vs bp' :
  update_complete_build_params_with_optimized_params keys bp (PyList vs)
    = Ok bp' →
  length (slots keys) ≤ length vs ∧
  (∀ r k, (r, k) ∈ slots keys → is_Some (bp !! r)) ∧
  (∀ r, is_Some (bp' !! r) ↔ is_Some (bp !! r)) ∧
  (∀ r k', (∀ k, (r, k) ∈ slots keys → k' ∉ target_keys k) →
           entry bp' r k' = entry bp r k').
Proof.
  unfold update_complete_build_params_with_optimized_params.
  rewrite for_each_slots. intros H.
  destruct (for_each (slots keys) _ (bp, 0)) as [[bp1 i1]|] eqn:E; [|done].
  cbn in H. simplify_eq.
  apply update_slots_Ok_inv in E as (Hlen & Hroots & Hroot & Hframe).
  split_and!; [apply Hlen; lia|done|done|done].
Qed.

(** Whether scattering the slots [sl] assigns the store key [k'] of anchor
    [r]. *)
Lemma targeted_dec (sl : list (string * string)) (r k' : string) :
  (∃ j k, sl !! j = Some (r, k) ∧ k' ∈ target_keys k) ∨
  (∀ k, (r, k) ∈ sl → k' ∉ target_keys k).
Proof.
  induction sl as [|[r0 k0] sl [(j & k & Hj & Hk)|IH]].
  - right. by intros k ?%elem_of_nil.
  - left. by exists (S j), k.
  - destruct (decide (r = r0 ∧ k' ∈ target_keys k0)) as [[-> Hk]|Hn].
    + left. by exists 0, k0.
    + right. intros k [[= -> ->]|Hin]%elem_of_cons; [|by apply IH].
      intros Hk. by apply Hn.
Qed.

Lemma written_target bp r k x k' :
  written bp r k x → k' ∈ target_keys k →
  ∃ f, (k', f) ∈ targets k ∧ entry bp r k' = Some (f x).
Proof.
  rewrite written_targets, target_keys_targets.
  intros Hw ([k'' f] & -> & Hin)%list_elem_of_fmap. exists f. split; [done|].
  by apply Hw.
Qed.

Lemma targets_functional k k' f g :
  (k', f) ∈ targets k → (k', g) ∈ targets k → f = g.
Proof.
  unfold targets.
  destruct (k =? "thetas")%string; [|destruct (k =? "chis")%string];
    intros Hf%list_elem_of_In Hg%list_elem_of_In; simpl in *;
    intuition congruence.
Qed.

(** X1. A scatter overrides the one before it: scattering [vs2] into a store
    into which [vs1] was scattered gives the store that scattering [vs2]
    alone gives. In particular scattering the same list a second time
    changes nothing, which is what the LBFGS closure does on every
    re-evaluation. *)
Theorem X1_scatter_overrides_scatter (b1 b2 b3 : bool)
    (bp bp1 bp2 : build_params_t) (vs1 vs2 : list tensor) :
  update_complete_build_params_with_optimized_params
    (selected_keys b1 b2 b3) bp (PyList vs1) = Ok bp1 →
  update_complete_build_params_with_optimized_params
    (selected_keys b1 b2 b3) bp (PyList vs2) = Ok bp2 →
  update_complete_build_params_with_optimized_params
    (selected_keys b1 b2 b3) bp1 (PyList vs2) = Ok bp2.
Proof.
  intros H1 H2. pose proof (no_clash_selected_keys b1 b2 b3) as Hnc.
  pose proof H1 as (_ & _ & Hroot1 & Hframe1)%update_complete_Ok_inv.
  pose proof H2 as (Hlen2 & Hroots2 & Hroot2 & Hframe2)%update_complete_Ok_inv.
  destruct (update_complete_total (selected_keys b1 b2 b3) bp1 vs2)
    as (bp3 & H3 & Hroot3); [|done|].
  { intros r k Hin. apply Hroot1. by eapply Hroots2. }
  rewrite H3. f_equal.
  pose proof H3 as (_ & _ & _ & Hframe3)%update_complete_Ok_inv.
  apply store_ext.
  - intros r. by rewrite Hroot3, Hroot1, Hroot2.
  - intros r k'.
    destruct (targeted_dec (slots (selected_keys b1 b2 b3)) r k')
      as [(j & k & Hj & Hk)|Hno].
    + destruct (update_complete_spec _ _ _ _ Hnc H2 j r k Hj) as (x & Hx & Hw).
      destruct (update_complete_spec _ _ _ _ Hnc H3 j r k Hj) as (x' & Hx' & Hw').
      rewrite Hx in Hx'. simplify_eq.
      destruct (written_target _ _ _ _ _ Hw Hk) as (f & Hf & ->).
      destruct (written_target _ _ _ _ _ Hw' Hk) as (g & Hg & ->).
      by rewrite (targets_functional _ _ _ _ Hf Hg).
    + by rewrite Hframe3, Hframe1, Hframe2.
Qed.

Lemma update_body_index_error vs r k bp i :
  vs !! i = None → update_body (PyList vs) r k (bp, i) = Raise IndexError.
Proof.
  intros Hi. unfold update_body, subscript, index. rewrite Hi.
  by destruct (k =? "thetas")%string, (k =? "chis")%string.
Qed.

Lemma update_body_key_error vs r k bp i x :
  vs !! i = Some x → bp !! r = None →
  update_body (PyList vs) r k (bp, i) = Raise KeyError.
Proof.
  intros Hi Hr. unfold update_body, subscript, index, setitem2, getitem.
  rewrite Hi, Hr.
  by destruct (k =? "thetas")%string, (k =? "chis")%string.
Qed.

Lemma update_slots_short vs sl : ∀ bp i,
  (∀ r k, (r, k) ∈ sl → is_Some (bp !! r)) →
  i ≤ length vs → length vs < i + length sl →
  for_each sl (λ q, update_body (PyList vs) q.1 q.2) (bp, i) = Raise IndexError.
Proof.
  induction sl as [|[r0 k0] sl IH]; intros bp i Hroots Hi0 Hlen;
    [simpl in Hlen; lia|].
  rewrite for_each_cons. cbn [fst snd].
  destruct (vs !! i) as [x|] eqn:Hi.
  - destruct (update_body_total (PyList vs) r0 k0 bp i x) as (bp1 & E1 & Hr1).
    { apply (Hroots r0 k0). by left. }
    { simpl. unfold index. by rewrite Hi. }
    rewrite E1. cbn [mbind result_bind]. apply IH.
    + intros r k Hin. rewrite Hr1. apply (Hroots r k). by right.
    + apply lookup_lt_Some in Hi. lia.
    + simpl in Hlen. lia.
  - by rewrite update_body_index_error.
Qed.

Lemma update_slots_missing_anchor vs sl : ∀ bp i,
  i + length sl ≤ length vs →
  (∃ r k, (r, k) ∈ sl ∧ bp !! r = None) →
  for_each sl (λ q, update_body (PyList vs) q.1 q.2) (bp, i) = Raise KeyError.
Proof.
  induction sl as [|[r0 k0] sl IH]; intros bp i Hlen (r & k & Hin & Hr).
  { by apply elem_of_nil in Hin. }
  rewrite for_each_cons. cbn [fst snd]. simpl in Hlen.
  destruct (lookup_lt_is_Some_2 vs i) as [x Hx]; [lia|].
  destruct (bp !! r0) as [g|] eqn:Hr0.
  - destruct (update_body_total (PyList vs) r0 k0 bp i x) as (bp1 & E1 & Hr1);
      [by rewrite Hr0|by simpl; unfold index; rewrite Hx|].
    rewrite E1. cbn [mbind result_bind]. apply IH; [lia|].
    apply elem_of_cons in Hin as [[= -> ->]|Hin]; [congruence|].
    exists r, k. split; [done|]. apply eq_None_not_Some. rewrite Hr1.
    by apply eq_None_not_Some.
  - by rewrite (update_body_key_error vs r0 k0 bp i x).
Qed.

Lemma update_slots_prefix vs vs' sl : ∀ bp i,
  (∀ j, j < length sl → vs !! (i + j) = vs' !! (i + j)) →
  for_each sl (λ q, update_body (PyList vs) q.1 q.2) (bp, i)
  = for_each sl (λ q, update_body (PyList vs') q.1 q.2) (bp, i).
Proof.
  induction sl as [|[r0 k0] sl IH]; intros bp i Hpre; [done|].
  rewrite !for_each_cons. cbn [fst snd].
  assert (update_body (PyList vs) r0 k0 (bp, i)
          = update_body (PyList vs') r0 k0 (bp, i)) as ->.
  { unfold update_body, subscript, index.
    specialize (Hpre 0). rewrite Nat.add_0_r in Hpre.
    rewrite Hpre; [done|simpl; lia]. }
  destruct (update_body (PyList vs') r0 k0 (bp, i)) as [[bp1 i1]|] eqn:E; [|done].
  apply update_body_Ok in E as (-> & _). cbn [mbind result_bind].
  apply IH. intros j Hj. replace (S i + j) with (i + S j) by lia.
  apply Hpre. simpl. lia.
Qed.

(** X2. What a scatter of a list does, by the length of the list and the
    anchor atoms of the store: with the three anchor atoms present it
    succeeds when the list has an entry for each of the [3 * k] slots and
    raises [IndexError] when it is shorter; with an anchor atom missing and a
    key selected it raises [KeyError], the list being long enough. Entries
    past the last slot are not looked at. *)
Theorem X2_scatter_by_length_and_anchors (keys : list string)
    (bp : build_params_t) (vs : list tensor) :
  ((∀ r, r ∈ root_atoms → is_Some (bp !! r)) → 3 * length keys ≤ length vs →
   ∃ bp', update_complete_build_params_with_optimized_params keys bp (PyList vs)
          = Ok bp' ∧
          update_complete_build_params_with_optimized_params keys bp
            (PyList (take (3 * length keys) vs)) = Ok bp') ∧
  ((∀ r, r ∈ root_atoms → is_Some (bp !! r)) → length vs < 3 * length keys →
   update_complete_build_params_with_optimized_params keys bp (PyList vs)
   = Raise IndexError) ∧
  ((∃ r, r ∈ root_atoms ∧ bp !! r = None) → keys ≠ [] →
   3 * length keys ≤ length vs →
   update_complete_build_params_with_optimized_params keys bp (PyList vs)
   = Raise KeyError).
Proof.
  unfold update_complete_build_params_with_optimized_params.
  rewrite !for_each_slots. rewrite <- length_slots.
  assert (∀ r k, (∀ r, r ∈ root_atoms → is_Some (bp !! r)) →
                 (r, k) ∈ slots keys → is_Some (bp !! r)) as Hslots.
  { intros r k Hall (j & Hj)%list_elem_of_lookup_1.
    apply slots_lookup_elem in Hj as [Hr _]. by apply Hall. }
  split_and!.
  - intros Hall Hlen.
    destruct (update_slots_total vs (slots keys) bp 0) as (bp' & E & _);
      [by eauto|simpl; lia|].
    exists bp'.
    rewrite (update_slots_prefix (take (length (slots keys)) vs) vs), E; [done|].
    intros j Hj. simpl. by rewrite lookup_take_lt.
  - intros Hall Hlen. rewrite update_slots_short; eauto. lia.
  - intros (r & Hr & Hnone) Hkeys Hlen.
    rewrite update_slots_missing_anchor; [done|simpl; lia|].
    destruct keys as [|k keys]; [done|]. exists r, k. split; [|done].
    destruct (slots_elem_lookup (k :: keys) r k Hr) as [j Hj]; [by left|].
    by eapply list_elem_of_lookup_2.
Qed.

Lemma update_complete_None keys bp :
  keys ≠ [] →
  update_complete_build_params_with_optimized_params keys bp PyNone
  = Raise TypeError.
Proof.
  destruct keys as [|k keys]; [done|]. intros _.
  unfold update_complete_build_params_with_optimized_params. simpl.
  unfold update_body at 1. simpl.
  by destruct (k =? "thetas")%string, (k =? "chis")%string.
Qed.

Lemma update_complete_no_keys bp v :
  update_complete_build_params_with_optimized_params [] bp v = Ok bp.
Proof. done. Qed.

(** *** Extraction *)

Lemma marked_is_Some bp bp' r k :
  marked bp bp' → is_Some (entry bp r k) → is_Some (entry bp' r k).
Proof.
  intros [_ He] [t Ht]. destruct (He r k) as [->| ->]; rewrite Ht; eauto.
Qed.

Lemma marked_data bp bp' r k :
  marked bp bp' → data <$> entry bp' r k = data <$> entry bp r k.
Proof.
  intros [_ He]. destruct (He r k) as [->| ->]; [done|].
  by destruct (entry bp r k).
Qed.

Lemma create_body_total r k bp ps t :
  entry bp r k = Some t →
  ∃ bp1, create_body r k (bp, ps) = Ok (bp1, ps ++ [requires_grad_ t]).
Proof.
  intros Ht. unfold create_body.
  rewrite (proj2 (getitem2_Ok bp r k t) Ht). cbn [mbind result_bind].
  destruct (setitem2_total bp r k (requires_grad_ t)) as [bp1 E];
    [by eapply entry_root|].
  rewrite E. by exists bp1.
Qed.

Lemma create_body_only_KeyError r k s e :
  create_body r k s = Raise e → e = KeyError.
Proof.
  destruct s as [bp ps]. unfold create_body, getitem2, setitem2, getitem.
  destruct (bp !! r) as [g|]; simpl; [|congruence].
  destruct (g !! k); simpl; congruence.
Qed.

Lemma create_slots_total sl : ∀ bp ps,
  (∀ r k, (r, k) ∈ sl → is_Some (entry bp r k)) →
  ∃ bp' ps', for_each sl (λ p, create_body p.1 p.2) (bp, ps) = Ok (bp', ps').
Proof.
  induction sl as [|[r0 k0] sl IH]; intros bp ps Hall; [by eexists _, _|].
  destruct (Hall r0 k0) as [t Ht]; [by left|].
  destruct (create_body_total r0 k0 bp ps t Ht) as [bp1 E1].
  rewrite for_each_cons. cbn [fst snd]. rewrite E1. cbn [mbind result_bind].
  apply IH. intros r k Hin.
  apply create_body_Ok in E1 as (_ & _ & _ & _ & Hm).
  eapply marked_is_Some; [done|]. apply Hall. by right.
Qed.

Lemma create_slots_only_KeyError sl : ∀ s e,
  for_each sl (λ p, create_body p.1 p.2) s = Raise e → e = KeyError.
Proof.
  induction sl as [|[r0 k0] sl IH]; intros s e; [done|].
  rewrite for_each_cons. cbn [fst snd].
  destruct (create_body r0 k0 s) as [s1|e1] eqn:E1; cbn [mbind result_bind].
  - apply IH.
  - intros [= <-]. by eapply create_body_only_KeyError.
Qed.

Lemma create_param_list_total keys bp :
  (∀ r k, r ∈ root_atoms → k ∈ keys → is_Some (entry bp r k)) →
  ∃ bp1 ps, create_param_list_from_build_params keys bp = Ok (bp1, ps).
Proof.
  intros Hall. unfold create_param_list_from_build_params.
  rewrite for_each_slots. apply create_slots_total.
  intros r k (i & Hi)%list_elem_of_lookup_1.
  apply slots_lookup_elem in Hi as [Hr Hk]. by apply Hall.
Qed.

Lemma create_param_list_only_KeyError keys bp e :
  create_param_list_from_build_params keys bp = Raise e → e = KeyError.
Proof.
  unfold create_param_list_from_build_params. rewrite for_each_slots.
  apply create_slots_only_KeyError.
Qed.

(** X3. Extraction succeeds exactly when the store holds a tensor for every
    (anchor atom, selected key) pair; when it fails the exception is
    [KeyError]. *)
Theorem X3_extraction_needs_every_slot (keys : list string)
    (bp : build_params_t) :
  ((∃ bp1 ps, create_param_list_from_build_params keys bp = Ok (bp1, ps)) ↔
   ∀ r k, r ∈ root_atoms → k ∈ keys → is_Some (entry bp r k)) ∧
  ∀ e, create_param_list_from_build_params keys bp = Raise e → e = KeyError.
Proof.
  split; [split|].
  - intros (bp1 & ps & (_ & _ & Hl)%create_param_list_spec) r k Hr Hk.
    destruct (slots_elem_lookup keys r k Hr Hk) as [i Hi].
    destruct (Hl i r k Hi) as (t & Ht & _). by exists t.
  - apply create_param_list_total.
  - apply create_param_list_only_KeyError.
Qed.

(** X4. Extraction only marks: it leaves the entries of every tensor of the
    store as they are, leaves the tensors outside the selected slots
    untouched, hands out only tensors that require gradient, and a second
    extraction gives the same list and the same store as the first. *)
Theorem X4_extraction_only_marks (keys : list string)
    (bp bp1 : build_params_t) (ps : list tensor) :
  create_param_list_from_build_params keys bp = Ok (bp1, ps) →
  (∀ r k, data <$> entry bp1 r k = data <$> entry bp r k) ∧
  (∀ r k, (r, k) ∉ slots keys → entry bp1 r k = entry bp r k) ∧
  Forall (λ t, requires_grad t = true) ps ∧
  create_param_list_from_build_params keys bp1 = Ok (bp1, ps).
Proof.
  intros H. pose proof H as (Hm & Hlen & Hps)%create_param_list_spec.
  assert (∀ r k, (r, k) ∉ slots keys → entry bp1 r k = entry bp r k) as Hframe.
  { intros r k Hnin. unfold create_param_list_from_build_params in H.
    rewrite for_each_slots in H. by eapply create_slots_frame. }
  split_and!; [intros r k; by apply marked_data|done| |].
  - apply Forall_lookup. intros i t Hi.
    destruct (lookup_lt_is_Some_2 (slots keys) i) as [[r k] Hs].
    { rewrite <- Hlen. by eapply lookup_lt_Some. }
    destruct (Hps i r k Hs) as (t' & _ & Hi' & _). by simplify_eq.
  - destruct (create_slots_total (slots keys) bp1 []) as (bp2 & ps2 & H2).
    { intros r k (i & Hi)%list_elem_of_lookup_1.
      destruct (Hps i r k Hi) as (t & _ & _ & Ht). by exists (requires_grad_ t). }
    unfold create_param_list_from_build_params. rewrite for_each_slots, H2.
    pose proof H2 as (Hm2 & l2 & Hl2 & Hlen2 & Hps2)%create_slots_spec.
    simpl in Hl2. subst l2. f_equal. f_equal.
    + apply store_ext; [apply Hm2|]. intros r k.
      destruct (decide ((r, k) ∈ slots keys)) as [(i & Hi)%list_elem_of_lookup_1|Hn].
      * destruct (Hps i r k Hi) as (t & _ & _ & Ht).
        destruct (Hps2 i r k Hi) as (t2 & Ht2 & _ & Ht2').
        rewrite Ht in Ht2. simplify_eq. by rewrite Ht, Ht2'.
      * by eapply create_slots_frame.
    + apply list_eq. intros i.
      destruct (slots keys !! i) as [[r k]|] eqn:Hs.
      * destruct (Hps i r k Hs) as (t & _ & Hi & Ht).
        destruct (Hps2 i r k Hs) as (t2 & Ht2 & Hi2 & _).
        rewrite Ht in Ht2. simplify_eq. by rewrite Hi, Hi2.
      * apply lookup_ge_None in Hs.
        rewrite (proj2 (lookup_ge_None ps i)), (proj2 (lookup_ge_None ps2 i));
          [done|lia..].
Qed.

(** *** The constructor as a whole *)

Section Constructor.
Context `{Collaborators}.

Lemma getitem2_only_KeyError bp r k e :
  getitem2 bp r k = Raise e → e = KeyError.
Proof.
  unfold getitem2, getitem. destruct (bp !! r) as [g|]; simpl; [|congruence].
  destruct (g !! k); congruence.
Qed.

Lemma setitem2_only_KeyError bp r k v e :
  setitem2 bp r k v = Raise e → e = KeyError.
Proof. unfold setitem2, getitem. destruct (bp !! r); simpl; congruence. Qed.

Lemma init_angle_only_KeyError r key bp e :
  (sn ← getitem2 bp r ("s" +:+ key); cs ← getitem2 bp r ("c" +:+ key);
   setitem2 bp r key (atan2_ sn cs)) = Raise e → e = KeyError.
Proof.
  destruct (getitem2 bp r ("s" +:+ key)) as [sn|e1] eqn:Hs;
    cbn [mbind result_bind].
  2:{ intros [= <-]. by eapply getitem2_only_KeyError. }
  destruct (getitem2 bp r ("c" +:+ key)) as [cs|e1] eqn:Hc;
    cbn [mbind result_bind].
  2:{ intros [= <-]. by eapply getitem2_only_KeyError. }
  apply setitem2_only_KeyError.
Qed.

Lemma init_angles_body_only_KeyError keys r bp e :
  init_angles_body keys r bp = Raise e → e = KeyError.
Proof.
  unfold init_angles_body.
  destruct (if contains keys "thetas" then _ else _) as [bpA|e1] eqn:HA;
    cbn [mbind result_bind].
  - destruct (contains keys "chis"); [|done].
    apply (init_angle_only_KeyError r "chis").
  - intros [= <-]. destruct (contains keys "thetas"); [|done].
    by apply (init_angle_only_KeyError r "thetas") in HA.
Qed.

Lemma init_angles_loop_only_KeyError keys rs : ∀ bp e,
  for_each rs (init_angles_body keys) bp = Raise e → e = KeyError.
Proof.
  induction rs as [|r rs IH]; intros bp e; [done|]. rewrite for_each_cons.
  destruct (init_angles_body keys r bp) as [bp1|e1] eqn:E;
    cbn [mbind result_bind].
  - apply IH.
  - intros [= <-]. by eapply init_angles_body_only_KeyError.
Qed.

Lemma init_angle_total r key bp sn cs :
  entry bp r ("s" +:+ key) = Some sn → entry bp r ("c" +:+ key) = Some cs →
  ∃ bp1, (sn ← getitem2 bp r ("s" +:+ key); cs ← getitem2 bp r ("c" +:+ key);
          setitem2 bp r key (atan2_ sn cs)) = Ok bp1.
Proof.
  intros Hs Hc. rewrite (proj2 (getitem2_Ok _ _ _ _) Hs).
  cbn [mbind result_bind]. rewrite (proj2 (getitem2_Ok _ _ _ _) Hc).
  cbn [mbind result_bind].
  destruct (setitem2_total bp r key (atan2_ sn cs)) as [bp1 E];
    [by eapply entry_root|]. by exists bp1.
Qed.

Lemma init_angles_body_total keys r bp :
  (∀ key, key = "thetas" ∨ key = "chis" → contains keys key = true →
     is_Some (entry bp r ("s" +:+ key)) ∧ is_Some (entry bp r ("c" +:+ key))) →
  ∃ bp1, init_angles_body keys r bp = Ok bp1.
Proof.
  intros Hall. unfold init_angles_body.
  assert (∃ bpA, (if contains keys "thetas" then
                    sn ← getitem2 bp r "sthetas";
                    cs ← getitem2 bp r "cthetas";
                    setitem2 bp r "thetas" (atan2_ sn cs)
                  else Ok bp) = Ok bpA ∧
                 ∀ r' k, r' ≠ r ∨ k ≠ "thetas" → entry bpA r' k = entry bp r' k)
    as (bpA & -> & HfA).
  { destruct (contains keys "thetas") eqn:Ht; [|by exists bp].
    destruct (Hall "thetas") as [[sn Hs] [cs Hc]]; [by left|done|].
    destruct (init_angle_total r "thetas" bp sn cs Hs Hc) as [bpA E].
    exists bpA. split; [done|].
    by apply (init_angle_Ok r "thetas") in E as [? _]. }
  cbn [mbind result_bind].
  destruct (contains keys "chis") eqn:Hc; [|by exists bpA].
  destruct (Hall "chis") as [[sn Hs] [cs Hcs]]; [by right|done|].
  apply (init_angle_total r "chis" bpA sn cs); rewrite HfA; done || by right.
Qed.

Lemma init_angles_loop_total keys rs : ∀ bp,
  (∀ r key, r ∈ rs → key = "thetas" ∨ key = "chis" → contains keys key = true →
     is_Some (entry bp r ("s" +:+ key)) ∧ is_Some (entry bp r ("c" +:+ key))) →
  ∃ bp', for_each rs (init_angles_body keys) bp = Ok bp'.
Proof.
  induction rs as [|r0 rs IH]; intros bp Hall; [by exists bp|].
  rewrite for_each_cons.
  destruct (init_angles_body_total keys r0 bp) as [bp1 E].
  { intros key Hkey Hk. apply Hall; [by left|done..]. }
  rewrite E. cbn [mbind result_bind]. apply IH. intros r key Hr Hkey Hk.
  apply init_angles_body_Ok in E as [Hf _].
  rewrite !Hf by (right; by destruct Hkey as [-> | ->]).
  apply Hall; [by right|done..].
Qed.

Lemma contains_selected_keys b1 b2 b3 :
  contains (selected_keys b1 b2 b3) "bond_lengths" = b1 ∧
  contains (selected_keys b1 b2 b3) "thetas" = b2 ∧
  contains (selected_keys b1 b2 b3) "chis" = b3.
Proof. by destruct b1, b2, b3. Qed.

Lemma elem_selected_keys b1 b2 b3 k :
  k ∈ selected_keys b1 b2 b3 ↔
  (k = "bond_lengths" ∧ b1 = true) ∨ (k = "thetas" ∧ b2 = true) ∨
  (k = "chis" ∧ b3 = true).
Proof.
  unfold selected_keys. rewrite !elem_of_app.
  destruct b1, b2, b3; rewrite ?list_elem_of_singleton, ?elem_of_nil;
    intuition congruence.
Qed.

(** X5. The constructor succeeds exactly when the build-parameter table
    holds, for each of the anchor atoms N, CA and C, the bond lengths if they
    are selected, the sine and cosine of the thetas if the thetas are
    selected, and the sine and cosine of the chis if the chis are selected;
    when it fails the exception is [KeyError]. *)
Theorem X5_constructor_needs_the_selected_groups (p : protein_t)
    (b1 b2 b3 : bool) :
  ((∃ self, __init__ p b1 b2 b3 = Ok self) ↔
   ∀ r, r ∈ root_atoms →
     (b1 = true → is_Some (entry get_all_atom_build_params r "bond_lengths")) ∧
     (b2 = true → is_Some (entry get_all_atom_build_params r "sthetas") ∧
                  is_Some (entry get_all_atom_build_params r "cthetas")) ∧
     (b3 = true → is_Some (entry get_all_atom_build_params r "schis") ∧
                  is_Some (entry get_all_atom_build_params r "cchis"))) ∧
  ∀ e, __init__ p b1 b2 b3 = Raise e → e = KeyError.
Proof.
  destruct (contains_selected_keys b1 b2 b3) as (Hc1 & Hc2 & Hc3).
  unfold __init__. split; [split|].
  - intros [self Hinit] r Hr.
    destruct (for_each root_atoms _ _) as [bp0|] eqn:Hloop; [|done].
    cbn [mbind result_bind] in Hinit.
    destruct (create_param_list_from_build_params _ bp0) as [[bp1 ps]|] eqn:E;
      [|done].
    apply init_angles_loop in Hloop as [Hf0 Ht0]; [|apply NoDup_root_atoms].
    apply create_param_list_spec in E as (_ & _ & Hps).
    split_and!.
    + intros ->.
      destruct (slots_elem_lookup (selected_keys true b2 b3) r "bond_lengths")
        as [i Hi]; [done|by left|].
      destruct (Hps i _ _ Hi) as (t & Ht & _).
      rewrite Hf0 in Ht by (by right). by exists t.
    + intros ->. destruct (Ht0 r "thetas") as (sn & cs & Hs & Hc & _);
        [done|by left|done|]. split; [by exists sn|by exists cs].
    + intros ->. destruct (Ht0 r "chis") as (sn & cs & Hs & Hc & _);
        [done|by right|done|]. split; [by exists sn|by exists cs].
  - intros Hall.
    destruct (init_angles_loop_total (selected_keys b1 b2 b3) root_atoms
                get_all_atom_build_params) as [bp0 Hloop].
    { intros r key Hr [-> | ->] Hk; destruct (Hall r Hr) as (_ & H2 & H3).
      - apply H2. congruence.
      - apply H3. congruence. }
    rewrite Hloop. cbn [mbind result_bind].
    pose proof Hloop as [Hf0 Ht0]%init_angles_loop; [|apply NoDup_root_atoms].
    destruct (create_param_list_total (selected_keys b1 b2 b3) bp0)
      as (bp1 & ps & E).
    { intros r k Hr Hk. destruct (Hall r Hr) as (H1 & _).
      apply elem_selected_keys in Hk as [[-> ->]|[[-> ->]|[-> ->]]].
      - rewrite Hf0 by (by right). by apply H1.
      - destruct (Ht0 r "thetas") as (sn & cs & _ & _ & Ht);
          [done|by left|done|]. by rewrite Ht.
      - destruct (Ht0 r "chis") as (sn & cs & _ & _ & Ht);
          [done|by right|done|]. by rewrite Ht. }
    rewrite E. cbn [mbind result_bind]. by eexists.
  - intros e.
    destruct (for_each root_atoms _ _) as [bp0|e0] eqn:Hloop;
      cbn [mbind result_bind].
    + destruct (create_param_list_from_build_params _ bp0) as [[bp1 ps]|e1] eqn:E;
        cbn [mbind result_bind]; [done|].
      intros [= <-].
      by eapply create_param_list_only_KeyError.
    + intros [= <-]. by eapply init_angles_loop_only_KeyError.
Qed.

End Constructor.

Section ConstructorResult.
Context `{Collaborators}.

Lemma init_angle_frame r key bp bp1 r' k :
  (sn ← getitem2 bp r ("s" +:+ key); cs ← getitem2 bp r ("c" +:+ key);
   setitem2 bp r key (atan2_ sn cs)) = Ok bp1 →
  (r', k) ≠ (r, key) → entry bp1 r' k = entry bp r' k.
Proof.
  intros [Hf _]%init_angle_Ok Hne. apply Hf.
  destruct (decide (r' = r)) as [->|]; [right|by left]. congruence.
Qed.

Lemma init_angles_body_frame keys r bp bp1 r' k :
  init_angles_body keys r bp = Ok bp1 → contains keys k = false →
  entry bp1 r' k = entry bp r' k.
Proof.
  unfold init_angles_body. intros Hi Hk.
  destruct (if contains keys "thetas" then _ else _) as [bpA|] eqn:HA; [|done].
  cbn [mbind result_bind] in Hi.
  assert (entry bpA r' k = entry bp r' k) as <-.
  { destruct (contains keys "thetas") eqn:Ht; [|by simplify_eq].
    apply (init_angle_frame r "thetas" bp bpA r' k HA). congruence. }
  destruct (contains keys "chis") eqn:Hc; [|by simplify_eq].
  apply (init_angle_frame r "chis" bpA bp1 r' k Hi). congruence.
Qed.

Lemma init_angles_loop_frame keys rs : ∀ bp bp' r k,
  for_each rs (init_angles_body keys) bp = Ok bp' → contains keys k = false →
  entry bp' r k = entry bp r k.
Proof.
  induction rs as [|r0 rs IH]; intros bp bp' r k Hloop Hk.
  - simpl in Hloop. by simplify_eq.
  - rewrite for_each_cons in Hloop.
    destruct (init_angles_body keys r0 bp) as [bp1|] eqn:Hstep; [|done].
    cbn [mbind result_bind] in Hloop.
    rewrite (IH _ _ _ _ Hloop Hk). by eapply init_angles_body_frame.
Qed.

Lemma init_angles_loop_other_root keys rs : ∀ bp bp' r k,
  for_each rs (init_angles_body keys) bp = Ok bp' → r ∉ rs →
  entry bp' r k = entry bp r k.
Proof.
  induction rs as [|r0 rs IH]; intros bp bp' r k Hloop Hr.
  - simpl in Hloop. by simplify_eq.
  - rewrite for_each_cons in Hloop.
    destruct (init_angles_body keys r0 bp) as [bp1|] eqn:Hstep; [|done].
    cbn [mbind result_bind] in Hloop. apply not_elem_of_cons in Hr as [? ?].
    rewrite (IH _ _ _ _ Hloop) by done.
    apply init_angles_body_Ok in Hstep as [Hf _]. apply Hf. by left.
Qed.

(** X6. What the constructor leaves. The table is kept as
    [_starting_build_params] and the protein is built from it; the store
    differs from the table only at the selected (anchor atom, key) slots: a
    selected bond-length tensor is the table's, marked as requiring
    gradient, and every other entry outside the selected slots (the stored
    sines and cosines, an unselected group) is the table's own. The
    registered parameters are, in loop order, the store's tensors at the
    selected slots, three per selected key, each requiring gradient. *)
Theorem X6_constructor_result (p : protein_t) (b1 b2 b3 : bool)
    (self : BuildParamOptimizer) :
  __init__ p b1 b2 b3 = Ok self →
  _starting_build_params self = get_all_atom_build_params ∧
  protein self = prepare_protein get_all_atom_build_params p ∧
  keys_to_optimize self = selected_keys b1 b2 b3 ∧
  losses self = [] ∧
  length (params self) = 3 * length (selected_keys b1 b2 b3) ∧
  (∀ i r k, slots (selected_keys b1 b2 b3) !! i = Some (r, k) →
     ∃ t, params self !! i = Some t ∧ entry (build_params self) r k = Some t ∧
          requires_grad t = true) ∧
  (∀ r k, (r, k) ∉ slots (selected_keys b1 b2 b3) →
     entry (build_params self) r k = entry get_all_atom_build_params r k) ∧
  (∀ r, r ∈ root_atoms → b1 = true →
     ∃ t, entry get_all_atom_build_params r "bond_lengths" = Some t ∧
          entry (build_params self) r "bond_lengths"
          = Some (requires_grad_ t)).
Proof.
  unfold __init__. intros Hinit.
  destruct (for_each root_atoms _ _) as [bp0|] eqn:Hloop; [|done].
  cbn [mbind result_bind] in Hinit.
  destruct (create_param_list_from_build_params _ bp0) as [[bp1 ps]|] eqn:E;
    [|done].
  cbn [mbind result_bind] in Hinit. simplify_eq. simpl.
  pose proof E as (_ & Hlen & Hps)%create_param_list_spec.
  split_and!; [done|done|done|done|by rewrite Hlen, length_slots| | |].
  - intros i r k Hi. destruct (Hps i r k Hi) as (t & _ & Hpi & Ht).
    by exists (requires_grad_ t).
  - intros r k Hnin.
    unfold create_param_list_from_build_params in E.
    rewrite for_each_slots in E.
    rewrite (create_slots_frame _ _ _ _ _ r k E Hnin).
    destruct (decide (r ∈ root_atoms)) as [Hr|Hr].
    + eapply init_angles_loop_frame; [done|].
      apply not_true_iff_false. rewrite contains_elem. intros Hk.
      apply Hnin. destruct (slots_elem_lookup _ r k Hr Hk) as [i Hi].
      by eapply list_elem_of_lookup_2.
    + by eapply init_angles_loop_other_root.
  - intros r Hr ->.
    destruct (slots_elem_lookup (selected_keys true b2 b3) r "bond_lengths")
      as [i Hi]; [done|by left|].
    destruct (Hps i _ _ Hi) as (t & Ht & _ & Ht1). exists t. split; [|done].
    apply init_angles_loop in Hloop as [Hf _]; [|apply NoDup_root_atoms].
    rewrite <- Ht. symmetry. apply Hf. by right.
Qed.

End ConstructorResult.

(** *** [optimize] as a whole *)

Lemma update_slots_frame_entry vs sl : ∀ bp i bp' i' r k',
  for_each sl (λ q, update_body vs q.1 q.2) (bp, i) = Ok (bp', i') →
  (∀ k, (r, k) ∈ sl → k' ∉ target_keys k) →
  entry bp' r k' = entry bp r k'.
Proof.
  induction sl as [|[r0 k0] sl IH]; intros bp i bp' i' r k' Hloop Hk'.
  - simpl in Hloop. by simplify_eq.
  - rewrite for_each_cons in Hloop. cbn [fst snd] in Hloop.
    destruct (update_body vs r0 k0 (bp, i)) as [[bp1 i1]|] eqn:Hstep; [|done].
    cbn [mbind result_bind] in Hloop.
    apply update_body_Ok in Hstep as (_ & _ & Hframe1 & _).
    rewrite (IH _ _ _ _ _ _ Hloop), Hframe1; [done|..].
    + destruct (decide (r = r0)) as [->|]; [right|by left].
      apply (Hk' k0). by left.
    + intros k Hin. apply Hk'. by right.
Qed.

Lemma update_complete_frame keys bp vs bp' r k' :
  update_complete_build_params_with_optimized_params keys bp vs = Ok bp' →
  (∀ k, (r, k) ∈ slots keys → k' ∉ target_keys k) →
  entry bp' r k' = entry bp r k'.
Proof.
  unfold update_complete_build_params_with_optimized_params.
  rewrite for_each_slots. intros H.
  destruct (for_each (slots keys) _ (bp, 0)) as [[bp1 i1]|] eqn:E; [|done].
  cbn in H. simplify_eq. by eapply update_slots_frame_entry.
Qed.

Lemma update_slots_roots vs sl : ∀ bp i bp' i' r,
  for_each sl (λ q, update_body vs q.1 q.2) (bp, i) = Ok (bp', i') →
  is_Some (bp' !! r) ↔ is_Some (bp !! r).
Proof.
  induction sl as [|[r0 k0] sl IH]; intros bp i bp' i' r Hloop.
  - simpl in Hloop. by simplify_eq.
  - rewrite for_each_cons in Hloop. cbn [fst snd] in Hloop.
    destruct (update_body vs r0 k0 (bp, i)) as [[bp1 i1]|] eqn:Hstep; [|done].
    cbn [mbind result_bind] in Hloop.
    apply update_body_Ok in Hstep as (_ & Hroot1 & _).
    by rewrite (IH _ _ _ _ _ Hloop), Hroot1.
Qed.

Lemma update_complete_roots keys bp vs bp' r :
  update_complete_build_params_with_optimized_params keys bp vs = Ok bp' →
  is_Some (bp' !! r) ↔ is_Some (bp !! r).
Proof.
  unfold update_complete_build_params_with_optimized_params.
  rewrite for_each_slots. intros H.
  destruct (for_each (slots keys) _ (bp, 0)) as [[bp1 i1]|] eqn:E; [|done].
  cbn in H. simplify_eq. by eapply update_slots_roots.
Qed.

Lemma write_through_frame keys ps bp r k :
  (r, k) ∉ slots keys →
  entry (write_through keys ps bp) r k = entry bp r k.
Proof.
  unfold write_through. intros Hnin.
  assert (∀ st, st ∈ zip (slots keys) ps → st.1 ≠ (r, k)) as Hall.
  { intros [q t] Hin Heq. simpl in Heq. subst q. apply Hnin.
    apply list_elem_of_In in Hin. apply in_combine_l in Hin.
    by apply list_elem_of_In. }
  revert bp Hall. generalize (zip (slots keys) ps) as l.
  induction l as [|[[r0 k0] t] l IH]; intros bp Hall; [done|].
  simpl. rewrite IH by (intros st Hin; apply Hall; by right).
  destruct (bp !! r0) as [g|] eqn:E; [|done].
  assert ((r0, k0) ≠ (r, k)) as Hne by (apply (Hall (r0, k0, t)); by left).
  unfold entry. destruct (decide (r0 = r)) as [->|Hr].
  - rewrite lookup_insert_eq, E. simpl. rewrite lookup_insert_ne; congruence.
  - by rewrite lookup_insert_ne.
Qed.

Lemma map_deepcopy (l : list tensor) : map deepcopy l = l.
Proof. apply map_id. Qed.

Section Optimize.
Context `{Collaborators}.

Lemma kept_by_refl self : kept_by self self.
Proof. by split_and!. Qed.

Lemma kept_by_store self0 self bp p :
  kept_by self0 self →
  (∀ r, is_Some (bp !! r) ↔ is_Some (build_params self !! r)) →
  (∀ r k', (r, k') ∉ slots (keys_to_optimize self0) →
     (∀ k, (r, k) ∈ slots (keys_to_optimize self0) → k' ∉ target_keys k) →
     entry bp r k' = entry (build_params self) r k') →
  kept_by self0 (with_store self bp p).
Proof.
  intros (Hk & Hs & Hl & Hr & He) Hr' He'. split_and!; simpl; try done.
  - intros r. by rewrite Hr', Hr.
  - intros r k' H1 H2. by rewrite He', He.
Qed.

Lemma kept_by_scatter self0 self vs bp p :
  kept_by self0 self →
  update_complete_build_params_with_optimized_params
    (keys_to_optimize self) (build_params self) vs = Ok bp →
  kept_by self0 (with_store self bp p).
Proof.
  intros Hk Hup. pose proof Hk as (Hkeys & _).
  apply kept_by_store; [done|intros r; by eapply update_complete_roots|].
  intros r k' _ Hk'. eapply update_complete_frame; [done|].
  by rewrite Hkeys.
Qed.

Lemma kept_by_in_place self0 self new :
  kept_by self0 self → kept_by self0 (in_place self new).
Proof.
  intros (Hk & Hs & Hl & Hr & He). split_and!; simpl; try done.
  - by rewrite length_assign_data.
  - intros r. by rewrite write_through_root.
  - intros r k' H1 H2. rewrite write_through_frame; [by apply He|].
    by rewrite Hk.
Qed.

Lemma kept_by_note self0 self : kept_by self0 self → kept_by self0 (note self).
Proof. done. Qed.

Lemma kept_by_closure self0 self self1 loss :
  kept_by self0 self → closure self = Ok (self1, loss) → kept_by self0 self1.
Proof.
  unfold closure. intros Hk Hcl.
  destruct (update_complete_build_params_with_optimized_params _ _ _)
    as [bp|] eqn:Hup; [|done].
  cbn [mbind result_bind] in Hcl. simplify_eq. by eapply kept_by_scatter.
Qed.

Lemma kept_by_lbfgs_step self0 fuel : ∀ self o self' o' sig,
  kept_by self0 self → lbfgs_step fuel self o = (self', o', sig) →
  kept_by self0 self'.
Proof.
  induction fuel as [|fuel IH]; intros self o self' o' sig Hk Hstep;
    simpl in Hstep;
    destruct (closure self) as [[self1 loss]|e] eqn:Hcl; simplify_eq; try done;
    apply (kept_by_closure self0) in Hcl; try done;
    destruct (lbfgs_next o loss _ _) as [o1 [|new again]]; simplify_eq;
    try done; try by apply kept_by_in_place.
  destruct again; simplify_eq; [|by apply kept_by_in_place].
  eapply IH; [|done]. by apply kept_by_in_place.
Qed.

Lemma kept_by_lbfgs_loop self0 steps : ∀ self o self' o' sig,
  kept_by self0 self → lbfgs_loop steps self o = (self', o', sig) →
  kept_by self0 self'.
Proof.
  induction steps as [|steps IH]; intros self o self' o' sig Hk Hloop;
    simpl in Hloop; [by simplify_eq|].
  destruct (lbfgs_step max_eval (note self) o) as [[self1 o1] sig1] eqn:Hstep.
  apply (kept_by_lbfgs_step self0) in Hstep; [|done].
  destruct sig1; simplify_eq; try done. by eapply IH.
Qed.

Lemma kept_by_sgd_finish self0 self o lossnp g l self' o' l' sig :
  kept_by self0 self →
  sgd_finish self o lossnp g l = (self', o', l', sig) →
  kept_by self0 self' ∧
  build_params_history self' = build_params_history self.
Proof.
  unfold sgd_finish. intros Hk.
  destruct (step o g (params self)) as [o1 new].
  destruct (scheduler_step (scheduler l) o1 lossnp) as [sch o2].
  intros Heq. simplify_eq. split; [|done].
  by apply (kept_by_in_place self0 (with_losses self (losses self ++ [lossnp]))).
Qed.

Lemma kept_by_sgd_body self0 self o l self' o' l' sig :
  kept_by self0 self → sgd_body self o l = (self', o', l', sig) →
  kept_by self0 self' ∧
  (sig = Next →
   build_params_history self'
   = build_params_history self ++ [map detach (params self)]).
Proof.
  unfold sgd_body. intros Hk Hb.
  destruct (update_complete_build_params_with_optimized_params _ _ _)
    as [bp|e] eqn:Hup; [|by simplify_eq].
  set (p := fastbuild bp _) in *. set (lossnp := energy p) in *.
  assert (kept_by self0
            (with_store (note self) bp
               (Protein p (_last_loss (protein (note self)))))) as Hk1.
  { by eapply (kept_by_scatter self0 (note self)). }
  destruct (improves lossnp (best_loss l)).
  - apply (kept_by_sgd_finish self0) in Hb as [? ?]; done.
  - destruct (patience <? counter l); [by simplify_eq|].
    destruct (counter l <? patience);
      apply (kept_by_sgd_finish self0) in Hb as [? ?]; done.
Qed.

Lemma kept_by_sgd_loop self0 steps : ∀ self o l self' o' l' sig,
  kept_by self0 self → sgd_loop steps self o l = (self', o', l', sig) →
  kept_by self0 self'.
Proof.
  induction steps as [|steps IH]; intros self o l self' o' l' sig Hk Hloop;
    simpl in Hloop; [by simplify_eq|].
  destruct (sgd_body self o l) as [[[self1 o1] l1] sig1] eqn:Hbody.
  apply (kept_by_sgd_body self0) in Hbody as [Hk1 _]; [|done].
  destruct sig1; simplify_eq; try done. by eapply IH.
Qed.

Lemma kept_by_well_formed self0 self :
  kept_by self0 self → well_formed self0 → well_formed self.
Proof.
  intros (Hk & _ & Hl & Hr & _) [Hroots Hlen]. split.
  - intros r k Hin. rewrite Hk in Hin. rewrite Hr. by eapply Hroots.
  - by rewrite Hk, Hl.
Qed.

Lemma kept_by_optimize self opt_name lr steps :
  kept_by self (optimize self opt_name lr steps).1.
Proof.
  unfold optimize.
  set (self1 := with_history self [map deepcopy (params self)]).
  assert (kept_by self self1) as Hk1 by (by split_and!).
  destruct (opt_name =? "LBFGS")%string.
  - destruct (LBFGS (params self) lr) as [o|e]; [|done].
    destruct (lbfgs_loop steps self1 o) as [[self2 o2] sig] eqn:Hloop.
    apply (kept_by_lbfgs_loop self) in Hloop; [|done]. by destruct sig.
  - destruct ((opt_name =? "SGD")%string || (opt_name =? "adam")%string);
      [|done].
    destruct (if (opt_name =? "adam")%string then Adam (params self) lr
              else SGD (params self) lr) as [o|e]; [|done].
    destruct (sgd_loop steps self1 _ _) as [[[self2 o2] l2] sig] eqn:Hloop.
    apply (kept_by_sgd_loop self) in Hloop; [|done].
    assert (kept_by self (with_opt self2 o2)) as Hk2 by done.
    destruct (update_complete_build_params_with_optimized_params
                (keys_to_optimize (with_opt self2 o2))
                (build_params (with_opt self2 o2)) (best_params_so_far l2))
      as [bp|e] eqn:Hup; destruct sig; simpl; rewrite ?Hup; try done;
      by eapply (kept_by_scatter self (with_opt self2 o2)).
Qed.

(** X9. A call of [optimize], whatever the strategy, the step budget and
    the outcome, changes the store of an object as the constructor leaves
    it only at the selected slots and at the keys their scatter assigns: the
    key list, the starting table, the anchors, the number of registered
    tensors and every other entry are as before the call, and the object
    can go through another call. *)
Theorem X9_optimize_touches_selected_slots_only (self : BuildParamOptimizer)
    (opt_name : string) (lr : Q) (steps : nat) :
  well_formed self →
  kept_by self (optimize self opt_name lr steps).1 ∧
  well_formed (optimize self opt_name lr steps).1.
Proof.
  intros Hwf. pose proof (kept_by_optimize self opt_name lr steps) as Hk.
  split; [done|]. by eapply kept_by_well_formed.
Qed.

(** *** The first-order strategies *)

Lemma sgd_loop_history steps : ∀ self o l self' o' l',
  sgd_loop steps self o l = (self', o', l', Next) →
  ∃ hs obs,
    build_params_history self' = build_params_history self ++ hs ∧
    losses self' = losses self ++ obs ∧
    length hs = steps ∧ length obs = steps ∧
    ((best_params_so_far l' = best_params_so_far l ∧
      best_loss l' = best_loss l ∧
      ∀ x, x ∈ obs → improves x (best_loss l) = false) ∨
     (∃ j best b, hs !! j = Some (map detach best) ∧ obs !! j = Some b ∧
        best_params_so_far l' = PyList best ∧ best_loss l' = Some b ∧
        length best = length (params self))).
Proof.
  induction steps as [|steps IH]; intros self o l self' o' l' Hloop.
  - simpl in Hloop. simplify_eq. exists [], [].
    rewrite !app_nil_r. split_and!; [done..|]. left.
    split_and!; [done..|]. by intros x ?%elem_of_nil.
  - simpl in Hloop.
    destruct (sgd_body self o l) as [[[self1 o1] l1] sig1] eqn:Hbody.
    destruct sig1; [|by simplify_eq..].
    pose proof Hbody as [(_ & _ & Hlen1 & _) Hh1]%(kept_by_sgd_body self);
      [|apply kept_by_refl].
    specialize (Hh1 eq_refl).
    apply sgd_body_inv in Hbody as (_ & _ & lossnp & Hl1 & Hcase).
    destruct (IH _ _ _ _ _ _ Hloop)
      as (hs & obs & Hh & Hl & Hlh & Hlo & Hbest).
    exists (map detach (params self) :: hs), (lossnp :: obs).
    rewrite Hh, Hh1, Hl, Hl1, <- !app_assoc. simpl.
    split_and!; [done|done|by rewrite Hlh|by rewrite Hlo|].
    destruct Hbest as [(Hb1 & Hb2 & Hb3)|(j & best & b & ? & ? & ? & ? & Hlb)].
    + destruct (improves lossnp (best_loss l)) eqn:Himp.
      * destruct Hcase as (Hbl & Hbp & _). right.
        exists 0, (params self), lossnp. simpl.
        rewrite Hb1, Hb2, Hbp, Hbl, map_deepcopy. done.
      * destruct Hcase as (Hbl & Hbp & _). left.
        rewrite Hb1, Hb2, Hbp, Hbl. split_and!; [done..|].
        intros x [->|Hx]%elem_of_cons; [done|].
        rewrite <- Hbl. by apply Hb3.
    + right. exists (S j), best, b. simpl. by rewrite <- Hlen1.
Qed.

(** X7. A first-order run ('SGD' or 'adam') of at least one step on an
    object as the constructor leaves it, with tensors and a learning rate
    that the torch optimizer accepts, returns the store, and this store is
    the scatter of the registered tensors as they were at the start of one
    iteration [j]: the iteration whose loss is the tracked best loss, which
    no observed loss undercuts by more than [epsilon]. The run records one
    loss and one history entry per step. *)
Theorem X7_first_order_returns_best_snapshot (self : BuildParamOptimizer)
    (b1 b2 b3 : bool) (opt_name : string) (lr : Q) (steps : nat)
    (o0 : Optimizer) :
  well_formed self →
  keys_to_optimize self = selected_keys b1 b2 b3 →
  opt_name = "SGD" ∨ opt_name = "adam" →
  (if (opt_name =? "adam")%string then Adam (params self) lr
   else SGD (params self) lr) = Ok o0 →
  0 < steps →
  ∃ self' bp hs obs j best b,
    optimize self opt_name lr steps = (self', Ok bp) ∧
    build_params self' = bp ∧
    build_params_history self' = params self :: hs ∧ length hs = steps ∧
    losses self' = losses self ++ obs ∧ length obs = steps ∧
    hs !! j = Some (map detach best) ∧ obs !! j = Some b ∧
    (∀ x, x ∈ obs → (b - epsilon <= x)%Q) ∧
    ∀ i r k, slots (selected_keys b1 b2 b3) !! i = Some (r, k) →
      ∃ x, best !! i = Some x ∧ written bp r k x.
Proof.
  intros Hwf Hkeys Hopt Hctor Hsteps. unfold optimize.
  assert ((opt_name =? "LBFGS")%string = false ∧
          ((opt_name =? "SGD")%string || (opt_name =? "adam")%string) = true)
    as [-> ->] by (by destruct Hopt as [-> | ->]).
  rewrite Hctor.
  set (self1 := with_history self [map deepcopy (params self)]).
  set (l1 := Locals None PyNone 0 (ReduceLROnPlateau o0)).
  destruct (sgd_loop steps self1 o0 l1) as [[[self2 o2] l2] sig] eqn:Hloop.
  destruct (sgd_loop_inv _ _ _ _ _ _ _ _ [] Hloop)
    as (_ & _ & Hk2 & Hwf2 & obs' & Hobs' & _ & Htr); [simpl; lia|done|].
  destruct (Hwf2 Hwf) as [-> Hwf2']. clear Hwf2.
  assert (kept_by self self1) as Hk1 by (by split_and!).
  pose proof (kept_by_sgd_loop self _ _ _ _ _ _ _ _ Hk1 Hloop)
    as (_ & _ & Hlen2 & _).
  destruct (sgd_loop_history _ _ _ _ _ _ _ Hloop)
    as (hs & obs & Hh & Hl & Hlh & Hlo & Hbest).
  rewrite Hl in Hobs'. apply app_inv_head in Hobs'. subst obs'.
  destruct Hbest as [(_ & _ & Hno)|(j & best & b & Hj & Hb & Hbp & Hbl & Hlb)].
  { destruct obs as [|x obs]; [simpl in Hlo; lia|].
    specialize (Hno x ltac:(by left)). done. }
  simpl. rewrite Hbp.
  destruct (update_complete_total (keys_to_optimize self2)
              (build_params self2) best) as (bp & Hup & _).
  { apply Hwf2'. }
  { rewrite Hlb. destruct Hwf2' as [_ Hle]. simpl. by rewrite <- Hlen2. }
  rewrite Hup.
  exists (with_store (with_opt self2 o2) bp (protein self2)), bp, hs, obs,
    j, best, b.
  split_and!; try done.
  - simpl. rewrite Hh. simpl. by rewrite map_deepcopy.
  - rewrite Hbl in Htr. simpl in Htr. apply Htr.
  - intros i r k Hi. rewrite Hk2 in Hup. simpl in Hup. rewrite Hkeys in Hup.
    destruct (update_complete_spec _ _ _ _ (no_clash_selected_keys b1 b2 b3)
                Hup i r k Hi) as (x & Hx & Hw).
    exists x. split; [|done]. simpl in Hx. unfold index in Hx.
    by destruct (best !! i); simplify_eq.
Qed.

(** X8. The first-order runs that bind no snapshot. A run of zero steps
    that the torch optimizer accepts reaches the final scatter with [None],
    which raises [TypeError] as soon as one key is selected. When the torch
    optimizer refuses its arguments, as it does with no tensor registered
    (no key selected) and with a negative learning rate, its [ValueError]
    leaves the call before the first step, whatever the step budget: no
    loss is recorded and the history holds its initial entry only. *)
Theorem X8_first_order_edge_cases (self : BuildParamOptimizer)
    (opt_name : string) (lr : Q) :
  opt_name = "SGD" ∨ opt_name = "adam" →
  (∀ o0,
     (if (opt_name =? "adam")%string then Adam (params self) lr
      else SGD (params self) lr) = Ok o0 →
     keys_to_optimize self ≠ [] →
     (optimize self opt_name lr 0).2 = Raise TypeError) ∧
  (∀ steps, params self = [] ∨ Qltb lr 0 = true →
     (optimize self opt_name lr steps).2 = Raise ValueError ∧
     losses (optimize self opt_name lr steps).1 = losses self ∧
     build_params_history (optimize self opt_name lr steps).1
     = [params self]).
Proof.
  intros Hopt. unfold optimize.
  assert ((opt_name =? "LBFGS")%string = false ∧
          ((opt_name =? "SGD")%string || (opt_name =? "adam")%string) = true)
    as [-> ->] by (by destruct Hopt as [-> | ->]).
  split.
  - intros o0 -> Hne. simpl. by rewrite update_complete_None.
  - intros steps Href.
    assert ((if (opt_name =? "adam")%string then Adam (params self) lr
             else SGD (params self) lr) = Raise ValueError) as ->.
    { destruct Href as [-> |Hlr]; destruct (opt_name =? "adam")%string;
        auto using Adam_empty, SGD_empty, Adam_negative, SGD_negative. }
    simpl. by rewrite map_deepcopy.
Qed.

End Optimize.

(** *** The further properties on the mocks *)

Lemma mock_table_anchors r : r ∈ root_atoms → is_Some (mock_table !! r).
Proof.
  intros Hr. apply list_elem_of_In in Hr. simpl in Hr.
  destruct Hr as [<-|[<-|[<-|[]]]]; by eexists.
Qed.

Lemma mock_store_slots r k :
  r ∈ root_atoms → k ∈ selected_keys true true true →
  is_Some (entry mock_store r k).
Proof.
  intros Hr Hk. apply list_elem_of_In in Hr, Hk. simpl in Hr, Hk.
  destruct Hr as [<-|[<-|[<-|[]]]], Hk as [<-|[<-|[<-|[]]]]; by eexists.
Qed.

Lemma mock_self_well_formed script : well_formed (mock_self script).
Proof.
  apply (@well_formed_init (mock script)
           (@Protein (mock script) 0%nat None) true true true).
  apply mock_bpo_Ok.
Qed.

Lemma X1_scatter_overrides_scatter_witness :
  ∃ bp1 bp2,
    update_complete_build_params_with_optimized_params
      (selected_keys true true true) mock_table
      (PyList (replicate 9 (Tensor [0%R] false))) = Ok bp1 ∧
    update_complete_build_params_with_optimized_params
      (selected_keys true true true) mock_table
      (PyList (replicate 9 (Tensor [1%R] true))) = Ok bp2 ∧
    update_complete_build_params_with_optimized_params
      (selected_keys true true true) bp1
      (PyList (replicate 9 (Tensor [1%R] true))) = Ok bp2.
Proof.
  eexists _, _. split; [reflexivity|]. split; [reflexivity|].
  apply (X1_scatter_overrides_scatter true true true mock_table _ _
           (replicate 9 (Tensor [0%R] false))); reflexivity.
Defined.

Lemma X2_scatter_by_length_and_anchors_witness :
  (∀ r, r ∈ root_atoms → is_Some (mock_table !! r)) ∧
  3 * length (selected_keys true true true)
  ≤ length (replicate 10 (Tensor [0%R] false)) ∧
  ∃ bp',
    update_complete_build_params_with_optimized_params
      (selected_keys true true true) mock_table
      (PyList (replicate 10 (Tensor [0%R] false))) = Ok bp' ∧
    update_complete_build_params_with_optimized_params
      (selected_keys true true true) mock_table
      (PyList (take (3 * length (selected_keys true true true))
                 (replicate 10 (Tensor [0%R] false)))) = Ok bp'.
Proof.
  assert (3 * length (selected_keys true true true)
          ≤ length (replicate 10 (Tensor [0%R] false))) as Hlen
    by (simpl; lia).
  split; [exact mock_table_anchors|]. split; [exact Hlen|].
  exact (proj1 (X2_scatter_by_length_and_anchors (selected_keys true true true)
                  mock_table (replicate 10 (Tensor [0%R] false)))
           mock_table_anchors Hlen).
Defined.

Lemma X3_extraction_needs_every_slot_witness :
  (∀ r k, r ∈ root_atoms → k ∈ selected_keys true true true →
          is_Some (entry mock_store r k)) ∧
  ∃ bp1 ps,
    create_param_list_from_build_params (selected_keys true true true)
      mock_store = Ok (bp1, ps).
Proof.
  split; [exact mock_store_slots|].
  exact (proj2 (proj1 (X3_extraction_needs_every_slot
                         (selected_keys true true true) mock_store))
           mock_store_slots).
Defined.

Lemma X4_extraction_only_marks_witness :
  ∃ bp1 ps,
    create_param_list_from_build_params (selected_keys true true true)
      mock_store = Ok (bp1, ps) ∧
    (∀ r k, data <$> entry bp1 r k = data <$> entry mock_store r k) ∧
    (∀ r k, (r, k) ∉ slots (selected_keys true true true) →
            entry bp1 r k = entry mock_store r k) ∧
    Forall (λ t, requires_grad t = true) ps ∧
    create_param_list_from_build_params (selected_keys true true true) bp1
    = Ok (bp1, ps).
Proof.
  eexists _, _. split; [reflexivity|].
  apply (X4_extraction_only_marks (selected_keys true true true) mock_store).
  reflexivity.
Defined.

Lemma mock_table_groups r :
  r ∈ root_atoms →
  (true = true → is_Some (entry mock_table r "bond_lengths")) ∧
  (true = true → is_Some (entry mock_table r "sthetas") ∧
                 is_Some (entry mock_table r "cthetas")) ∧
  (true = true → is_Some (entry mock_table r "schis") ∧
                 is_Some (entry mock_table r "cchis")).
Proof.
  intros Hr. apply list_elem_of_In in Hr. simpl in Hr.
  destruct Hr as [<-|[<-|[<-|[]]]]; split_and!; intros _; try split;
    by eexists.
Qed.

Lemma X5_constructor_needs_the_selected_groups_witness :
  (∀ r, r ∈ root_atoms →
     (true = true → is_Some (entry mock_table r "bond_lengths")) ∧
     (true = true → is_Some (entry mock_table r "sthetas") ∧
                    is_Some (entry mock_table r "cthetas")) ∧
     (true = true → is_Some (entry mock_table r "schis") ∧
                    is_Some (entry mock_table r "cchis"))) ∧
  ∃ self,
    @__init__ (mock plateau) (@Protein (mock plateau) 0%nat None)
      true true true = Ok self.
Proof.
  split; [exact mock_table_groups|].
  exact (proj2 (proj1 (@X5_constructor_needs_the_selected_groups (mock plateau)
                         (@Protein (mock plateau) 0%nat None) true true true))
           mock_table_groups).
Defined.

Lemma X6_constructor_result_witness :
  ∃ self,
    @__init__ (mock plateau) (@Protein (mock plateau) 0%nat None)
      true true true = Ok self ∧
    _starting_build_params self = mock_table ∧
    protein self
    = @prepare_protein (mock plateau) mock_table
        (@Protein (mock plateau) 0%nat None) ∧
    keys_to_optimize self = selected_keys true true true ∧
    losses self = [] ∧
    length (params self) = 3 * length (selected_keys true true true) ∧
    (∀ i r k, slots (selected_keys true true true) !! i = Some (r, k) →
       ∃ t, params self !! i = Some t ∧
            entry (build_params self) r k = Some t ∧
            requires_grad t = true) ∧
    (∀ r k, (r, k) ∉ slots (selected_keys true true true) →
       entry (build_params self) r k = entry mock_table r k) ∧
    (∀ r, r ∈ root_atoms → true = true →
       ∃ t, entry mock_table r "bond_lengths" = Some t ∧
            entry (build_params self) r "bond_lengths"
            = Some (requires_grad_ t)).
Proof.
  exists (mock_self plateau). split; [exact (mock_bpo_Ok plateau)|].
  exact (@X6_constructor_result (mock plateau)
           (@Protein (mock plateau) 0%nat None) true true true
           (mock_self plateau) (mock_bpo_Ok plateau)).
Defined.

Lemma X7_first_order_returns_best_snapshot_witness :
  well_formed (mock_self small_drop) ∧
  keys_to_optimize (mock_self small_drop) = selected_keys true true true ∧
  ("SGD" = "SGD" ∨ "SGD" = "adam") ∧
  @SGD (mock small_drop) (params (mock_self small_drop)) mock_lr = Ok () ∧
  0 < 2 ∧
  ∃ self' bp hs obs j best b,
    optimize (mock_self small_drop) "SGD" mock_lr 2 = (self', Ok bp) ∧
    build_params self' = bp ∧
    build_params_history self' = params (mock_self small_drop) :: hs ∧
    length hs = 2%nat ∧
    losses self' = losses (mock_self small_drop) ++ obs ∧
    length obs = 2%nat ∧
    hs !! j = Some (map detach best) ∧ obs !! j = Some b ∧
    (∀ x, x ∈ obs → (b - epsilon <= x)%Q) ∧
    ∀ i r k, slots (selected_keys true true true) !! i = Some (r, k) →
      ∃ x, best !! i = Some x ∧ written bp r k x.
Proof.
  assert (keys_to_optimize (mock_self small_drop)
          = selected_keys true true true) as Hkeys by reflexivity.
  assert ("SGD" = "SGD" ∨ "SGD" = "adam") as Hopt by (by left).
  assert (@SGD (mock small_drop) (params (mock_self small_drop)) mock_lr
          = Ok ()) as Hctor by reflexivity.
  assert (0 < 2) as Hsteps by lia.
  split; [exact (mock_self_well_formed small_drop)|].
  split; [exact Hkeys|]. split; [exact Hopt|]. split; [exact Hctor|].
  split; [exact Hsteps|].
  exact (@X7_first_order_returns_best_snapshot (mock small_drop)
           (mock_self small_drop) true true true "SGD" mock_lr 2 ()
           (mock_self_well_formed small_drop) Hkeys Hopt Hctor Hsteps).
Defined.

Lemma X8_first_order_edge_cases_witness :
  ("SGD" = "SGD" ∨ "SGD" = "adam") ∧
  (@SGD (mock plateau) (params (mock_self plateau)) mock_lr = Ok () ∧
   keys_to_optimize (mock_self plateau) ≠ [] ∧
   (optimize (mock_self plateau) "SGD" mock_lr 0).2 = Raise TypeError) ∧
  ((params (mock_self_no_key plateau) = [] ∨ Qltb mock_lr 0 = true) ∧
   (optimize (mock_self_no_key plateau) "SGD" mock_lr 100).2
   = Raise ValueError ∧
   losses (optimize (mock_self_no_key plateau) "SGD" mock_lr 100).1
   = losses (mock_self_no_key plateau) ∧
   build_params_history (optimize (mock_self_no_key plateau) "SGD" mock_lr 100).1
   = [params (mock_self_no_key plateau)]).
Proof.
  assert ("SGD" = "SGD" ∨ "SGD" = "adam") as Hopt by (by left).
  assert (@SGD (mock plateau) (params (mock_self plateau)) mock_lr = Ok ())
    as Hctor by reflexivity.
  assert (keys_to_optimize (mock_self plateau) ≠ []) as Hne by done.
  assert (params (mock_self_no_key plateau) = [] ∨ Qltb mock_lr 0 = true)
    as Href by (left; reflexivity).
  split; [exact Hopt|]. split.
  - split; [exact Hctor|]. split; [exact Hne|].
    exact (proj1 (@X8_first_order_edge_cases (mock plateau)
                    (mock_self plateau) "SGD" mock_lr Hopt) () Hctor Hne).
  - split; [exact Href|].
    exact (proj2 (@X8_first_order_edge_cases (mock plateau)
                    (mock_self_no_key plateau) "SGD" mock_lr Hopt) 100 Href).
Defined.

Lemma X9_optimize_touches_selected_slots_only_witness :
  well_formed (mock_self plateau) ∧
  kept_by (mock_self plateau) (optimize (mock_self plateau) "adam" mock_lr 3).1 ∧
  well_formed (optimize (mock_self plateau) "adam" mock_lr 3).1.
Proof.
  split; [exact (mock_self_well_formed plateau)|].
  exact (@X9_optimize_touches_selected_slots_only (mock plateau)
           (mock_self plateau) "adam" mock_lr 3
           (mock_self_well_formed plateau)).
Defined.

End OptimizeBuildParamsFacts.

(** ** [openfold_loss.py] *)

Module OpenfoldLossFacts.
Import Py OpenfoldLoss.

Section Proteins.
Context `{Collaborators}.

Lemma scnprotein_from_model_reps_eq gt e :
  scnprotein_from_model_reps gt e
  = if has_X (sequence_of e) then None else Some (protein_of gt e).
Proof. done. Qed.

Lemma kept_app gt l1 l2 : kept gt (l1 ++ l2) = kept gt l1 ++ kept gt l2.
Proof.
  unfold kept, generate_scnproteins_from_model_reps.
  by rewrite map_app, omap_app.
Qed.

Lemma kept_cons gt e l :
  kept gt (e :: l)
  = if has_X (sequence_of e) then kept gt l else protein_of gt e :: kept gt l.
Proof.
  unfold kept, generate_scnproteins_from_model_reps. simpl.
  rewrite scnprotein_from_model_reps_eq. by destruct (has_X (sequence_of e)).
Qed.

Lemma kept_resolvable gt l :
  Forall (λ e, has_X (sequence_of e) = false) l →
  kept gt l = map (protein_of gt) l.
Proof.
  induction 1 as [|e l He _ IH]; [done|].
  rewrite kept_cons, He, IH. done.
Qed.

Lemma kept_no_X gt l : Forall (λ p, has_X (seq p) = false) (kept gt l).
Proof.
  induction l as [|e l IH]; [constructor|]. rewrite kept_cons.
  destruct (has_X (sequence_of e)) eqn:E; [done|]. by constructor.
Qed.

End Proteins.

(** *** Scalars *)

Lemma add_0_l x : add (Real 0) x = x.
Proof. destruct x; simpl; [f_equal; lra|done..]. Qed.

Lemma add_assoc x y z : add x (add y z) = add (add x y) z.
Proof. destruct x, y, z; simpl; try done. f_equal. lra. Qed.

Lemma foldl_add xs : ∀ a, foldl add a xs = add a (scalar_total xs).
Proof.
  unfold scalar_total. induction xs as [|x xs IH] using rev_ind; intros a.
  - simpl. destruct a; simpl; [f_equal; lra|done..].
  - rewrite !foldl_app. simpl. by rewrite IH, add_assoc.
Qed.

Lemma scalar_total_app xs ys :
  scalar_total (xs ++ ys) = add (scalar_total xs) (scalar_total ys).
Proof. unfold scalar_total at 1. by rewrite foldl_app, foldl_add. Qed.

Lemma scalar_total_cons x xs :
  scalar_total (x :: xs) = add x (scalar_total xs).
Proof.
  change (x :: xs) with ([x] ++ xs). rewrite scalar_total_app.
  change (scalar_total [x]) with (add (Real 0) x). by rewrite add_0_l.
Qed.

Lemma foldl_Rplus xs : ∀ a, foldl Rplus a xs = (a + total xs)%R.
Proof.
  unfold total. induction xs as [|x xs IH] using rev_ind; intros a.
  - simpl. lra.
  - rewrite !foldl_app. simpl. rewrite IH. lra.
Qed.

Lemma total_app xs ys : total (xs ++ ys) = (total xs + total ys)%R.
Proof. unfold total at 1. by rewrite foldl_app, foldl_Rplus. Qed.

Lemma total_cons x xs : total (x :: xs) = (x + total xs)%R.
Proof.
  change (x :: xs) with ([x] ++ xs). rewrite total_app. unfold total. simpl.
  lra.
Qed.

Lemma scalar_total_Real xs : scalar_total (map Real xs) = Real (total xs).
Proof.
  induction xs as [|x xs IH]; [done|].
  cbn [map]. by rewrite scalar_total_cons, total_cons, IH.
Qed.

(** Where the divisions are defined, what the loop adds is the real number
    that the three transforms give. *)
Lemma contribution_defined o n E :
  divisions_defined o n E → contribution o n E = Real (transformed o n E).
Proof.
  unfold divisions_defined, contribution, transformed, regularized, squashed,
    length_scaled.
  intros [Hn Hs].
  assert ((if scale_by_length o then div_number (Real E) (INR n) else Real E)
          = Real (if scale_by_length o then E / INR n else E)) as ->.
  { destruct (scale_by_length o); [|done]. simpl.
    destruct (Req_dec_T (INR n) 0) as [Hz|_]; [|done].
    specialize (Hn eq_refl). apply lt_0_INR in Hn. lra. }
  set (E1 := (if scale_by_length o then (E / INR n)%R else E)) in *.
  destruct (modified_sigmoid o).
  - destruct (modified_sigmoid_params o) as [[[a b] c] d].
    destruct (Hs eq_refl) as (Ha & Hc & Hsum). simpl.
    destruct (Req_dec_T c 0) as [?|_]; [done|]. simpl.
    destruct (Req_dec_T _ 0) as [Hz|_].
    + exfalso. apply Hsum. rewrite <- Hz. by rewrite (Rmult_comm E1 d).
    + simpl. rewrite (Rmult_comm E1 d).
      destruct (add_relu o); simpl; f_equal; unfold Rminus; reflexivity.
  - by destruct (add_relu o).
Qed.

Lemma divisions_defined_pos o n E a b c d :
  modified_sigmoid_params o = (a, b, c, d) →
  (scale_by_length o = true → 0 < n) →
  (modified_sigmoid o = true → (0 < a)%R ∧ c ≠ 0%R) →
  divisions_defined o n E.
Proof.
  intros Hp Hn Hs. split; [done|]. intros Hm. rewrite Hp.
  destruct (Hs Hm) as [Ha Hc]. split_and!; [lra|done|].
  pose proof (exp_pos (- (d * length_scaled o n E + b) / c)).
  pose proof (Rinv_0_lt_compat a Ha). unfold Rdiv at 1. lra.
Qed.

Section Loss.
Context `{EnergyOracle}.

Lemma loss_body_no_X o p acc E :
  has_X (seq p) = false →
  energy p (force_scaling o) (force_clipping_val o) = Some E →
  (modified_sigmoid o = true → sigmoid_a o ≠ 0%R) →
  loss_body o p acc
  = Returns (add acc.1 (contribution o (len p) E), (acc.2 + E)%R).
Proof.
  intros HX He Ha. destruct acc as [t r]. unfold loss_body, contribution.
  rewrite HX, He. unfold sigmoid_a in Ha.
  destruct (modified_sigmoid o); [|done].
  destruct (modified_sigmoid_params o) as [[[a b] c] d].
  destruct (Req_dec_T a 0) as [Hz|_]; [by destruct (Ha eq_refl)|done].
Qed.

Lemma loss_body_zero_division o p acc E :
  has_X (seq p) = false →
  energy p (force_scaling o) (force_clipping_val o) = Some E →
  modified_sigmoid o = true → sigmoid_a o = 0%R →
  loss_body o p acc = ZeroDivisionError.
Proof.
  intros HX He Hm Ha. destruct acc as [t r]. unfold loss_body.
  rewrite HX, He, Hm. unfold sigmoid_a in Ha.
  destruct (modified_sigmoid_params o) as [[[a b] c] d].
  by destruct (Req_dec_T a 0).
Qed.

Lemma loss_body_oracle_raises o p acc :
  has_X (seq p) = false →
  energy p (force_scaling o) (force_clipping_val o) = None →
  loss_body o p acc = OracleRaises.
Proof.
  intros HX He. destruct acc as [t r]. unfold loss_body. by rewrite HX, He.
Qed.

Lemma loss_loop_spec o ps es : ∀ acc,
  Forall (λ p, has_X (seq p) = false) ps →
  Forall2 (λ p e, energy p (force_scaling o) (force_clipping_val o) = Some e)
    ps es →
  (ps ≠ [] → modified_sigmoid o = true → sigmoid_a o ≠ 0%R) →
  loss_loop o ps acc
  = Returns (add acc.1
               (scalar_total
                  (zip_with (λ p e, contribution o (len p) e) ps es)),
             (acc.2 + total es)%R).
Proof.
  intros acc HX Hes Ha. revert acc HX.
  induction Hes as [|p e ps es He _ IH]; intros acc HX.
  - destruct acc as [t r]. simpl. f_equal. f_equal.
    + destruct t; simpl; [f_equal; lra|done..].
    + unfold total. simpl. lra.
  - apply Forall_cons in HX as [Hp HX].
    assert (modified_sigmoid o = true → sigmoid_a o ≠ 0%R) as Ha'
      by (by apply Ha).
    cbn [loss_loop]. rewrite (loss_body_no_X o p acc e Hp He Ha').
    cbn [mbind outcome_bind]. rewrite IH by auto. cbn [fst snd zip_with].
    by rewrite scalar_total_cons, total_cons, add_assoc, Rplus_assoc.
Qed.

Lemma energies_exist o ps :
  Forall (λ p, is_Some (energy p (force_scaling o) (force_clipping_val o))) ps →
  ∃ es, Forall2
    (λ p e, energy p (force_scaling o) (force_clipping_val o) = Some e) ps es.
Proof.
  induction 1 as [|p ps [e He] _ [es IH]]; [by exists []|].
  exists (e :: es). by constructor.
Qed.

Lemma openmm_loss_spec o batch es :
  Forall2 (λ p e, energy (add_hydrogens p) (force_scaling o)
                    (force_clipping_val o) = Some e) (kept false batch) es →
  (kept false batch ≠ [] → modified_sigmoid o = true → sigmoid_a o ≠ 0%R) →
  openmm_loss o batch
  = Returns (scalar_total
               (zip_with (λ p e, contribution o (len p) e)
                  (kept false batch) es),
             kept false batch, kept true batch, total es).
Proof.
  intros Hes Ha. unfold openmm_loss.
  assert (∀ ps es', zip_with (λ p e, contribution o (len p) e)
                      (map add_hydrogens ps) es'
                    = zip_with (λ p e, contribution o (len p) e) ps es') as Hz.
  { induction ps as [|p ps IH]; intros [|e es']; simpl; [done..|].
    by rewrite IH. }
  rewrite (loss_loop_spec o (map add_hydrogens (kept false batch)) es).
  - cbn [mbind outcome_bind fst snd]. by rewrite Hz, add_0_l, Rplus_0_l.
  - apply Forall_fmap. eapply Forall_impl; [apply kept_no_X|done].
  - by apply Forall2_fmap_l.
  - intros Hne. apply Ha. intros E. by rewrite E in Hne.
Qed.

(** Where every division is defined, the loss is a real number: the sum of
    the transformed energies. *)
Lemma contributions_defined o ps es :
  Forall2 (λ p E, divisions_defined o (len p) E) ps es →
  scalar_total (zip_with (λ p e, contribution o (len p) e) ps es)
  = Real (total (zip_with (λ p e, transformed o (len p) e) ps es)).
Proof.
  induction 1 as [|p e ps es Hd _ IH]; [done|].
  cbn [zip_with]. rewrite scalar_total_cons, total_cons, IH.
  by rewrite (contribution_defined o (len p) e Hd).
Qed.


(** C6. Of a batch with one protein that has an unknown residue next to [N]
    proteins that have none, the loss is computed although the oracle may
    raise on the protein with the unknown residue: that protein is left out,
    and the raw total is the sum of the energies of exactly the [N] others,
    which is also the loss itself when no transform is requested. (With the
    squashing requested, its first parameter is not zero: [1/a] raises
    otherwise.) *)
Theorem C6_unknown_residue_is_skipped (o : options)
    (before after : list example) (unknown : example) :
  has_X (sequence_of unknown) = true →
  Forall (λ e, has_X (sequence_of e) = false) (before ++ after) →
  Forall (λ e, is_Some (energy (add_hydrogens (protein_of false e))
                          (force_scaling o) (force_clipping_val o)))
    (before ++ after) →
  (modified_sigmoid o = true → sigmoid_a o ≠ 0%R) →
  ∃ es loss,
    length es = length (before ++ after) ∧
    Forall2 (λ e E, energy (add_hydrogens (protein_of false e))
                      (force_scaling o) (force_clipping_val o) = Some E)
      (before ++ after) es ∧
    openmm_loss o (before ++ unknown :: after)
    = Returns (loss, map (protein_of false) (before ++ after),
               map (protein_of true) (before ++ after), total es) ∧
    openmm_loss o (before ++ unknown :: after) = openmm_loss o (before ++ after) ∧
    (scale_by_length o = false → modified_sigmoid o = false →
     add_relu o = false → loss = Real (total es)).
Proof.
  intros HX Hres Hdef Ha.
  assert (∀ gt, kept gt (before ++ unknown :: after)
                = map (protein_of gt) (before ++ after)) as Hkept.
  { intros gt. rewrite kept_app, kept_cons, HX, <- kept_app.
    by apply kept_resolvable. }
  destruct (energies_exist o
              (map (λ e, add_hydrogens (protein_of false e)) (before ++ after)))
    as [es Hes]; [by apply Forall_fmap|].
  apply Forall2_fmap_l in Hes.
  assert (Forall2 (λ p E, energy (add_hydrogens p) (force_scaling o)
                            (force_clipping_val o) = Some E)
            (map (protein_of false) (before ++ after)) es) as Hes'.
  { by apply Forall2_fmap_l. }
  exists es, (scalar_total (zip_with (λ p e, contribution o (len p) e)
                              (map (protein_of false) (before ++ after)) es)).
  split_and!.
  - symmetry. by eapply Forall2_length.
  - done.
  - rewrite (openmm_loss_spec o _ es); rewrite ?Hkept;
      [reflexivity|exact Hes'|auto].
  - rewrite (openmm_loss_spec o (before ++ unknown :: after) es),
      (openmm_loss_spec o (before ++ after) es);
      rewrite ?Hkept, ?kept_resolvable by exact Hres;
      [reflexivity|exact Hes'|auto|exact Hes'|auto].
  - intros H1 H2 H3. rewrite <- scalar_total_Real. f_equal. clear Hes.
    induction Hes' as [|p e ps es' _ _ IH]; simpl; [done|].
    rewrite IH. f_equal. unfold contribution. by rewrite H1, H2, H3.
Qed.

End Loss.

(** *** The properties on the mocked batch *)

Lemma sigmoid_a_one (o : options) b c d :
  modified_sigmoid_params o = (1%R, b, c, d) →
  modified_sigmoid o = true → sigmoid_a o ≠ 0%R.
Proof. unfold sigmoid_a. intros -> _. exact R1_neq_R0. Qed.




Lemma C6_unknown_residue_is_skipped_witness :
  has_X (@sequence_of mock_reps unresolved) = true ∧
  Forall (λ e, has_X (@sequence_of mock_reps e) = false)
    ([resolvable_1] ++ [resolvable_2]) ∧
  Forall (λ e, is_Some (@energy mock_reps mock_oracle
                          (add_hydrogens (protein_of false e))
                          (force_scaling default_options)
                          (force_clipping_val default_options)))
    ([resolvable_1] ++ [resolvable_2]) ∧
  (modified_sigmoid default_options = true →
   sigmoid_a default_options ≠ 0%R) ∧
  ∃ es loss,
    length es = length ([resolvable_1] ++ [resolvable_2]) ∧
    Forall2 (λ e E, @energy mock_reps mock_oracle
                      (add_hydrogens (protein_of false e))
                      (force_scaling default_options)
                      (force_clipping_val default_options) = Some E)
      ([resolvable_1] ++ [resolvable_2]) es ∧
    @openmm_loss mock_reps mock_oracle default_options
      ([resolvable_1] ++ unresolved :: [resolvable_2])
    = Returns (loss,
               map (protein_of false) ([resolvable_1] ++ [resolvable_2]),
               map (protein_of true) ([resolvable_1] ++ [resolvable_2]),
               total es) ∧
    @openmm_loss mock_reps mock_oracle default_options
      ([resolvable_1] ++ unresolved :: [resolvable_2])
    = @openmm_loss mock_reps mock_oracle default_options
        ([resolvable_1] ++ [resolvable_2]) ∧
    (scale_by_length default_options = false →
     modified_sigmoid default_options = false →
     add_relu default_options = false → loss = Real (total es)).
Proof.
  assert (has_X (@sequence_of mock_reps unresolved) = true) as HX
    by reflexivity.
  assert (Forall (λ e, has_X (@sequence_of mock_reps e) = false)
            ([resolvable_1] ++ [resolvable_2])) as Hres
    by (repeat constructor).
  assert (Forall (λ e, is_Some (@energy mock_reps mock_oracle
                          (add_hydrogens (protein_of false e))
                          (force_scaling default_options)
                          (force_clipping_val default_options)))
            ([resolvable_1] ++ [resolvable_2])) as Hdef
    by (repeat constructor; by eexists).
  assert (modified_sigmoid default_options = true →
          sigmoid_a default_options ≠ 0%R) as Ha
    by (apply (sigmoid_a_one default_options 1 1 1); reflexivity).
  split_and!; [exact HX|exact Hres|exact Hdef|exact Ha|].
  exact (@C6_unknown_residue_is_skipped mock_reps mock_oracle default_options
           [resolvable_1] [resolvable_2] unresolved HX Hres Hdef Ha).
Defined.

(** *** The batch as a whole *)

Section Batch.
Context `{EnergyOracle}.

Lemma kept_filter gt batch :
  kept gt batch
  = map (protein_of gt)
      (List.filter (λ e, negb (has_X (sequence_of e))) batch).
Proof.
  induction batch as [|e batch IH]; [done|]. rewrite kept_cons. simpl.
  destruct (has_X (sequence_of e)); simpl; by rewrite IH.
Qed.

(** The three ways the loop can go on its first protein, and what each
    means for the loop as a whole. *)
Lemma loss_loop_cases o ps acc :
  Forall (λ p, has_X (seq p) = false) ps →
  match loss_loop o ps acc with
  | Returns _ =>
      Forall (λ p, is_Some (energy p (force_scaling o) (force_clipping_val o)))
        ps ∧
      (ps ≠ [] → modified_sigmoid o = true → sigmoid_a o ≠ 0%R)
  | ZeroDivisionError =>
      modified_sigmoid o = true ∧ sigmoid_a o = 0%R ∧
      ∃ p rest, ps = p :: rest ∧
        is_Some (energy p (force_scaling o) (force_clipping_val o))
  | OracleRaises =>
      ∃ p, p ∈ ps ∧ energy p (force_scaling o) (force_clipping_val o) = None
  end.
Proof.
  intros HX. revert acc. induction HX as [|p ps Hp HX IH]; intros acc.
  - simpl. split; [constructor|done].
  - cbn [loss_loop].
    destruct (energy p (force_scaling o) (force_clipping_val o)) as [E|] eqn:He.
    2:{ rewrite (loss_body_oracle_raises o p acc Hp He). simpl.
        exists p. split; [left|done]. }
    destruct (modified_sigmoid o) eqn:Hm.
    + destruct (Req_dec_T (sigmoid_a o) 0) as [Hz|Hnz].
      * rewrite (loss_body_zero_division o p acc E Hp He Hm Hz). simpl.
        split_and!; [done..|]. exists p, ps. split; [done|].
        rewrite He. by eexists.
      * rewrite (loss_body_no_X o p acc E Hp He) by done.
        cbn [mbind outcome_bind]. specialize (IH (add acc.1 (contribution o (len p) E), (acc.2 + E)%R)).
        destruct (loss_loop o ps _) as [acc'| |].
        -- destruct IH as [Hall _]. split; [|done].
           constructor; [rewrite He; by eexists|done].
        -- destruct IH as (q & Hq & Hn). exists q. split; [by right|done].
        -- by destruct IH as (_ & Hz & _).
    + rewrite (loss_body_no_X o p acc E Hp He) by (by rewrite Hm).
      cbn [mbind outcome_bind]. specialize (IH (add acc.1 (contribution o (len p) E), (acc.2 + E)%R)).
      destruct (loss_loop o ps _) as [acc'| |].
      * destruct IH as [Hall _]. split; [|by intros _ ?].
        constructor; [rewrite He; by eexists|done].
      * destruct IH as (q & Hq & Hn). exists q. split; [by right|done].
      * by destruct IH as (Hm' & _).
Qed.

Lemma openmm_loss_cases o batch :
  match openmm_loss o batch with
  | Returns _ =>
      Forall (λ p, is_Some (energy (add_hydrogens p) (force_scaling o)
                              (force_clipping_val o))) (kept false batch) ∧
      (kept false batch ≠ [] → modified_sigmoid o = true → sigmoid_a o ≠ 0%R)
  | ZeroDivisionError =>
      modified_sigmoid o = true ∧ sigmoid_a o = 0%R ∧
      ∃ p rest, kept false batch = p :: rest ∧
        is_Some (energy (add_hydrogens p) (force_scaling o)
                   (force_clipping_val o))
  | OracleRaises =>
      ∃ p, p ∈ kept false batch ∧
        energy (add_hydrogens p) (force_scaling o) (force_clipping_val o) = None
  end.
Proof.
  unfold openmm_loss.
  pose proof (loss_loop_cases o (map add_hydrogens (kept false batch))
                (Real 0, 0%R)) as Hc.
  destruct (loss_loop o _ _) as [[t raw]| |]; cbn [mbind outcome_bind].
  - destruct Hc as [Hall Ha].
    { apply Forall_fmap. eapply Forall_impl; [apply kept_no_X|done]. }
    split; [by rewrite Forall_fmap in Hall|].
    intros Hne. apply Ha. by destruct (kept false batch).
  - destruct Hc as (q & (p & -> & Hp)%list_elem_of_fmap & Hn).
    { apply Forall_fmap. eapply Forall_impl; [apply kept_no_X|done]. }
    by exists p.
  - destruct Hc as (Hm & Hz & q & rest & Heq & Hq).
    { apply Forall_fmap. eapply Forall_impl; [apply kept_no_X|done]. }
    split_and!; [done..|].
    destruct (kept false batch) as [|p ps]; [done|].
    injection Heq as <- <-. by exists p, ps.
Qed.

Lemma openmm_loss_zero_division o batch p rest E :
  kept false batch = p :: rest →
  energy (add_hydrogens p) (force_scaling o) (force_clipping_val o) = Some E →
  modified_sigmoid o = true → sigmoid_a o = 0%R →
  openmm_loss o batch = ZeroDivisionError.
Proof.
  intros Hk HE Hm Hz. unfold openmm_loss. rewrite Hk. cbn [map loss_loop].
  rewrite (loss_body_zero_division o (add_hydrogens p) _ E); [done| |done..].
  pose proof (kept_no_X false batch) as HX. rewrite Hk in HX.
  by apply Forall_cons in HX as [? _].
Qed.

Lemma openmm_loss_energies o batch r :
  openmm_loss o batch = Returns r →
  (kept false batch ≠ [] → modified_sigmoid o = true → sigmoid_a o ≠ 0%R) ∧
  ∃ es, Forall2 (λ p e, energy (add_hydrogens p) (force_scaling o)
                          (force_clipping_val o) = Some e)
          (kept false batch) es ∧
        r = (scalar_total (zip_with (λ p e, contribution o (len p) e)
                             (kept false batch) es),
             kept false batch, kept true batch, total es).
Proof.
  intros Hl. pose proof (openmm_loss_cases o batch) as Hc. rewrite Hl in Hc.
  destruct Hc as [Hdef Ha]. split; [done|].
  destruct (energies_exist o (map add_hydrogens (kept false batch)))
    as [es Hes]; [by apply Forall_fmap|].
  apply Forall2_fmap_l in Hes. exists es. split; [done|].
  rewrite (openmm_loss_spec o batch es Hes Ha) in Hl. congruence.
Qed.

(** X10. The two lists returned next to the loss are aligned: both are
    built from the same elements of the batch, those whose sequence has no
    unknown residue, in batch order; the first holds the predicted
    coordinates and the second the ground-truth coordinates of the same
    element, under the same sequence, mask and name, and neither carries
    hydrogens. *)
Theorem X10_returned_lists_are_aligned (o : options) (batch : list example)
    (loss : scalar) (raw : R) (no_hy gt : list SCNProtein) :
  openmm_loss o batch = Returns (loss, no_hy, gt, raw) →
  no_hy = map (protein_of false)
            (List.filter (λ e, negb (has_X (sequence_of e))) batch) ∧
  gt = map (protein_of true)
         (List.filter (λ e, negb (has_X (sequence_of e))) batch) ∧
  Forall2 (λ p q, seq p = seq q ∧ mask p = mask q ∧ id p = id q ∧
                  has_X (seq p) = false ∧
                  hcoords p = None ∧ hcoords q = None) no_hy gt.
Proof.
  intros (_ & es & _ & Heq)%openmm_loss_energies. simplify_eq.
  rewrite !kept_filter. split_and!; [done..|].
  induction batch as [|e batch IH]; simpl; [constructor|].
  destruct (has_X (sequence_of e)) eqn:E; simpl; [done|].
  constructor; [|done]. by split_and!.
Qed.

(** X11. How a call ends. The loss is returned exactly when the energy
    oracle answers on every protein that is kept, hydrogens added, and, if
    the squashing is requested with a first parameter [a = 0], no protein
    is kept at all; an element with an unknown residue is never put to the
    oracle. The call raises [ZeroDivisionError] exactly when the squashing
    is requested with [a = 0] and the oracle answers on the first protein
    kept. *)
Theorem X11_loss_defined_iff_oracle_answers (o : options)
    (batch : list example) :
  ((∃ r, openmm_loss o batch = Returns r) ↔
   (∀ e, e ∈ batch → has_X (sequence_of e) = false →
      is_Some (energy (add_hydrogens (protein_of false e)) (force_scaling o)
                 (force_clipping_val o))) ∧
   (modified_sigmoid o = true → sigmoid_a o = 0%R →
    ∀ e, e ∈ batch → has_X (sequence_of e) = true)) ∧
  (openmm_loss o batch = ZeroDivisionError ↔
   modified_sigmoid o = true ∧ sigmoid_a o = 0%R ∧
   ∃ p rest, kept false batch = p :: rest ∧
     is_Some (energy (add_hydrogens p) (force_scaling o)
                (force_clipping_val o))).
Proof.
  assert (Forall (λ p, is_Some (energy (add_hydrogens p) (force_scaling o)
                                  (force_clipping_val o))) (kept false batch) ↔
          ∀ e, e ∈ batch → has_X (sequence_of e) = false →
            is_Some (energy (add_hydrogens (protein_of false e))
                       (force_scaling o) (force_clipping_val o))) as Hall.
  { rewrite kept_filter, Forall_fmap, Forall_forall. split.
    - intros Hall e He HX. apply (Hall e). apply list_elem_of_In.
      apply filter_In. split; [by apply list_elem_of_In|by rewrite HX].
    - intros Hall e [He HX]%list_elem_of_In%filter_In. simpl.
      apply Hall; [by apply list_elem_of_In|]. by destruct (has_X _). }
  assert (kept false batch = [] ↔
          ∀ e, e ∈ batch → has_X (sequence_of e) = true) as Hnone.
  { rewrite kept_filter. split.
    - intros Hnil e He. destruct (has_X (sequence_of e)) eqn:HX; [done|].
      assert (protein_of false e
              ∈ map (protein_of false)
                  (List.filter (λ e, negb (has_X (sequence_of e))) batch))
        as Hin.
      { apply list_elem_of_fmap. exists e. split; [done|].
        apply list_elem_of_In, filter_In.
        split; [by apply list_elem_of_In|by rewrite HX]. }
      rewrite Hnil in Hin. by apply elem_of_nil in Hin.
    - intros HallX.
      destruct (List.filter _ batch) as [|e l] eqn:Hf; [done|].
      assert (In e (List.filter (λ e, negb (has_X (sequence_of e))) batch))
        as [He HX]%filter_In by (rewrite Hf; by left).
      apply list_elem_of_In, HallX in He. by rewrite He in HX. }
  pose proof (openmm_loss_cases o batch) as Hc. split.
  - rewrite <- Hall, <- Hnone. split.
    + intros [r Hr]. rewrite Hr in Hc. destruct Hc as [Hdef Ha].
      split; [done|]. intros Hm Hz.
      destruct (kept false batch) as [|p ps]; [done|].
      exfalso. by apply Ha.
    + intros [Hdef Hz].
      destruct (energies_exist o (map add_hydrogens (kept false batch)))
        as [es Hes]; [by apply Forall_fmap|].
      apply Forall2_fmap_l in Hes.
      rewrite (openmm_loss_spec o batch es Hes); [by eexists|].
      intros Hne Hm Ha. apply Hne. by apply Hz.
  - split.
    + intros Hz. by rewrite Hz in Hc.
    + intros (Hm & Hz & p & rest & Hk & [E HE]).
      by apply (openmm_loss_zero_division o batch p rest E).
Qed.

(** X12. The loss of a batch is the sum of the losses of its parts: if the
    loss is returned for two batches, it is returned for their
    concatenation, the two totals add up and the two lists are the
    concatenations. *)
Theorem X12_loss_is_additive (o : options) (batch1 batch2 : list example)
    (l1 l2 : scalar) (r1 r2 : R) (n1 n2 g1 g2 : list SCNProtein) :
  openmm_loss o batch1 = Returns (l1, n1, g1, r1) →
  openmm_loss o batch2 = Returns (l2, n2, g2, r2) →
  openmm_loss o (batch1 ++ batch2)
  = Returns (add l1 l2, n1 ++ n2, g1 ++ g2, (r1 + r2)%R).
Proof.
  intros (Ha1 & es1 & Hes1 & Heq1)%openmm_loss_energies
         (Ha2 & es2 & Hes2 & Heq2)%openmm_loss_energies.
  simplify_eq.
  rewrite (openmm_loss_spec o (batch1 ++ batch2) (es1 ++ es2)).
  - rewrite !kept_app, total_app.
    rewrite zip_with_app by (by eapply Forall2_length).
    by rewrite scalar_total_app.
  - rewrite kept_app. by apply Forall2_app.
  - rewrite kept_app. intros Hne.
    destruct (kept false batch1) as [|p ps]; [by apply Ha2|by apply Ha1].
Qed.

(** X13. The transform options change the loss only: the two lists and the
    raw total depend on the batch and on the two force arguments alone, and
    with no transform requested the loss is the raw total. (The other
    options do not request the squashing with a first parameter [a = 0],
    for which [1/a] raises.) *)
Theorem X13_transforms_change_the_loss_only (o o' : options)
    (batch : list example) (loss : scalar) (raw : R)
    (no_hy gt : list SCNProtein) :
  openmm_loss o batch = Returns (loss, no_hy, gt, raw) →
  force_scaling o' = force_scaling o →
  force_clipping_val o' = force_clipping_val o →
  (modified_sigmoid o' = true → sigmoid_a o' ≠ 0%R) →
  ∃ loss', openmm_loss o' batch = Returns (loss', no_hy, gt, raw) ∧
    (scale_by_length o' = false → modified_sigmoid o' = false →
     add_relu o' = false → loss' = Real raw).
Proof.
  intros (_ & es & Hes & Heq)%openmm_loss_energies Hfs Hfc Ha. simplify_eq.
  rewrite <- Hfs, <- Hfc in Hes.
  rewrite (openmm_loss_spec o' batch es Hes) by auto.
  eexists. split; [done|].
  intros H1 H2 H3. clear Hfs Hfc. rewrite <- scalar_total_Real. f_equal.
  induction Hes as [|p e ps es' _ _ IH]; [done|].
  simpl. rewrite IH. f_equal. unfold contribution. by rewrite H1, H2, H3.
Qed.

End Batch.

(** *** The squashing *)

Lemma squash_bounds (a b c d E : R) :
  (0 < a)%R →
  (1 - a < / (1 / a + exp (- (d * E + b) / c)) - (a - 1) < 1)%R.
Proof.
  intros Ha. pose proof (exp_pos (- (d * E + b) / c)) as Hx.
  set (x := exp (- (d * E + b) / c)) in *.
  pose proof (Rinv_0_lt_compat a Ha) as Hia.
  assert (1 / a = / a)%R as -> by lra.
  assert (0 < / a + x)%R as HD by lra.
  pose proof (Rinv_0_lt_compat _ HD) as Hy.
  assert (/ (/ a + x) < a)%R as Hlt.
  { rewrite <- (Rinv_inv a) at 2. apply Rinv_lt_contravar; [|lra].
    apply Rmult_lt_0_compat; lra. }
  lra.
Qed.

Lemma exp_le (x y : R) : (x <= y)%R → (exp x <= exp y)%R.
Proof.
  intros [Hlt| ->]; [|lra]. left. by apply exp_increasing.
Qed.

Lemma squash_mono (a b c d E1 E2 : R) :
  (0 < a)%R → (0 < c)%R → (0 <= d)%R → (E1 <= E2)%R →
  (/ (1 / a + exp (- (d * E1 + b) / c)) - (a - 1)
   <= / (1 / a + exp (- (d * E2 + b) / c)) - (a - 1))%R.
Proof.
  intros Ha Hc Hd HE.
  assert (- (d * E2 + b) / c <= - (d * E1 + b) / c)%R as Harg.
  { unfold Rdiv. apply Rmult_le_compat_r; [left; by apply Rinv_0_lt_compat|].
    nra. }
  apply exp_le in Harg.
  pose proof (exp_pos (- (d * E2 + b) / c)) as Hx2.
  pose proof (Rinv_0_lt_compat a Ha) as Hia.
  assert (1 / a = / a)%R as -> by lra.
  assert (/ (/ a + exp (- (d * E1 + b) / c))
          <= / (/ a + exp (- (d * E2 + b) / c)))%R; [|lra].
  apply Rinv_le_contravar; lra.
Qed.

Section Squashing.
Context `{EnergyOracle}.

Lemma transformed_squashed_bounds o n E a b c d :
  modified_sigmoid o = true → add_relu o = false →
  modified_sigmoid_params o = (a, b, c, d) → (0 < a)%R →
  (1 - a < transformed o n E < 1)%R.
Proof.
  intros Hs Hr Hp Ha. unfold transformed, regularized, squashed.
  rewrite Hs, Hr, Hp. by apply squash_bounds.
Qed.

(** X14. With the squashing requested, a positive first parameter [a], a
    third parameter [c] other than zero and no regularization, the loss is
    a real number and every kept protein adds a value between [1 - a] and
    [1] to it, whatever its energy: the loss of a batch lies between
    [(1 - a)·n] and [n] for the [n] proteins kept. (A sequence is not empty
    when the energy is divided by its length. The bounds are not strict: in
    floating point the exponential reaches zero and infinity, and the value
    added the two ends.) *)
Theorem X14_squashed_loss_is_bounded (o : options) (batch : list example)
    (loss : scalar) (raw a b c d : R) (no_hy gt : list SCNProtein) :
  openmm_loss o batch = Returns (loss, no_hy, gt, raw) →
  modified_sigmoid o = true → add_relu o = false →
  modified_sigmoid_params o = (a, b, c, d) →
  (0 < a)%R → c ≠ 0%R →
  (scale_by_length o = true → Forall (λ p, 0 < len p) no_hy) →
  ∃ l : R, loss = Real l ∧
    ((1 - a) * INR (length no_hy) <= l <= INR (length no_hy))%R.
Proof.
  intros (_ & es & Hes & Heq)%openmm_loss_energies Hs Hr Hp Ha Hc Hlen.
  simplify_eq.
  assert (Forall2 (λ p E, divisions_defined o (len p) E)
            (kept false batch) es) as Hdd.
  { assert (Forall (λ p, scale_by_length o = true → 0 < len p)
              (kept false batch)) as Hl.
    { destruct (scale_by_length o); [|by apply Forall_forall].
      eapply Forall_impl; [by apply Hlen|done]. }
    clear Hlen. induction Hes as [|p e ps es' _ _ IH]; [constructor|].
    apply Forall_cons in Hl as [Hp1 Hl]. constructor; [|by apply IH].
    by apply (divisions_defined_pos o (len p) e a b c d). }
  rewrite (contributions_defined o _ es Hdd). eexists. split; [done|].
  clear Hdd Hlen. induction Hes as [|p e ps es' _ _ IH].
  - simpl. unfold total. simpl. lra.
  - cbn [zip_with]. rewrite total_cons, length_cons, S_INR.
    pose proof (transformed_squashed_bounds o (len p) e a b c d Hs Hr Hp Ha).
    lra.
Qed.

(** X15. A lower energy never gives a higher loss. Of two proteins without
    unknown residue and of the same length, the one on which the oracle
    gives the lower energy adds no more to the loss, and no more to the raw
    total, than the other; with the squashing requested this takes
    parameters [a > 0], [c > 0] and [d >= 0], and with the division by the
    length a non-empty sequence. *)
Theorem X15_lower_energy_lower_loss (o : options) (p1 p2 : SCNProtein)
    (acc : R * R) (E1 E2 a b c d : R) :
  has_X (seq p1) = false → has_X (seq p2) = false → len p1 = len p2 →
  energy p1 (force_scaling o) (force_clipping_val o) = Some E1 →
  energy p2 (force_scaling o) (force_clipping_val o) = Some E2 →
  (E1 <= E2)%R →
  modified_sigmoid_params o = (a, b, c, d) →
  (modified_sigmoid o = true → (0 < a)%R ∧ (0 < c)%R ∧ (0 <= d)%R) →
  (scale_by_length o = true → 0 < len p1) →
  ∃ t1 r1 t2 r2 : R,
    loss_body o p1 (Real acc.1, acc.2) = Returns (Real t1, r1) ∧
    loss_body o p2 (Real acc.1, acc.2) = Returns (Real t2, r2) ∧
    (t1 <= t2)%R ∧ (r1 <= r2)%R.
Proof.
  intros HX1 HX2 Hlen He1 He2 HE Hp Hsig Hn.
  assert (modified_sigmoid o = true → sigmoid_a o ≠ 0%R) as Hnz.
  { intros Hm. destruct (Hsig Hm) as (? & _). unfold sigmoid_a. rewrite Hp.
    lra. }
  assert (∀ E, divisions_defined o (len p1) E) as Hdd.
  { intros E. apply (divisions_defined_pos o (len p1) E a b c d);
      [done|done|]. intros Hm. destruct (Hsig Hm) as (? & ? & _).
    split; [done|lra]. }
  rewrite (loss_body_no_X o p1 _ E1 HX1 He1 Hnz),
    (loss_body_no_X o p2 _ E2 HX2 He2 Hnz). cbn [fst snd].
  rewrite <- Hlen, !contribution_defined by done. cbn [add].
  eexists _, _, _, _. split; [done|]. split; [done|]. split; [|lra].
  apply Rplus_le_compat_l.
  unfold transformed, regularized, squashed, length_scaled. rewrite Hp.
  assert ((if scale_by_length o then E1 / INR (len p1) else E1)
          <= (if scale_by_length o then E2 / INR (len p1) else E2))%R as HE'.
  { destruct (scale_by_length o); [|done].
    specialize (Hn eq_refl). apply lt_0_INR in Hn.
    unfold Rdiv. apply Rmult_le_compat_r; [|done].
    left. by apply Rinv_0_lt_compat. }
  set (F1 := if scale_by_length o then _ else E1) in *.
  set (F2 := if scale_by_length o then _ else E2) in *.
  assert ((if modified_sigmoid o
           then / (1 / a + exp (- (d * F1 + b) / c)) - (a - 1) else F1)
          <= (if modified_sigmoid o
              then / (1 / a + exp (- (d * F2 + b) / c)) - (a - 1) else F2))%R
    as HS.
  { destruct (modified_sigmoid o); [|done].
    destruct (Hsig eq_refl) as (? & ? & ?). by apply squash_mono. }
  destruct (add_relu o); [|done].
  assert (0 < / 10 ^ 12)%R by (apply Rinv_0_lt_compat; lra).
  nra.
Qed.

End Squashing.

(** *** The further properties on the mocked batch *)

Lemma mock_oracle_answers (o : options) (e : @example mock_reps) :
  has_X (@sequence_of mock_reps e) = false →
  is_Some (@energy mock_reps mock_oracle (add_hydrogens (protein_of false e))
             (force_scaling o) (force_clipping_val o)).
Proof.
  intros HX. simpl. unfold sequence_of in HX. simpl in HX. rewrite HX.
  by eexists.
Qed.

Lemma mock_openmm_loss (o : options) (batch : list (@example mock_reps)) :
  (modified_sigmoid o = true → sigmoid_a o ≠ 0%R) →
  ∃ loss no_hy gt raw,
    @openmm_loss mock_reps mock_oracle o batch
    = Returns (loss, no_hy, gt, raw).
Proof.
  intros Ha.
  destruct (@energies_exist mock_reps mock_oracle o
              (map add_hydrogens (kept false batch))) as [es Hes].
  { apply Forall_fmap. rewrite kept_filter. apply Forall_fmap.
    apply Forall_forall. intros e [_ HX]%list_elem_of_In%filter_In.
    apply mock_oracle_answers. by destruct (has_X _). }
  apply Forall2_fmap_l in Hes.
  rewrite (@openmm_loss_spec mock_reps mock_oracle o batch es Hes) by auto.
  by eexists _, _, _, _.
Qed.

Lemma X10_returned_lists_are_aligned_witness :
  ∃ loss no_hy gt raw,
    @openmm_loss mock_reps mock_oracle default_options
      [resolvable_1; unresolved; resolvable_2]
    = Returns (loss, no_hy, gt, raw) ∧
    no_hy = map (protein_of false)
              (List.filter (λ e, negb (has_X (@sequence_of mock_reps e)))
                 [resolvable_1; unresolved; resolvable_2]) ∧
    gt = map (protein_of true)
           (List.filter (λ e, negb (has_X (@sequence_of mock_reps e)))
              [resolvable_1; unresolved; resolvable_2]) ∧
    Forall2 (λ p q, seq p = seq q ∧ mask p = mask q ∧ id p = id q ∧
                    has_X (seq p) = false ∧
                    hcoords p = None ∧ hcoords q = None) no_hy gt.
Proof.
  destruct (mock_openmm_loss default_options
              [resolvable_1; unresolved; resolvable_2]
              (sigmoid_a_one default_options 1 1 1 eq_refl))
    as (loss & no_hy & gt & raw & E).
  exists loss, no_hy, gt, raw. split; [exact E|].
  exact (@X10_returned_lists_are_aligned mock_reps mock_oracle default_options
           [resolvable_1; unresolved; resolvable_2] loss raw no_hy gt E).
Defined.

Lemma X11_loss_defined_iff_oracle_answers_witness :
  ((∀ e, e ∈ [resolvable_1; unresolved; resolvable_2] →
      has_X (@sequence_of mock_reps e) = false →
      is_Some (@energy mock_reps mock_oracle
                 (add_hydrogens (protein_of false e))
                 (force_scaling default_options)
                 (force_clipping_val default_options))) ∧
   (modified_sigmoid default_options = true →
    sigmoid_a default_options = 0%R →
    ∀ e, e ∈ [resolvable_1; unresolved; resolvable_2] →
      has_X (@sequence_of mock_reps e) = true)) ∧
  (∃ r, @openmm_loss mock_reps mock_oracle default_options
          [resolvable_1; unresolved; resolvable_2] = Returns r) ∧
  (modified_sigmoid squash_zero = true ∧ sigmoid_a squash_zero = 0%R ∧
   ∃ p rest,
     @kept mock_reps false [resolvable_1; unresolved; resolvable_2]
     = p :: rest ∧
     is_Some (@energy mock_reps mock_oracle (add_hydrogens p)
                (force_scaling squash_zero) (force_clipping_val squash_zero))) ∧
  @openmm_loss mock_reps mock_oracle squash_zero
    [resolvable_1; unresolved; resolvable_2] = ZeroDivisionError.
Proof.
  assert ((∀ e, e ∈ [resolvable_1; unresolved; resolvable_2] →
             has_X (@sequence_of mock_reps e) = false →
             is_Some (@energy mock_reps mock_oracle
                        (add_hydrogens (protein_of false e))
                        (force_scaling default_options)
                        (force_clipping_val default_options))) ∧
          (modified_sigmoid default_options = true →
           sigmoid_a default_options = 0%R →
           ∀ e, e ∈ [resolvable_1; unresolved; resolvable_2] →
             has_X (@sequence_of mock_reps e) = true)) as Hall.
  { split; [intros e _; apply mock_oracle_answers|]. intros [=]. }
  assert (modified_sigmoid squash_zero = true ∧ sigmoid_a squash_zero = 0%R ∧
          ∃ p rest,
            @kept mock_reps false [resolvable_1; unresolved; resolvable_2]
            = p :: rest ∧
            is_Some (@energy mock_reps mock_oracle (add_hydrogens p)
                       (force_scaling squash_zero)
                       (force_clipping_val squash_zero))) as Hzero.
  { split; [reflexivity|]. split; [reflexivity|].
    eexists _, _. split; [reflexivity|]. by eexists. }
  split; [exact Hall|]. split.
  - exact (proj2 (proj1 (@X11_loss_defined_iff_oracle_answers mock_reps
                           mock_oracle default_options
                           [resolvable_1; unresolved; resolvable_2])) Hall).
  - split; [exact Hzero|].
    exact (proj2 (proj2 (@X11_loss_defined_iff_oracle_answers mock_reps
                           mock_oracle squash_zero
                           [resolvable_1; unresolved; resolvable_2])) Hzero).
Defined.

Lemma X12_loss_is_additive_witness :
  ∃ l1 l2 r1 r2 n1 n2 g1 g2,
    @openmm_loss mock_reps mock_oracle all_options [resolvable_1]
    = Returns (l1, n1, g1, r1) ∧
    @openmm_loss mock_reps mock_oracle all_options [unresolved; resolvable_2]
    = Returns (l2, n2, g2, r2) ∧
    @openmm_loss mock_reps mock_oracle all_options
      ([resolvable_1] ++ [unresolved; resolvable_2])
    = Returns (add l1 l2, n1 ++ n2, g1 ++ g2, (r1 + r2)%R).
Proof.
  destruct (mock_openmm_loss all_options [resolvable_1]
              (sigmoid_a_one all_options 1 1 1 eq_refl))
    as (l1 & n1 & g1 & r1 & E1).
  destruct (mock_openmm_loss all_options [unresolved; resolvable_2]
              (sigmoid_a_one all_options 1 1 1 eq_refl))
    as (l2 & n2 & g2 & r2 & E2).
  exists l1, l2, r1, r2, n1, n2, g1, g2. split; [exact E1|]. split; [exact E2|].
  exact (@X12_loss_is_additive mock_reps mock_oracle all_options
           [resolvable_1] [unresolved; resolvable_2] l1 l2 r1 r2 n1 n2 g1 g2
           E1 E2).
Defined.

Lemma X13_transforms_change_the_loss_only_witness :
  ∃ loss no_hy gt raw,
    @openmm_loss mock_reps mock_oracle all_options
      [resolvable_1; unresolved; resolvable_2]
    = Returns (loss, no_hy, gt, raw) ∧
    force_scaling default_options = force_scaling all_options ∧
    force_clipping_val default_options = force_clipping_val all_options ∧
    (modified_sigmoid default_options = true →
     sigmoid_a default_options ≠ 0%R) ∧
    ∃ loss',
      @openmm_loss mock_reps mock_oracle default_options
        [resolvable_1; unresolved; resolvable_2]
      = Returns (loss', no_hy, gt, raw) ∧
      (scale_by_length default_options = false →
       modified_sigmoid default_options = false →
       add_relu default_options = false → loss' = Real raw).
Proof.
  destruct (mock_openmm_loss all_options
              [resolvable_1; unresolved; resolvable_2]
              (sigmoid_a_one all_options 1 1 1 eq_refl))
    as (loss & no_hy & gt & raw & E).
  exists loss, no_hy, gt, raw.
  split; [exact E|]. split; [reflexivity|]. split; [reflexivity|].
  split; [exact (sigmoid_a_one default_options 1 1 1 eq_refl)|].
  exact (@X13_transforms_change_the_loss_only mock_reps mock_oracle
           all_options default_options
           [resolvable_1; unresolved; resolvable_2] loss raw no_hy gt E
           eq_refl eq_refl (sigmoid_a_one default_options 1 1 1 eq_refl)).
Defined.

Lemma X14_squashed_loss_is_bounded_witness :
  ∃ loss no_hy gt raw,
    @openmm_loss mock_reps mock_oracle squash_only
      [resolvable_1; unresolved; resolvable_2]
    = Returns (loss, no_hy, gt, raw) ∧
    modified_sigmoid squash_only = true ∧ add_relu squash_only = false ∧
    modified_sigmoid_params squash_only = (1%R, 1%R, 1%R, 1%R) ∧
    (0 < 1)%R ∧ 1%R ≠ 0%R ∧
    (scale_by_length squash_only = true → Forall (λ p, 0 < len p) no_hy) ∧
    ∃ l : R, loss = Real l ∧
      ((1 - 1) * INR (length no_hy) <= l <= INR (length no_hy))%R.
Proof.
  destruct (mock_openmm_loss squash_only
              [resolvable_1; unresolved; resolvable_2]
              (sigmoid_a_one squash_only 1 1 1 eq_refl))
    as (loss & no_hy & gt & raw & E).
  assert (scale_by_length squash_only = true → Forall (λ p, 0 < len p) no_hy)
    as Hlen by (intros [=]).
  exists loss, no_hy, gt, raw. split; [exact E|].
  split; [reflexivity|]. split; [reflexivity|]. split; [reflexivity|].
  split; [exact Rlt_0_1|]. split; [exact R1_neq_R0|]. split; [exact Hlen|].
  exact (@X14_squashed_loss_is_bounded mock_reps mock_oracle squash_only
           [resolvable_1; unresolved; resolvable_2] loss raw 1 1 1 1 no_hy gt
           E eq_refl eq_refl eq_refl Rlt_0_1 R1_neq_R0 Hlen).
Defined.

Lemma X15_lower_energy_lower_loss_witness :
  has_X (seq (@protein_of mock_reps false resolvable_2)) = false ∧
  has_X (seq (@protein_of mock_reps true resolvable_2)) = false ∧
  len (@protein_of mock_reps false resolvable_2)
  = len (@protein_of mock_reps true resolvable_2) ∧
  @energy mock_reps mock_oracle (protein_of false resolvable_2)
    (force_scaling all_options) (force_clipping_val all_options)
  = Some (INR 2) ∧
  @energy mock_reps mock_oracle (protein_of true resolvable_2)
    (force_scaling all_options) (force_clipping_val all_options)
  = Some (INR 2) ∧
  (INR 2 <= INR 2)%R ∧
  modified_sigmoid_params all_options = (1%R, 1%R, 1%R, 1%R) ∧
  (modified_sigmoid all_options = true → (0 < 1)%R ∧ (0 < 1)%R ∧ (0 <= 1)%R) ∧
  (scale_by_length all_options = true
   → 0 < len (@protein_of mock_reps false resolvable_2)) ∧
  ∃ t1 r1 t2 r2 : R,
    @loss_body mock_reps mock_oracle all_options
      (protein_of false resolvable_2) (Real 0, 0%R) = Returns (Real t1, r1) ∧
    @loss_body mock_reps mock_oracle all_options
      (protein_of true resolvable_2) (Real 0, 0%R) = Returns (Real t2, r2) ∧
    (t1 <= t2)%R ∧ (r1 <= r2)%R.
Proof.
  assert (modified_sigmoid all_options = true
          → (0 < 1)%R ∧ (0 < 1)%R ∧ (0 <= 1)%R) as Hsig.
  { intros _. split; [exact Rlt_0_1|]. split; [exact Rlt_0_1|exact Rle_0_1]. }
  assert (scale_by_length all_options = true
          → 0 < len (@protein_of mock_reps false resolvable_2)) as Hn.
  { intros _. exact (Nat.lt_0_succ 1). }
  split; [reflexivity|]. split; [reflexivity|]. split; [reflexivity|].
  split; [reflexivity|]. split; [reflexivity|].
  split; [exact (Rle_refl (INR 2))|]. split; [reflexivity|].
  split; [exact Hsig|]. split; [exact Hn|].
  exact (@X15_lower_energy_lower_loss mock_reps mock_oracle all_options
           (protein_of false resolvable_2) (protein_of true resolvable_2)
           (0%R, 0%R) (INR 2) (INR 2) 1 1 1 1
           eq_refl eq_refl eq_refl eq_refl eq_refl (Rle_refl (INR 2)) eq_refl
           Hsig Hn).
Defined.

End OpenfoldLossFacts.

(** ** [openfold_loss.py]: [OpenMMLR] *)

Module LearningRateFacts.
Import Builtins LearningRate.

Lemma linspace_Ok start stop num l :
  linspace start stop num = Ok l →
  (0 <= num)%Z ∧ length l = Z.to_nat num ∧
  ∀ i v, l !! i = Some v →
    if (1 <? num)%Z then (v == ramp start stop num (Z.of_nat i))%Q
    else (v == start)%Q.
Proof.
  unfold linspace. destruct (num <? 0)%Z eqn:Hneg; [done|].
  apply Z.ltb_ge in Hneg. intros [= <-]. split; [done|].
  destruct (1 <? num)%Z eqn:H1.
  - apply Z.ltb_lt in H1. assert ((0 <? num - 1)%Z = true) as ->
      by (apply Z.ltb_lt; lia).
    split.
    + by rewrite length_insert, !length_map, length_seq.
    + intros i v Hi. unfold ramp.
      assert (¬ (inject_Z (num - 1) == 0)%Q) as Hnz.
      { unfold Qeq. simpl. lia. }
      destruct (decide (i = Z.to_nat (num - 1))) as [->|Hne].
      * rewrite list_lookup_insert_eq in Hi.
        2:{ rewrite !length_map, length_seq. lia. }
        simplify_eq. rewrite Z2Nat.id by lia. field. done.
      * rewrite list_lookup_insert_ne in Hi by done.
        rewrite !list_lookup_fmap in Hi.
        destruct (seq 0 (Z.to_nat num) !! i) as [j|] eqn:Hj; [|done].
        apply lookup_seq in Hj as [-> _]. simpl in Hi. simplify_eq.
        simpl. ring.
  - apply Z.ltb_ge in H1.
    assert ((0 <? num - 1)%Z = false) as -> by (apply Z.ltb_ge; lia).
    split.
    + by rewrite !length_map, length_seq.
    + intros i v Hi. rewrite !list_lookup_fmap in Hi.
      destruct (seq 0 (Z.to_nat num) !! i) as [j|] eqn:Hj; [|done].
      apply lookup_seq in Hj as [-> Hlt]. simpl in Hi. simplify_eq.
      assert (i = 0) as -> by lia. simpl. ring.
Qed.

Lemma getitem_nonneg a (i : Z) :
  (0 <= i)%Z → (i < Z.of_nat (length a))%Z →
  ∃ v, a !! Z.to_nat i = Some v ∧ getitem a i = Ok v.
Proof.
  intros H0 H1. unfold getitem.
  assert ((i <? 0)%Z = false) as -> by (apply Z.ltb_ge; lia).
  assert ((0 <=? i)%Z && (i <? Z.of_nat (length a))%Z = true) as ->.
  { apply andb_true_iff. split; [apply Z.leb_le|apply Z.ltb_lt]; lia. }
  destruct (lookup_lt_is_Some_2 a (Z.to_nat i)) as [v Hv]; [lia|].
  exists v. by rewrite Hv.
Qed.

Lemma getitem_negative a (i : Z) :
  (i < 0)%Z → (- Z.of_nat (length a) <= i)%Z →
  ∃ v, a !! Z.to_nat (i + Z.of_nat (length a)) = Some v ∧ getitem a i = Ok v.
Proof.
  intros H0 H1. unfold getitem.
  assert ((i <? 0)%Z = true) as -> by (apply Z.ltb_lt; lia).
  assert ((0 <=? i + Z.of_nat (length a))%Z
          && (i + Z.of_nat (length a) <? Z.of_nat (length a))%Z = true) as ->.
  { apply andb_true_iff. split; [apply Z.leb_le|apply Z.ltb_lt]; lia. }
  destruct (lookup_lt_is_Some_2 a (Z.to_nat (i + Z.of_nat (length a))))
    as [v Hv]; [lia|].
  exists v. by rewrite Hv.
Qed.

Lemma getitem_out a (i : Z) :
  (Z.of_nat (length a) <= i)%Z ∨ (i < - Z.of_nat (length a))%Z →
  getitem a i = Raise IndexError.
Proof.
  intros Hi. unfold getitem. destruct (i <? 0)%Z eqn:E.
  - apply Z.ltb_lt in E.
    assert ((0 <=? i + Z.of_nat (length a))%Z = false) as ->; [|done].
    apply Z.leb_gt. lia.
  - apply Z.ltb_ge in E.
    assert ((i <? Z.of_nat (length a))%Z = false) as ->.
    { apply Z.ltb_ge. lia. }
    by rewrite andb_false_r.
Qed.

Lemma init_Ok start stop num c self :
  __init__ start stop num c = Ok self →
  steps self = num ∧ cur_step self = c ∧ (0 <= num)%Z ∧
  Z.of_nat (length (lr self)) = num ∧
  ∀ i v, lr self !! i = Some v →
    if (1 <? num)%Z then (v == ramp start stop num (Z.of_nat i))%Q
    else (v == start)%Q.
Proof.
  unfold __init__. destruct (linspace start stop num) as [l|] eqn:E; [|done].
  intros [= <-]. apply linspace_Ok in E as (H0 & Hlen & Hv). simpl.
  split_and!; [done|done|done|lia|done].
Qed.

(** X16. What [get_lr] returns on an object as the constructor leaves it,
    by cases on [cur_step]: with no sample it raises [IndexError]; below
    [-steps] it raises [IndexError]; otherwise it returns a sample of the
    ramp: the last one from [steps] on, sample [cur_step] between 0 and
    [steps], and sample [steps + cur_step], counted from the end, for a
    negative [cur_step]. The argument [step] has no effect. *)
Theorem X16_get_lr_by_cases (start stop : Q) (num c : Z) (self : OpenMMLR)
    (k : option Z) :
  __init__ start stop num c = Ok self →
  get_lr self k = get_lr self None ∧
  (num = 0%Z ∨ (c < - num)%Z → get_lr self k = Raise IndexError) ∧
  ((0 < num)%Z → (- num <= c)%Z →
   ∃ v, get_lr self k = Ok v ∧
        lr self !! Z.to_nat (position num c) = Some v ∧
        (v == if (1 <? num)%Z then ramp start stop num (position num c)
              else start)%Q).
Proof.
  intros (Hs & Hc & H0 & Hlen & Hv)%init_Ok.
  split; [done|]. unfold get_lr, position. rewrite Hs, Hc. split.
  - intros Hcase. destruct (num <=? c)%Z eqn:E.
    + apply Z.leb_le in E. apply getitem_out. lia.
    + apply Z.leb_gt in E. apply getitem_out. lia.
  - intros Hpos Hge. destruct (num <=? c)%Z eqn:E.
    + destruct (getitem_negative (lr self) (-1)) as (v & Hl & ->); [lia..|].
      replace (-1 + Z.of_nat (length (lr self)))%Z with (num - 1)%Z in Hl
        by lia.
      exists v. split_and!; [done|done|].
      specialize (Hv _ _ Hl). rewrite Z2Nat.id in Hv by lia.
      by destruct (1 <? num)%Z.
    + apply Z.leb_gt in E. destruct (c <? 0)%Z eqn:E0.
      * apply Z.ltb_lt in E0.
        destruct (getitem_negative (lr self) c) as (v & Hl & ->); [lia..|].
        rewrite Hlen in Hl. exists v. split_and!; [done|done|].
        specialize (Hv _ _ Hl). rewrite Z2Nat.id in Hv by lia.
        by destruct (1 <? num)%Z.
      * apply Z.ltb_ge in E0.
        destruct (getitem_nonneg (lr self) c) as (v & Hl & ->); [lia..|].
        exists v. split_and!; [done|done|].
        specialize (Hv _ _ Hl). rewrite Z2Nat.id in Hv by lia.
        by destruct (1 <? num)%Z.
Qed.



Lemma ramp_last start stop num :
  (1 < num)%Z → (ramp start stop num (num - 1) == stop)%Q.
Proof.
  intros H1. unfold ramp. field. unfold Qeq. simpl. lia.
Qed.

Lemma ramp_mono start stop num i j :
  (1 < num)%Z → (start <= stop)%Q → (i <= j)%Z →
  (ramp start stop num i <= ramp start stop num j)%Q.
Proof.
  intros H1 Hle Hij. unfold ramp.
  assert (0 < inject_Z (num - 1))%Q as Hpos.
  { change 0%Q with (inject_Z 0). rewrite <- Zlt_Qlt. lia. }
  assert (0 <= (stop - start) / inject_Z (num - 1))%Q as Hs.
  { apply Qle_shift_div_l; [done|]. lra. }
  rewrite Zle_Qle in Hij. nra.
Qed.

Lemma ramp_first start stop num : (ramp start stop num 0 == start)%Q.
Proof. unfold ramp. simpl. ring. Qed.

Lemma ramp_bounds start stop num i :
  (1 < num)%Z → (start <= stop)%Q → (0 <= i <= num - 1)%Z →
  (start <= ramp start stop num i <= stop)%Q.
Proof.
  intros H1 Hle [Hi0 Hi1]. split.
  - rewrite <- (ramp_first start stop num) at 1. by apply ramp_mono.
  - rewrite <- (ramp_last start stop num H1) at 2. by apply ramp_mono.
Qed.

Lemma position_range num c :
  (0 < num)%Z → (- num <= c)%Z → (0 <= position num c <= num - 1)%Z.
Proof.
  intros Hn Hc. unfold position.
  destruct (num <=? c)%Z eqn:E; [lia|]. apply Z.leb_gt in E.
  destruct (c <? 0)%Z eqn:E0; [apply Z.ltb_lt in E0|apply Z.ltb_ge in E0]; lia.
Qed.

Lemma position_nonneg num c :
  (0 < num)%Z → (0 <= c)%Z → position num c = Z.min c (num - 1).
Proof.
  intros Hn Hc. unfold position.
  destruct (num <=? c)%Z eqn:E; [apply Z.leb_le in E; lia|].
  apply Z.leb_gt in E.
  assert ((c <? 0)%Z = false) as -> by (apply Z.ltb_ge; lia). lia.
Qed.

Lemma get_lr_position self k :
  (0 < steps self)%Z → Z.of_nat (length (lr self)) = steps self →
  (- steps self <= cur_step self)%Z →
  ∃ v, get_lr self k = Ok v ∧
       lr self !! Z.to_nat (position (steps self) (cur_step self)) = Some v.
Proof.
  intros Hpos Hlen Hge. unfold get_lr, position.
  destruct (steps self <=? cur_step self)%Z eqn:E.
  - destruct (getitem_negative (lr self) (-1)) as (v & Hl & ->); [lia..|].
    replace (-1 + Z.of_nat (length (lr self)))%Z with (steps self - 1)%Z in Hl
      by lia.
    by exists v.
  - apply Z.leb_gt in E. destruct (cur_step self <? 0)%Z eqn:E0.
    + apply Z.ltb_lt in E0.
      destruct (getitem_negative (lr self) (cur_step self)) as (v & Hl & ->);
        [lia..|].
      rewrite Hlen in Hl. by exists v.
    + apply Z.ltb_ge in E0.
      destruct (getitem_nonneg (lr self) (cur_step self)) as (v & Hl & ->);
        [lia..|].
      by exists v.
Qed.

Lemma calls_spec n : ∀ self,
  (0 < steps self)%Z → Z.of_nat (length (lr self)) = steps self →
  (0 <= cur_step self)%Z →
  ∃ vals self',
    calls n self = Ok (vals, self') ∧
    lr self' = lr self ∧ steps self' = steps self ∧
    cur_step self' = (cur_step self + Z.of_nat n)%Z ∧
    length vals = n ∧
    ∀ i v, vals !! i = Some v →
      lr self !! Z.to_nat (Z.min (cur_step self + Z.of_nat i) (steps self - 1))
      = Some v.
Proof.
  induction n as [|n IH]; intros self Hpos Hlen Hc.
  - exists [], self. simpl. split_and!; [done|done|done|lia|done|done].
  - destruct (get_lr_position self None Hpos Hlen) as (v & Hget & Hv); [lia|].
    rewrite position_nonneg in Hv by done.
    destruct (IH (step self None)) as (vals & self' & Hcalls & Hlr & Hs & Hcs
                                       & Hl & Hvals); [done|done|simpl; lia|].
    exists (v :: vals), self'. split_and!.
    + cbn [calls]. unfold get_lr_and_step. rewrite Hget.
      cbn [mbind result_bind]. by rewrite Hcalls.
    + by rewrite Hlr.
    + by rewrite Hs.
    + rewrite Hcs. simpl. lia.
    + simpl. by rewrite Hl.
    + intros [|i] w Hw; simpl in Hw.
      * simplify_eq. by rewrite Z.add_0_r.
      * specialize (Hvals i w Hw). simpl in Hvals.
        by replace (cur_step self + Z.of_nat (S i))%Z
          with (cur_step self + 1 + Z.of_nat i)%Z by lia.
Qed.

(** X17. The schedule a training loop sees. On an object constructed with
    at least two samples and [cur_step = 0], [n] successive calls of
    [get_lr_and_step] all return, leave [cur_step] at [n] and return, at
    call [i], sample [min i (steps - 1)] of the ramp: the rate starts at
    [start], rises by equal increments and, from call [steps - 1] on, stays
    at [end]. *)
Theorem X17_calls_walk_the_ramp (start stop : Q) (num : Z) (self : OpenMMLR)
    (n : nat) :
  __init__ start stop num 0 = Ok self →
  (1 < num)%Z →
  ∃ vals self',
    calls n self = Ok (vals, self') ∧
    cur_step self' = Z.of_nat n ∧ length vals = n ∧
    ∀ i v, vals !! i = Some v →
      (v == ramp start stop num (Z.min (Z.of_nat i) (num - 1)))%Q ∧
      (i = 0%nat → (v == start)%Q) ∧
      ((num - 1 <= Z.of_nat i)%Z → (v == stop)%Q).
Proof.
  intros (Hs & Hc & H0 & Hlen & Hv)%init_Ok H1.
  destruct (calls_spec n self) as (vals & self' & Hcalls & _ & _ & Hcs & Hl
                                   & Hvals); [lia..|].
  exists vals, self'. rewrite Hcs, Hc. split_and!; [done|done|done|].
  intros i v Hi. specialize (Hvals i v Hi).
  rewrite Hc, Hs, Z.add_0_l in Hvals. specialize (Hv _ _ Hvals).
  assert ((1 <? num)%Z = true) as E by (apply Z.ltb_lt; lia).
  rewrite E in Hv. rewrite Z2Nat.id in Hv by lia. split_and!; [done| |].
  - intros ->. rewrite Hv.
    replace (Z.min (Z.of_nat 0) (num - 1)) with 0%Z by lia. apply ramp_first.
  - intros Hge. rewrite Hv.
    replace (Z.min (Z.of_nat i) (num - 1)) with (num - 1)%Z by lia.
    by apply ramp_last.
Qed.

(** X18. With [start <= end], whatever value [cur_step] is set to, a rate
    that [get_lr] returns lies between [start] and [end], and a later step
    never gives a smaller rate than an earlier one (steps counted from 0). *)
Theorem X18_rate_is_bounded_and_monotone (start stop : Q) (num c0 : Z)
    (self : OpenMMLR) :
  __init__ start stop num c0 = Ok self →
  (start <= stop)%Q →
  (∀ c k v, get_lr (step self (Some c)) k = Ok v →
     (start <= v <= stop)%Q) ∧
  (∀ c1 c2 k1 k2 v1 v2, (0 <= c1 <= c2)%Z →
     get_lr (step self (Some c1)) k1 = Ok v1 →
     get_lr (step self (Some c2)) k2 = Ok v2 → (v1 <= v2)%Q).
Proof.
  intros (Hs & Hc & H0 & Hlen & Hv)%init_Ok Hle.
  assert (∀ c k v, get_lr (step self (Some c)) k = Ok v →
            (0 < num)%Z ∧ (- num <= c)%Z ∧
            (v == if (1 <? num)%Z then ramp start stop num (position num c)
                  else start)%Q) as Hget.
  { intros c k v Hg.
    destruct (decide (0 < num)%Z) as [Hpos|Hn0].
    2:{ unfold get_lr in Hg. simpl in Hg. rewrite !getitem_out in Hg by lia.
        by destruct (steps self <=? c)%Z. }
    destruct (decide (- num <= c)%Z) as [Hge|Hlt].
    2:{ unfold get_lr in Hg. simpl in Hg. rewrite Hs in Hg.
        assert ((num <=? c)%Z = false) as E by (apply Z.leb_gt; lia).
        rewrite E, getitem_out in Hg by lia. done. }
    destruct (get_lr_position (step self (Some c)) k) as (w & Hw & Hl);
      simpl; [lia..|].
    rewrite Hg in Hw. injection Hw as <-. simpl in Hl. rewrite Hs in Hl.
    specialize (Hv _ _ Hl).
    pose proof (position_range num c Hpos Hge).
    rewrite Z2Nat.id in Hv by lia. by destruct (1 <? num)%Z. }
  split.
  - intros c k v (Hpos & Hge & Hval)%Hget.
    destruct (1 <? num)%Z eqn:E; rewrite Hval; [|lra].
    apply Z.ltb_lt in E. apply ramp_bounds; [done|done|].
    by apply position_range.
  - intros c1 c2 k1 k2 v1 v2 Hc12 (Hpos & Hge1 & Hval1)%Hget
      (_ & Hge2 & Hval2)%Hget.
    destruct (1 <? num)%Z eqn:E; rewrite Hval1, Hval2; [|lra].
    apply Z.ltb_lt in E. apply ramp_mono; [done|done|].
    rewrite !position_nonneg by lia. lia.
Qed.

(** *** The properties on the default schedule *)

Lemma X16_get_lr_by_cases_witness :
  ∃ self,
    __init__ default_start default_end default_steps 0 = Ok self ∧
    get_lr self (Some 5%Z) = get_lr self None ∧
    (default_steps = 0%Z ∨ (0 < - default_steps)%Z →
     get_lr self (Some 5%Z) = Raise IndexError) ∧
    ((0 < default_steps)%Z → (- default_steps <= 0)%Z →
     ∃ v, get_lr self (Some 5%Z) = Ok v ∧
          lr self !! Z.to_nat (position default_steps 0) = Some v ∧
          (v == if (1 <? default_steps)%Z
                then ramp default_start default_end default_steps
                       (position default_steps 0)
                else default_start)%Q).
Proof.
  eexists. split; [reflexivity|].
  apply (X16_get_lr_by_cases default_start default_end default_steps 0).
  reflexivity.
Defined.

Lemma X17_calls_walk_the_ramp_witness :
  ∃ self,
    __init__ default_start default_end default_steps 0 = Ok self ∧
    (1 < default_steps)%Z ∧
    ∃ vals self',
      calls 3 self = Ok (vals, self') ∧
      cur_step self' = Z.of_nat 3 ∧ length vals = 3%nat ∧
      ∀ i v, vals !! i = Some v →
        (v == ramp default_start default_end default_steps
                (Z.min (Z.of_nat i) (default_steps - 1)))%Q ∧
        (i = 0%nat → (v == default_start)%Q) ∧
        ((default_steps - 1 <= Z.of_nat i)%Z → (v == default_end)%Q).
Proof.
  eexists. split; [reflexivity|]. split; [reflexivity|].
  apply (X17_calls_walk_the_ramp default_start default_end default_steps);
    reflexivity.
Defined.

Lemma X18_rate_is_bounded_and_monotone_witness :
  ∃ self,
    __init__ default_start default_end default_steps 0 = Ok self ∧
    (default_start <= default_end)%Q ∧
    (∀ c k v, get_lr (step self (Some c)) k = Ok v →
       (default_start <= v <= default_end)%Q) ∧
    (∀ c1 c2 k1 k2 v1 v2, (0 <= c1 <= c2)%Z →
       get_lr (step self (Some c1)) k1 = Ok v1 →
       get_lr (step self (Some c2)) k2 = Ok v2 → (v1 <= v2)%Q).
Proof.
  assert (default_start <= default_end)%Q as Hle by done.
  eexists. split; [reflexivity|]. split; [exact Hle|].
  apply (X18_rate_is_bounded_and_monotone default_start default_end
           default_steps 0); [reflexivity|exact Hle].
Defined.

End LearningRateFacts.

(** ** [utils/parse.py] *)

Module ParseFacts.
Import Builtins Text Parse.

(** *** The ASTRAL summary *)

Lemma for_each_step {A S : Type} (x : A) l (body : A → S → result S) s :
  for_each (x :: l) body s = body x s ≫= for_each l body.
Proof. done. Qed.

Lemma index_Ok {A : Type} (l : list A) i x : index l i = Ok x ↔ l !! i = Some x.
Proof. unfold index. destruct (l !! i); split; congruence. Qed.

Lemma index_only_IndexError {A : Type} (l : list A) i e :
  index l i = Raise e → e = IndexError.
Proof. unfold index. destruct (l !! i); congruence. Qed.

(** The key a line contributes, if it is not a comment. *)
Lemma astral_body_cases line d :
  (startswith line "#" = true ∧ astral_body line d = Ok d) ∨
  (startswith line "#" = false ∧
   ((split line !! 3 = None ∧ astral_body line d = Raise IndexError) ∨
    ∃ key, split line !! 3 = Some key ∧
      ((key = "-" ∧ astral_body line d = Ok d) ∨
       (key ≠ "-" ∧ is_Some (d !! key) ∧ astral_body line d = Ok d) ∨
       (key ≠ "-" ∧ d !! key = None ∧
        ((length (split line) < 6 ∧ astral_body line d = Raise IndexError) ∨
         ∃ a b, split line !! 4 = Some a ∧ split line !! 5 = Some b ∧
                astral_body line d = Ok (<[key := (a, b)]> d)))))).
Proof.
  unfold astral_body. destruct (startswith line "#"); [by left|right].
  split; [done|].
  destruct (index (split line) 3) as [key|e] eqn:E3; cbn [mbind result_bind].
  2:{ left. pose proof (index_only_IndexError _ _ _ E3) as ->. split; [|done].
      unfold index in E3. by destruct (split line !! 3). }
  apply index_Ok in E3. right. exists key. split; [done|].
  destruct (key =? "-")%string eqn:Ek.
  { apply String.eqb_eq in Ek. by left. }
  apply String.eqb_neq in Ek. right.
  destruct (d !! key) as [v|] eqn:Ed; [left; by eauto|right].
  split_and!; [done..|].
  destruct (index (split line) 4) as [a|e] eqn:E4; cbn [mbind result_bind].
  2:{ left. pose proof (index_only_IndexError _ _ _ E4) as ->. split; [|done].
      unfold index in E4. destruct (split line !! 4) eqn:E; [done|].
      apply lookup_ge_None in E. lia. }
  destruct (index (split line) 5) as [b|e] eqn:E5; cbn [mbind result_bind].
  2:{ left. pose proof (index_only_IndexError _ _ _ E5) as ->. split; [|done].
      unfold index in E5. destruct (split line !! 5) eqn:E; [done|].
      apply lookup_ge_None in E. lia. }
  apply index_Ok in E4, E5. right. by exists a, b.
Qed.

(** A line that is a comment, or whose fourth field is not [k], does not
    count in the search for the first line of [k]. *)
Lemma astral_first_skip line lines k (v : string * string) :
  ¬ (startswith line "#" = false ∧ split line !! 3 = Some k) →
  (∃ i line' a b,
     (line :: lines) !! i = Some line' ∧ startswith line' "#" = false ∧
     split line' !! 3 = Some k ∧
     split line' !! 4 = Some a ∧ split line' !! 5 = Some b ∧ v = (a, b) ∧
     ∀ j line'', j < i → (line :: lines) !! j = Some line'' →
       startswith line'' "#" = false → split line'' !! 3 ≠ Some k) ↔
  (∃ i line' a b,
     lines !! i = Some line' ∧ startswith line' "#" = false ∧
     split line' !! 3 = Some k ∧
     split line' !! 4 = Some a ∧ split line' !! 5 = Some b ∧ v = (a, b) ∧
     ∀ j line'', j < i → lines !! j = Some line'' →
       startswith line'' "#" = false → split line'' !! 3 ≠ Some k).
Proof.
  intros Hskip. split.
  - intros (i & l' & a & b & Hi & Hnc & Hk3 & H4 & H5 & -> & Hfirst).
    destruct i as [|i]; simpl in Hi.
    { simplify_eq. destruct Hskip. by split. }
    exists i, l', a, b. split_and!; try done.
    intros j l'' Hj Hl'' Hnc''. apply (Hfirst (S j) l''); [lia|done..].
  - intros (i & l' & a & b & Hi & Hnc & Hk3 & H4 & H5 & -> & Hfirst).
    exists (S i), l', a, b. split_and!; try done.
    intros [|j] l'' Hj Hl'' Hnc''; simpl in Hl''.
    + simplify_eq. intros ?. apply Hskip. by split.
    + apply (Hfirst j l''); [lia|done..].
Qed.

Lemma astral_loop_spec lines : ∀ d0 d,
  for_each lines astral_body d0 = Ok d →
  ∀ k v, d !! k = Some v ↔
    d0 !! k = Some v ∨
    (d0 !! k = None ∧ k ≠ "-" ∧
     ∃ i line a b,
       lines !! i = Some line ∧ startswith line "#" = false ∧
       split line !! 3 = Some k ∧
       split line !! 4 = Some a ∧ split line !! 5 = Some b ∧ v = (a, b) ∧
       ∀ j line', j < i → lines !! j = Some line' →
         startswith line' "#" = false → split line' !! 3 ≠ Some k).
Proof.
  induction lines as [|line lines IH]; intros d0 d Hloop k v.
  - simpl in Hloop. simplify_eq. split; [by left|].
    intros [?|(_ & _ & i & line & a & b & Hi & _)]; [done|].
    by rewrite lookup_nil in Hi.
  - rewrite for_each_step in Hloop.
    destruct (astral_body line d0) as [d1|] eqn:Hbody; [|done].
    cbn [mbind result_bind] in Hloop. rewrite (IH d1 d Hloop k v). clear IH.
    assert (d1 = d0 →
            (d0 !! k = None → k ≠ "-" →
             ¬ (startswith line "#" = false ∧ split line !! 3 = Some k)) →
            (d1 !! k = Some v ∨
             d1 !! k = None ∧ k ≠ "-" ∧
             (∃ i line' a b,
                lines !! i = Some line' ∧ startswith line' "#" = false ∧
                split line' !! 3 = Some k ∧
                split line' !! 4 = Some a ∧ split line' !! 5 = Some b ∧
                v = (a, b) ∧
                ∀ j line'', j < i → lines !! j = Some line'' →
                  startswith line'' "#" = false → split line'' !! 3 ≠ Some k)) ↔
            (d0 !! k = Some v ∨
             d0 !! k = None ∧ k ≠ "-" ∧
             (∃ i line' a b,
                (line :: lines) !! i = Some line' ∧
                startswith line' "#" = false ∧
                split line' !! 3 = Some k ∧
                split line' !! 4 = Some a ∧ split line' !! 5 = Some b ∧
                v = (a, b) ∧
                ∀ j line'', j < i → (line :: lines) !! j = Some line'' →
                  startswith line'' "#" = false → split line'' !! 3 ≠ Some k)))
      as Hsame.
    { intros -> Hskip. split.
      - intros [?|(Hn & Hk & Hex)]; [by left|right]. split_and!; [done..|].
        apply astral_first_skip; [by apply Hskip|done].
      - intros [?|(Hn & Hk & Hex)]; [by left|right]. split_and!; [done..|].
        apply astral_first_skip in Hex; [done|by apply Hskip]. }
    destruct (astral_body_cases line d0)
      as [[Hc Hb]|[Hc [[_ Hb]|(key & H3 & Hcase)]]].
    + rewrite Hb in Hbody. simplify_eq. apply Hsame; [done|].
      intros _ _ [? _]. congruence.
    + rewrite Hb in Hbody. done.
    + destruct Hcase as [[-> Hb]|[(Hk & Hin & Hb)|(Hk & Hnone & Hb)]].
      * rewrite Hb in Hbody. simplify_eq. apply Hsame; [done|].
        intros _ Hk [_ ?]. congruence.
      * rewrite Hb in Hbody. simplify_eq. apply Hsame; [done|].
        intros Hn _ [_ ?]. simplify_eq. rewrite Hn in Hin. by destruct Hin.
      * destruct Hb as [[_ Hb]|(a0 & b0 & H4 & H5 & Hb)];
          rewrite Hb in Hbody; [done|]. simplify_eq.
        destruct (decide (k = key)) as [->|Hne].
        -- rewrite lookup_insert_eq. split.
           ++ intros [[= <-]|(Hn & _)]; [|done]. right.
              split_and!; [done..|]. exists 0, line, a0, b0.
              split_and!; try done. intros j l'' Hj. lia.
           ++ intros [?|(_ & _ & i & l' & a & b & Hi & Hnc & Hk3 & H4' & H5'
                        & -> & Hfirst)]; [congruence|]. left.
              destruct i as [|i]; simpl in Hi; [by simplify_eq|].
              destruct (Hfirst 0 line); [lia|done..].
        -- rewrite lookup_insert_ne by done. split.
           ++ intros [?|(Hn & Hkk & Hex)]; [by left|right].
              split_and!; [done..|].
              apply astral_first_skip; [|done]. intros [_ ?]. congruence.
           ++ intros [?|(Hn & Hkk & Hex)]; [by left|right].
              split_and!; [done..|].
              apply astral_first_skip in Hex; [done|].
              intros [_ ?]. congruence.
Qed.

(** X19. What the ASTRAL dict holds. An identifier is a key exactly when it
    is not "-" and is the fourth field of a line that is not a comment; its
    value is the pair of the fifth and sixth fields of the first such line:
    later lines with the same identifier are ignored. *)
Theorem X19_astral_first_line_wins (lines : list string)
    (d : gmap string (string * string)) (k : string) (v : string * string) :
  parse_astral_summary_file lines = Ok d →
  d !! k = Some v ↔
  k ≠ "-" ∧
  ∃ i line a b,
    lines !! i = Some line ∧ startswith line "#" = false ∧
    split line !! 3 = Some k ∧
    split line !! 4 = Some a ∧ split line !! 5 = Some b ∧ v = (a, b) ∧
    ∀ j line', j < i → lines !! j = Some line' →
      startswith line' "#" = false → split line' !! 3 ≠ Some k.
Proof.
  intros Hp. rewrite (astral_loop_spec lines ∅ d Hp k v). split.
  - intros [?|(_ & ? & ?)]; [done|by split].
  - intros [? ?]. right. by split_and!.
Qed.

Lemma astral_ok_cons line lines (seen0 seen1 : string → Prop) :
  (∀ k, k = "-" ∨ seen1 k ↔
        k = "-" ∨ seen0 k ∨
        (startswith line "#" = false ∧ split line !! 3 = Some k)) →
  (startswith line "#" = false →
   ∃ k, split line !! 3 = Some k ∧
        (k = "-" ∨ seen0 k ∨ 6 ≤ length (split line))) →
  astral_ok seen1 lines ↔ astral_ok seen0 (line :: lines).
Proof.
  intros Hseen H0. split.
  - intros Hok [|i] l Hl Hnc; simpl in Hl.
    + simplify_eq. destruct (H0 Hnc) as (k & Hk & Hcase). exists k.
      split; [done|]. destruct Hcase as [?|[?|?]]; auto.
    + destruct (Hok i l Hl Hnc) as (k & Hk & Hcase). exists k. split; [done|].
      destruct Hcase as [?|[Hs|[?|(j & l' & Hj & Hl' & Hnc' & Hk')]]];
        [by left| |by auto|].
      * destruct (proj1 (Hseen k)) as [?|[?|[? ?]]]; [by right|by auto..|].
        do 3 right. exists 0, line. split_and!; [lia|done..].
      * do 3 right. exists (S j), l'. split_and!; [lia|done..].
  - intros Hok i l Hl Hnc.
    destruct (Hok (S i) l Hl Hnc) as (k & Hk & Hcase). exists k.
    split; [done|].
    destruct Hcase as [?|[Hs|[?|(j & l' & Hj & Hl' & Hnc' & Hk')]]];
      [by left| |by auto|].
    + destruct (proj2 (Hseen k)) as [?|?]; auto.
    + destruct j as [|j]; simpl in Hl'.
      * simplify_eq. destruct (proj2 (Hseen k)) as [?|?]; auto.
      * do 3 right. exists j, l'. split_and!; [lia|done..].
Qed.

Lemma astral_loop_Ok lines : ∀ d0,
  (∃ d, for_each lines astral_body d0 = Ok d) ↔
  astral_ok (λ k, is_Some (d0 !! k)) lines.
Proof.
  induction lines as [|line lines IH]; intros d0.
  - split; [|by eexists]. intros _ i l Hl. by rewrite lookup_nil in Hl.
  - rewrite for_each_step.
    destruct (astral_body_cases line d0)
      as [[Hc Hb]|[Hc [[H3 Hb]|(key & H3 & Hcase)]]].
    + rewrite Hb. cbn [mbind result_bind]. rewrite IH.
      apply astral_ok_cons; [|congruence].
      intros k. split; [intros [?|?]; auto|].
      intros [?|[?|[? _]]]; [auto..|congruence].
    + rewrite Hb. cbn [mbind result_bind]. split; [by intros [? ?]|].
      intros Hok. destruct (Hok 0 line eq_refl Hc) as (k & Hk & _). congruence.
    + destruct Hcase as [[-> Hb]|[(Hk & Hin & Hb)|(Hk & Hnone & Hb)]].
      * rewrite Hb. cbn [mbind result_bind]. rewrite IH.
        apply astral_ok_cons; [|intros _; exists "-"; auto].
        intros k. split; [intros [?|?]; auto|].
        intros [?|[?|[_ ?]]]; [auto..|]. left. congruence.
      * rewrite Hb. cbn [mbind result_bind]. rewrite IH.
        apply astral_ok_cons; [|intros _; exists key; auto].
        intros k. split; [intros [?|?]; auto|].
        intros [?|[?|[_ ?]]]; [auto..|]. right. by simplify_eq.
      * destruct Hb as [[Hlen Hb]|(a0 & b0 & H4 & H5 & Hb)]; rewrite Hb;
          cbn [mbind result_bind].
        -- split; [by intros [? ?]|]. intros Hok.
           destruct (Hok 0 line eq_refl Hc) as (k & Hk' & Hcase).
           simplify_eq.
           destruct Hcase as [?|[Hs|[?|(j & _ & Hj & _)]]];
             [done| |lia|lia].
           rewrite Hnone in Hs. by destruct Hs.
        -- rewrite IH. apply astral_ok_cons.
           ++ intros k. destruct (decide (k = key)) as [->|Hne].
              ** rewrite lookup_insert_eq. split; [auto|]. intros _. right.
                 by eexists.
              ** rewrite lookup_insert_ne by done. split; [intros [?|?]; auto|].
                 intros [?|[?|[_ ?]]]; [auto..|congruence].
           ++ intros _. exists key. split; [done|]. do 2 right.
              apply lookup_lt_Some in H5. lia.
Qed.

Lemma astral_body_only_IndexError line d e :
  astral_body line d = Raise e → e = IndexError.
Proof.
  destruct (astral_body_cases line d)
    as [[_ Hb]|[_ [[_ Hb]|(key & _ & [[_ Hb]|[(_ & _ & Hb)|(_ & _ & Hb)]])]]];
    try (rewrite Hb; congruence).
  destruct Hb as [[_ Hb]|(a & b & _ & _ & Hb)]; rewrite Hb; congruence.
Qed.

Lemma astral_loop_only_IndexError lines : ∀ d0 e,
  for_each lines astral_body d0 = Raise e → e = IndexError.
Proof.
  induction lines as [|line lines IH]; intros d0 e; [done|].
  rewrite for_each_step.
  destruct (astral_body line d0) as [d1|e1] eqn:Hb; cbn [mbind result_bind].
  - apply IH.
  - intros [= <-]. by eapply astral_body_only_IndexError.
Qed.

(** X20. When the ASTRAL summary is parsed and when it is not. The call
    returns exactly when every line that is not a comment has a fourth
    field and, if this field is an identifier met for the first time (not
    "-", not the fourth field of an earlier line), a fifth and a sixth
    field too; otherwise it raises [IndexError], and nothing else is ever
    raised. In particular one line that is not a comment and has fewer than
    four fields, a blank line for one, makes the whole call fail. *)
Theorem X20_astral_succeeds_on_complete_lines (lines : list string) :
  ((∃ d, parse_astral_summary_file lines = Ok d) ↔
   ∀ i line, lines !! i = Some line → startswith line "#" = false →
     ∃ k, split line !! 3 = Some k ∧
       (k = "-" ∨ 6 ≤ length (split line) ∨
        ∃ j line', j < i ∧ lines !! j = Some line' ∧
                   startswith line' "#" = false ∧
                   split line' !! 3 = Some k)) ∧
  (∀ e, parse_astral_summary_file lines = Raise e → e = IndexError) ∧
  (∀ line, line ∈ lines → startswith line "#" = false →
     length (split line) < 4 →
     parse_astral_summary_file lines = Raise IndexError).
Proof.
  unfold parse_astral_summary_file.
  assert ((∃ d, for_each lines astral_body ∅ = Ok d) ↔
          ∀ i line, lines !! i = Some line → startswith line "#" = false →
            ∃ k, split line !! 3 = Some k ∧
              (k = "-" ∨ 6 ≤ length (split line) ∨
               ∃ j line', j < i ∧ lines !! j = Some line' ∧
                          startswith line' "#" = false ∧
                          split line' !! 3 = Some k)) as Hiff.
  { rewrite astral_loop_Ok. unfold astral_ok. split.
    - intros Hok i line Hl Hnc. destruct (Hok i line Hl Hnc) as (k & Hk & Hc).
      exists k. split; [done|]. destruct Hc as [?|[Hs|[?|?]]]; auto.
      rewrite lookup_empty in Hs. by destruct Hs.
    - intros Hok i line Hl Hnc. destruct (Hok i line Hl Hnc) as (k & Hk & Hc).
      exists k. split; [done|]. destruct Hc as [?|[?|?]]; auto. }
  split_and!; [done|apply astral_loop_only_IndexError|].
  intros line (i & Hi)%list_elem_of_lookup_1 Hnc Hlen.
  destruct (for_each lines astral_body ∅) as [d|e] eqn:E.
  - destruct (proj1 Hiff (ex_intro _ d eq_refl) i line Hi Hnc)
      as (k & Hk & _).
    apply lookup_lt_Some in Hk. lia.
  - f_equal. by eapply astral_loop_only_IndexError.
Qed.

(** *** Strings and lines *)

Lemma append_nil s : EmptyString +:+ s = s.
Proof. done. Qed.

Lemma append_cons c s t : String c s +:+ t = String c (s +:+ t).
Proof. done. Qed.

Lemma append_nil_r s : s +:+ EmptyString = s.
Proof. induction s as [|c s IH]; [done|]. by rewrite append_cons, IH. Qed.

Lemma append_assoc s t u : (s +:+ t) +:+ u = s +:+ (t +:+ u).
Proof. induction s as [|c s IH]; [done|]. by rewrite !append_cons, IH. Qed.

Lemma length_append s t :
  String.length (s +:+ t) = String.length s + String.length t.
Proof.
  induction s as [|c s IH]; [done|]. rewrite append_cons. simpl. by rewrite IH.
Qed.

Lemma chars_append s t : chars (s +:+ t) = chars s ++ chars t.
Proof.
  induction s as [|c s IH]; [done|]. rewrite append_cons. simpl. by rewrite IH.
Qed.

Lemma readline_append s t : ∀ line fp,
  readline s = (line, fp) → fp ≠ EmptyString ∨ (∃ l, line = l +:+ nl) →
  readline (s +:+ t) = (line, fp +:+ t).
Proof.
  induction s as [|c s IH]; intros line fp Hr Hcase.
  - simpl in Hr. simplify_eq. destruct Hcase as [?|[l Hl]]; [done|].
    by destruct l.
  - rewrite append_cons. simpl in *. destruct (Ascii.eqb c newline) eqn:Ec.
    + by simplify_eq.
    + destruct (readline s) as [line1 fp1] eqn:E1. simplify_eq.
      rewrite (IH line1 fp eq_refl); [done|].
      destruct Hcase as [?|[l Hl]]; [by left|right].
      destruct l as [|c' l]; [|rewrite append_cons in Hl; simplify_eq; eauto].
      unfold nl in Hl. rewrite append_nil in Hl. simplify_eq.
Qed.

Lemma readline_one_line s t :
  one_line s → readline (s +:+ nl +:+ t) = (s +:+ nl, t).
Proof.
  unfold one_line. induction s as [|c s IH]; intros Hs; [done|].
  simpl in Hs. apply Forall_cons in Hs as [Hc Hs].
  rewrite !append_cons. simpl. apply Ascii.eqb_neq in Hc. rewrite Hc.
  by rewrite (IH Hs).
Qed.

Lemma readline_spec fp line fp' :
  readline fp = (line, fp') →
  fp = line +:+ fp' ∧
  (fp' = EmptyString ∨ ∃ l, line = l +:+ nl) ∧
  (line = EmptyString → fp = EmptyString) ∧
  String.length fp' ≤ String.length fp ∧
  (fp ≠ EmptyString → String.length fp' < String.length fp).
Proof.
  revert line fp'. induction fp as [|c fp IH]; intros line fp' Hr; simpl in Hr.
  - simplify_eq. split_and!; [done|by left|done|done|done].
  - destruct (Ascii.eqb c newline) eqn:Ec.
    + simplify_eq. apply Ascii.eqb_eq in Ec. subst c.
      split_and!; [done|right; by exists EmptyString|done|simpl; lia|simpl; lia].
    + destruct (readline fp) as [line1 fp1] eqn:E1. simplify_eq.
      destruct (IH _ _ eq_refl) as (Heq & Hcase & _ & Hle & _).
      split_and!; [by rewrite append_cons, <- Heq| |done|simpl; lia|simpl; lia].
      destruct Hcase as [?|[l ->]]; [by left|right]. by exists (String c l).
Qed.

Lemma but_last_nl s : but_last (s +:+ nl) = s.
Proof.
  induction s as [|c s IH]; [done|]. rewrite append_cons. simpl.
  rewrite IH. by destruct s.
Qed.

Lemma isspace_newline : isspace newline = true.
Proof. done. Qed.

Lemma isspace_tab : isspace "009"%char = true.
Proof. done. Qed.

Lemma is_word_one_line w : is_word w → one_line w.
Proof.
  intros [_ Hw]. eapply Forall_impl; [exact Hw|]. intros c Hc ->. done.
Qed.

(** Reading a word, then white space. *)
Lemma split_from_word w : ∀ word rest,
  Forall (λ c, isspace c = false) (chars w) →
  split_from word (w +:+ rest) = split_from (word +:+ w) rest.
Proof.
  induction w as [|c w IH]; intros word rest Hw.
  - by rewrite append_nil, append_nil_r.
  - simpl in Hw. apply Forall_cons in Hw as [Hc Hw].
    rewrite append_cons. simpl. rewrite Hc, (IH _ _ Hw), append_assoc. done.
Qed.

Lemma split_word_then_space w c rest :
  is_word w → isspace c = true →
  split (w +:+ String c rest) = w :: split rest.
Proof.
  intros [Hne Hw] Hc. unfold split.
  rewrite (split_from_word w EmptyString _ Hw), append_nil. simpl.
  rewrite Hc. by destruct w.
Qed.

Lemma split_join_tab row :
  Forall is_word row → split (join tab row +:+ nl) = row.
Proof.
  induction row as [|w row IH]; intros Hrow; [done|].
  apply Forall_cons in Hrow as [Hw Hrow]. destruct row as [|w' row].
  - simpl. unfold nl. rewrite (split_word_then_space w newline); done.
  - change (join tab (w :: w' :: row))
      with (w +:+ tab +:+ join tab (w' :: row)).
    rewrite !append_assoc. unfold tab at 1. rewrite append_cons, append_nil.
    rewrite (split_word_then_space w "009"%char); [|done..].
    by rewrite (IH Hrow).
Qed.

Lemma one_line_join_tab row : Forall is_word row → one_line (join tab row).
Proof.
  induction row as [|w row IH]; intros Hrow; [constructor|].
  apply Forall_cons in Hrow as [Hw Hrow]. destruct row as [|w' row].
  - by apply is_word_one_line.
  - change (join tab (w :: w' :: row))
      with (w +:+ tab +:+ join tab (w' :: row)).
    unfold one_line. rewrite !chars_append. apply Forall_app. split.
    { by apply is_word_one_line. }
    apply Forall_app. split; [by repeat constructor|by apply IH].
Qed.

(** *** The chain of an ASTRAL identifier *)

Lemma split_on_nonempty sep s : split_on sep s ≠ [].
Proof.
  induction s as [|c s IH]; [done|]. simpl.
  destruct (Ascii.eqb c sep); [done|]. by destruct (split_on sep s).
Qed.

Lemma length_split_on sep s :
  length (split_on sep s) = S (count_char sep s).
Proof.
  induction s as [|c s IH]; [done|]. simpl.
  destruct (Ascii.eqb c sep); simpl; [by rewrite IH|].
  pose proof (split_on_nonempty sep s).
  destruct (split_on sep s) as [|p ps]; [done|]. simpl in *. done.
Qed.

Lemma split_on_one sep s p :
  split_on sep s = [p] ↔ s = p ∧ count_char sep p = 0.
Proof.
  revert p. induction s as [|c s IH]; intros p.
  - simpl. split; [by intros [= <-]|by intros [<- _]].
  - simpl. destruct (Ascii.eqb c sep) eqn:Ec.
    + split.
      * intros [= <- Hs]. by destruct (split_on_nonempty sep s).
      * intros [<- Hp]. simpl in Hp. rewrite Ec in Hp. lia.
    + split.
      * intros Hs. destruct (split_on sep s) as [|q [|? ?]] eqn:E;
          simplify_eq.
        { by destruct (split_on_nonempty sep s). }
        destruct (proj1 (IH q) eq_refl) as [-> Hq]. split; [done|].
        simpl. by rewrite Ec.
      * intros [<- Hp]. simpl in Hp. rewrite Ec in Hp.
        by rewrite (proj2 (IH s)).
Qed.

Lemma split_on_two sep s a b :
  split_on sep s = [a; b] ↔
  s = a +:+ String sep b ∧ count_char sep a = 0 ∧ count_char sep b = 0.
Proof.
  split.
  - revert a. induction s as [|c s IH]; intros a; [done|]. simpl.
    destruct (Ascii.eqb c sep) eqn:Ec.
    + apply Ascii.eqb_eq in Ec. subst c. intros [= <- Hs].
      apply split_on_one in Hs as [-> Hb]. done.
    + intros Hs. destruct (split_on sep s) as [|p [|q [|? ?]]] eqn:E;
        simplify_eq.
      destruct (IH p eq_refl) as (-> & Hp & Hq).
      split; [done|]. split; [|done]. simpl. by rewrite Ec.
  - intros (-> & Ha & Hb). induction a as [|c a IH].
    + change (EmptyString +:+ String sep b) with (String sep b). simpl.
      rewrite Ascii.eqb_refl. by rewrite (proj2 (split_on_one sep b b)).
    + change (String c a +:+ String sep b) with (String c (a +:+ String sep b)).
      simpl in Ha |- *. destruct (Ascii.eqb c sep); [lia|].
      by rewrite IH.
Qed.

Lemma contains_char_count c s :
  contains_char c s = false ↔ count_char c s = 0.
Proof.
  induction s as [|c' s IH]; [done|]. simpl.
  destruct (Ascii.eqb c' c); simpl; [split; [done|lia]|]. by rewrite IH.
Qed.

Lemma count_char_append c s t :
  count_char c (s +:+ t) = count_char c s + count_char c t.
Proof.
  induction s as [|c' s IH]; [done|]. simpl.
  change (String c' s +:+ t) with (String c' (s +:+ t)). simpl.
  rewrite IH. lia.
Qed.

Lemma count_replace_hyphen s :
  count_char "-" (replace_char "-" " to " s) = 0.
Proof.
  induction s as [|c s IH]; [done|]. simpl.
  destruct (Ascii.eqb c "-") eqn:Ec.
  - rewrite count_char_append, IH. done.
  - simpl. by rewrite Ec, IH.
Qed.

(** X26. The outcome of [get_chain_from_astral_id], by cases on the entry
    of the identifier: [KeyError] when there is none, [AssertionError]
    when the chain field has a comma, [ValueError] when it has no comma
    and not exactly one colon. Otherwise the field reads [chain:resnums]
    and ProDy is asked for the structure [pdbid] and this chain, chain A
    for the identifier d4qrye_, and for a selection exactly when
    [resnums] is not empty. *)
Theorem X26_chain_request_by_cases (astral_id : string)
    (d : gmap string (string * string)) :
  (get_chain_from_astral_id astral_id d = Raise KeyError ↔
   d !! astral_id = None) ∧
  (get_chain_from_astral_id astral_id d = Raise AssertionError ↔
   ∃ pdbid chain, d !! astral_id = Some (pdbid, chain) ∧
                  0 < count_char "," chain) ∧
  (get_chain_from_astral_id astral_id d = Raise ValueError ↔
   ∃ pdbid chain, d !! astral_id = Some (pdbid, chain) ∧
                  count_char "," chain = 0 ∧ count_char ":" chain ≠ 1) ∧
  (∀ req, get_chain_from_astral_id astral_id d = Ok req ↔
   ∃ pdbid chain resnums,
     d !! astral_id = Some (pdbid, chain +:+ ":" +:+ resnums) ∧
     count_char "," (chain +:+ ":" +:+ resnums) = 0 ∧
     count_char ":" chain = 0 ∧ count_char ":" resnums = 0 ∧
     req = Request pdbid
             (if (astral_id =? "d4qrye_")%string then "A" else chain)
             (selection resnums) ∧
     (req_selection req = None ↔ resnums = EmptyString)).
Proof.
  unfold get_chain_from_astral_id.
  destruct (d !! astral_id) as [[pdbid chain]|] eqn:Ed.
  2:{ split_and!; [done|..].
      - split; [done|]. by intros (? & ? & ? & _).
      - split; [done|]. by intros (? & ? & ? & _).
      - intros req. split; [done|]. by intros (? & ? & ? & ? & _). }
  destruct (contains_char "," chain) eqn:Ec.
  { assert (0 < count_char "," chain) as Hpos.
    { destruct (count_char "," chain) eqn:E; [|lia].
      apply contains_char_count in E. congruence. }
    split_and!; [done|..].
    - split; [by eauto|done].
    - split; [done|]. intros (? & ? & [= <- <-] & ? & _). lia.
    - intros req. split; [done|].
      intros (p & c & r & [= <- <-] & H0 & _). lia. }
  apply contains_char_count in Ec.
  pose proof (length_split_on ":" chain) as Hlen.
  destruct (split_on ":" chain) as [|c [|r [|? ?]]] eqn:Es.
  - done.
  - split_and!; [done|..].
    + split; [done|]. intros (? & ? & [= <- <-] & ?). lia.
    + split; [|done]. intros _. exists pdbid, chain. split_and!; [done..|].
      simpl in Hlen. lia.
    + intros req. split; [done|].
      intros (p & c' & r' & [= <- ->] & _ & H1 & H2 & _).
      rewrite !count_char_append in Hlen. simpl in Hlen. lia.
  - apply split_on_two in Es as (-> & Hc & Hr).
    split_and!; [done|..].
    + split; [done|]. intros (? & ? & [= <- <-] & ?). lia.
    + split; [done|]. intros (? & ? & [= <- <-] & _ & Hne).
      rewrite count_char_append in Hne. simpl in Hne. lia.
    + intros req. split.
      * intros [= <-]. exists pdbid, c, r. split_and!; try done.
        simpl. destruct r as [|c0 r]; [done|]. simpl.
        by destruct (Ascii.eqb c0 "-").
      * intros (p & c' & r' & [= <- Heq] & _ & H1 & H2 & -> & _).
        assert (split_on ":" (c +:+ String ":" r) = [c'; r']) as Hs.
        { rewrite Heq. apply split_on_two. by split_and!. }
        rewrite (proj2 (split_on_two ":" _ c r)) in Hs by (by split_and!).
        by simplify_eq.
  - split_and!; [done|..].
    + split; [done|]. intros (? & ? & [= <- <-] & ?). lia.
    + split; [|done]. intros _. exists pdbid, chain. split_and!; [done..|].
      simpl in Hlen. lia.
    + intros req. split; [done|].
      intros (p & c' & r' & [= <- ->] & _ & H1 & H2 & _).
      rewrite !count_char_append in Hlen. simpl in Hlen. lia.
Qed.

(** X27. The hyphens of the selection. In the selection string every
    hyphen of [resnums] has become [ to ], except a hyphen that opens
    [resnums], which is kept as the sign of the first number inside back
    quotes: the selection holds one hyphen in that case and none
    otherwise, so the sign of a negative upper bound is lost. *)
Theorem X27_selection_keeps_a_leading_hyphen_only (resnums sel : string) :
  selection resnums = Some sel →
  count_char "-" sel = (if startswith resnums "-" then 1 else 0) ∧
  (startswith resnums "-" = false →
   sel = "resnum " +:+ replace_char "-" " to " resnums) ∧
  (∀ rest, resnums = String "-" rest →
   sel = "resnum `-" +:+ replace_char "-" " to " rest +:+ "`").
Proof.
  destruct resnums as [|c r]; [done|]. simpl.
  destruct (Ascii.eqb c "-") eqn:Ec; intros [= <-].
  - apply Ascii.eqb_eq in Ec. subst c. split_and!; [|done|].
    + rewrite !count_char_append. simpl. by rewrite count_replace_hyphen.
    + intros rest [= <-]. done.
  - split_and!; [| |intros rest [= -> _]; done].
    + rewrite count_char_append. simpl. by rewrite Ec, count_replace_hyphen.
    + by intros _.
Qed.

(** *** Reading a record *)

Section Records.
Context `{Numeric}.

Lemma float_rows_number_lines rows : ∀ xs rest,
  Forall (Forall is_word) rows →
  Forall2 (λ row x, floats row = Ok x) rows xs →
  float_rows (length rows) (number_lines rows +:+ rest) = Ok (xs, rest).
Proof.
  induction rows as [|row rows IH]; intros xs rest Hw Hf.
  - apply Forall2_nil_inv_l in Hf as ->. done.
  - apply Forall2_cons_inv_l in Hf as (x & xs' & Hx & Hf & ->).
    apply Forall_cons in Hw as [Hrow Hw].
    change (number_lines (row :: rows))
      with (join tab row +:+ nl +:+ number_lines rows).
    rewrite !append_assoc. cbn [length float_rows].
    rewrite readline_one_line by (by apply one_line_join_tab).
    rewrite split_join_tab by done. rewrite Hx. cbn [mbind result_bind].
    by rewrite (IH xs' rest Hw Hf).
Qed.

Lemma one_line_literal s :
  forallb (λ c, negb (Ascii.eqb c newline)) (chars s) = true → one_line s.
Proof.
  unfold one_line. intros Hs. apply Forall_forall. intros c Hc%list_elem_of_In.
  rewrite forallb_forall in Hs. specialize (Hs c Hc).
  apply negb_true_iff, Ascii.eqb_neq in Hs. done.
Qed.

(** One iteration on a header line. *)
Lemma read_loop_id fuel inc line fp d :
  one_line line →
  read_loop (S fuel) inc ("[ID]" +:+ nl +:+ line +:+ nl +:+ fp) d
  = read_loop fuel inc fp (update_id line d).
Proof.
  intros Hl. cbn [read_loop].
  rewrite (readline_one_line "[ID]") by (by apply one_line_literal).
  rewrite String.eqb_refl. by rewrite (readline_one_line line), but_last_nl.
Qed.

Lemma read_loop_primary fuel inc line fp d :
  one_line line →
  read_loop (S fuel) inc ("[PRIMARY]" +:+ nl +:+ line +:+ nl +:+ fp) d
  = read_loop fuel inc fp (update_primary line d).
Proof.
  intros Hl. cbn [read_loop].
  rewrite (readline_one_line "[PRIMARY]") by (by apply one_line_literal).
  assert (("[PRIMARY]" +:+ nl =? "[ID]" +:+ nl)%string = false) as -> by done.
  rewrite String.eqb_refl. by rewrite (readline_one_line line), but_last_nl.
Qed.

Lemma read_loop_evolutionary fuel inc rows xs fp d :
  length rows = 21 → Forall (Forall is_word) rows →
  Forall2 (λ row x, floats row = Ok x) rows xs →
  read_loop (S fuel) inc
    ("[EVOLUTIONARY]" +:+ nl +:+ number_lines rows +:+ fp) d
  = read_loop fuel inc fp (update_evolutionary (asarray_T xs) d).
Proof.
  intros Hlen Hw Hf. cbn [read_loop].
  rewrite (readline_one_line "[EVOLUTIONARY]") by (by apply one_line_literal).
  assert (("[EVOLUTIONARY]" +:+ nl =? "[ID]" +:+ nl)%string = false) as ->
    by done.
  assert (("[EVOLUTIONARY]" +:+ nl =? "[PRIMARY]" +:+ nl)%string = false) as ->
    by done.
  rewrite String.eqb_refl, <- Hlen.
  by rewrite (float_rows_number_lines rows xs fp Hw Hf).
Qed.

Lemma read_loop_secondary fuel inc line sec fp d :
  one_line line → codes _dssp_dict (chars line) = Ok sec →
  read_loop (S fuel) inc ("[SECONDARY]" +:+ nl +:+ line +:+ nl +:+ fp) d
  = read_loop fuel inc fp (update_secondary sec d).
Proof.
  intros Hl Hc. cbn [read_loop].
  rewrite (readline_one_line "[SECONDARY]") by (by apply one_line_literal).
  assert (("[SECONDARY]" +:+ nl =? "[ID]" +:+ nl)%string = false) as -> by done.
  assert (("[SECONDARY]" +:+ nl =? "[PRIMARY]" +:+ nl)%string = false) as ->
    by done.
  assert (("[SECONDARY]" +:+ nl =? "[EVOLUTIONARY]" +:+ nl)%string = false)
    as -> by done.
  rewrite String.eqb_refl. by rewrite (readline_one_line line), but_last_nl, Hc.
Qed.

Lemma read_loop_tertiary fuel rows xs fp d :
  length rows = 3 → Forall (Forall is_word) rows →
  Forall2 (λ row x, floats row = Ok x) rows xs →
  read_loop (S fuel) true ("[TERTIARY]" +:+ nl +:+ number_lines rows +:+ fp) d
  = read_loop fuel true fp (update_tertiary xs d).
Proof.
  intros Hlen Hw Hf. cbn [read_loop].
  rewrite (readline_one_line "[TERTIARY]") by (by apply one_line_literal).
  assert (("[TERTIARY]" +:+ nl =? "[ID]" +:+ nl)%string = false) as -> by done.
  assert (("[TERTIARY]" +:+ nl =? "[PRIMARY]" +:+ nl)%string = false) as ->
    by done.
  assert (("[TERTIARY]" +:+ nl =? "[EVOLUTIONARY]" +:+ nl)%string = false)
    as -> by done.
  assert (("[TERTIARY]" +:+ nl =? "[SECONDARY]" +:+ nl)%string = false) as ->
    by done.
  rewrite String.eqb_refl. cbn [andb]. rewrite <- Hlen.
  by rewrite (float_rows_number_lines rows xs fp Hw Hf).
Qed.

Lemma read_loop_mask fuel inc line msk fp d :
  one_line line → codes _mask_dict (chars line) = Ok msk →
  read_loop (S fuel) inc ("[MASK]" +:+ nl +:+ line +:+ nl +:+ fp) d
  = read_loop fuel inc fp (update_mask msk d).
Proof.
  intros Hl Hc. cbn [read_loop].
  rewrite (readline_one_line "[MASK]") by (by apply one_line_literal).
  assert (("[MASK]" +:+ nl =? "[ID]" +:+ nl)%string = false) as -> by done.
  assert (("[MASK]" +:+ nl =? "[PRIMARY]" +:+ nl)%string = false) as -> by done.
  assert (("[MASK]" +:+ nl =? "[EVOLUTIONARY]" +:+ nl)%string = false) as ->
    by done.
  assert (("[MASK]" +:+ nl =? "[SECONDARY]" +:+ nl)%string = false) as ->
    by done.
  assert (("[MASK]" +:+ nl =? "[TERTIARY]" +:+ nl)%string = false) as -> by done.
  rewrite String.eqb_refl. cbn [andb].
  by rewrite (readline_one_line line), but_last_nl, Hc.
Qed.

Lemma read_loop_blank fuel inc fp d :
  read_loop (S fuel) inc (nl +:+ fp) d = Some (Ok (Some d, fp)).
Proof. done. Qed.

Lemma read_loop_eof fuel inc d :
  read_loop (S fuel) inc EmptyString d = Some (Ok (None, EmptyString)).
Proof. done. Qed.

(** One iteration on a line that is no header: it is skipped. *)
Lemma eqb_first_char c s t c' :
  Ascii.eqb c c' = false → (String c s =? String c' t)%string = false.
Proof. intros Hc. simpl. by rewrite Hc. Qed.

Lemma read_loop_skip fuel inc c line fp d :
  one_line (String c line) → Ascii.eqb c "["%char = false →
  read_loop (S fuel) inc (String c line +:+ nl +:+ fp) d
  = read_loop fuel inc fp d.
Proof.
  intros Hl Hc. cbn [read_loop]. rewrite (readline_one_line _ _ Hl).
  assert (Ascii.eqb c newline = false) as Hn.
  { apply Ascii.eqb_neq. unfold one_line in Hl. simpl in Hl.
    by apply Forall_cons in Hl as [? _]. }
  assert (∀ h, (String c line +:+ nl =? String "[" h +:+ nl)%string = false)
    as Hh.
  { intros h. rewrite !append_cons. by apply eqb_first_char. }
  assert ((String c line +:+ nl =? nl)%string = false) as Hnl.
  { rewrite append_cons. by apply eqb_first_char. }
  rewrite !Hh, Hnl. cbn [andb]. by rewrite append_cons.
Qed.

Lemma read_loop_tertiary_off fuel fp d :
  read_loop (S fuel) false ("[TERTIARY]" +:+ nl +:+ fp) d
  = read_loop fuel false fp d.
Proof.
  cbn [read_loop].
  rewrite (readline_one_line "[TERTIARY]") by (by apply one_line_literal).
  done.
Qed.

Lemma read_loop_skip_rows rows : ∀ fuel fp d,
  Forall (Forall is_word) rows →
  Forall (λ row, ∃ w ws, row = w :: ws ∧ startswith w "[" = false) rows →
  read_loop (length rows + fuel) false (number_lines rows +:+ fp) d
  = read_loop fuel false fp d.
Proof.
  induction rows as [|row rows IH]; intros fuel fp d Hw Hs; [done|].
  apply Forall_cons in Hw as [Hrow Hw].
  apply Forall_cons in Hs as [(w & ws & -> & Hb) Hs].
  change (number_lines ((w :: ws) :: rows))
    with (join tab (w :: ws) +:+ nl +:+ number_lines rows).
  rewrite !append_assoc. cbn [length Nat.add].
  pose proof (one_line_join_tab _ Hrow) as Hl.
  assert (∃ c s, join tab (w :: ws) = String c s ∧ Ascii.eqb c "[" = false)
    as (c & s & Heq & Hc).
  { apply Forall_cons in Hrow as [[Hne _] _].
    destruct w as [|c w']; [done|]. simpl in Hb.
    destruct ws; [by exists c, w'|].
    eexists c, _. split; [|done].
    change (join tab (String c w' :: s :: ws))
      with (String c w' +:+ tab +:+ join tab (s :: ws)).
    by rewrite append_cons. }
  rewrite Heq in Hl |- *. rewrite read_loop_skip by done. by apply IH.
Qed.

(** The sections of a written record, read one after the other. *)
Lemma read_record_body s inc r fuel rest d0 :
  spells s inc r →
  read_loop ((if inc then 6 else 9) + fuel) inc (record_body s +:+ rest) d0
  = read_loop fuel inc rest
      (Record_ (Some (src_id s)) (Some (src_primary s)) (evolutionary r)
         (secondary r) (if inc then tertiary r else tertiary d0) (mask r)).
Proof.
  intros (Hid & Hpr & Hsec & Hmsk & Hle & Hlt & Hwe & Hwt & Hst
          & evo & ter & sec & msk & Hfe & Hft & Hcs & Hcm & ->).
  unfold record_body. rewrite !append_assoc. destruct inc.
  - cbn [Nat.add]. rewrite read_loop_id by done.
    rewrite read_loop_primary by done.
    rewrite (read_loop_evolutionary _ _ _ evo) by done.
    rewrite (read_loop_secondary _ _ _ sec) by done.
    rewrite (read_loop_tertiary _ _ ter) by done.
    rewrite (read_loop_mask _ _ _ msk) by done. done.
  - cbn [Nat.add]. rewrite read_loop_id by done.
    rewrite read_loop_primary by done.
    rewrite (read_loop_evolutionary _ _ _ evo) by done.
    rewrite (read_loop_secondary _ _ _ sec) by done.
    rewrite read_loop_tertiary_off.
    change (S (S (S (S fuel)))) with (3 + S fuel). rewrite <- Hlt.
    rewrite read_loop_skip_rows by done.
    rewrite (read_loop_mask _ _ _ msk) by done. done.
Qed.

Lemma length_record_body s : 10 ≤ String.length (record_body s).
Proof.
  unfold record_body. rewrite !length_append. simpl. lia.
Qed.

Lemma spells_record s inc r :
  spells s inc r →
  r = Record_ (Some (src_id s)) (Some (src_primary s)) (evolutionary r)
        (secondary r) (if inc then tertiary r else None) (mask r).
Proof.
  intros (_ & _ & _ & _ & _ & _ & _ & _ & _ & evo & ter & sec & msk & _ & _
          & _ & _ & ->). by destruct inc.
Qed.

Lemma read_written_record s inc r rest :
  spells s inc r →
  read_protein_from_file (record_text s +:+ rest) inc = Some (Ok (Some r, rest)).
Proof.
  intros Hs. unfold read_protein_from_file, record_text.
  rewrite !append_assoc.
  pose proof (length_record_body s) as Hlen.
  assert (∃ m, S (String.length (record_body s +:+ nl +:+ rest))
               = (if inc then 6 else 9) + S m) as [m ->].
  { assert (10 ≤ String.length (record_body s +:+ nl +:+ rest)) as Hn
      by (rewrite length_append; lia).
    exists (String.length (record_body s +:+ nl +:+ rest)
            - (if inc then 6 else 9)).
    destruct inc; lia. }
  rewrite (read_record_body s inc r (S m) _ empty Hs).
  rewrite read_loop_blank.
  assert (Record_ (Some (src_id s)) (Some (src_primary s)) (evolutionary r)
            (secondary r) (if inc then tertiary r else tertiary empty) (mask r)
          = r) as ->; [|done].
  etransitivity; [|symmetry; apply (spells_record s inc r Hs)].
  by destruct inc.
Qed.

Lemma read_cut_off_record s inc r :
  spells s inc r →
  read_protein_from_file (record_body s) inc
  = Some (Ok (None, EmptyString)).
Proof.
  intros Hs. unfold read_protein_from_file.
  pose proof (length_record_body s) as Hlen.
  assert (∃ m, S (String.length (record_body s))
               = (if inc then 6 else 9) + S m) as [m ->].
  { exists (String.length (record_body s) - (if inc then 6 else 9)).
    destruct inc; lia. }
  rewrite <- (append_nil_r (record_body s)).
  rewrite (read_record_body s inc r (S m) _ empty Hs). done.
Qed.

(** X21. Reading back what was written. From a file that starts with the
    text of a well-formed record (the six sections and an empty line),
    [read_protein_from_file] returns the values the text spells, the
    coordinates only if they are asked for, and leaves the file at the
    first character after the empty line. When the empty line is missing
    and the file ends with the last section, it returns [None]: the record
    is dropped. *)
Theorem X21_written_record_is_read_back (s : source) (include_tertiary : bool)
    (r : record) (rest : string) :
  spells s include_tertiary r →
  read_protein_from_file (record_text s +:+ rest) include_tertiary
  = Some (Ok (Some r, rest)) ∧
  read_protein_from_file (record_body s) include_tertiary
  = Some (Ok (None, EmptyString)).
Proof.
  intros Hs. split; [by apply read_written_record|].
  by eapply read_cut_off_record.
Qed.

(** *** Where a record ends *)

Lemma floats_only_ValueError words e : floats words = Raise e → e = ValueError.
Proof.
  induction words as [|w ws IH]; [done|]. simpl.
  destruct (float w); [|congruence].
  destruct (floats ws); cbn [mbind result_bind]; [done|]. intros [= <-]. auto.
Qed.

Lemma codes_only_KeyError d s e : codes d s = Raise e → e = KeyError.
Proof.
  induction s as [|c s IH]; [done|]. simpl.
  destruct (getchar d c) as [v|e1] eqn:Eg; cbn [mbind result_bind].
  - destruct (codes d s); cbn [mbind result_bind]; [done|].
    intros [= <-]. auto.
  - intros [= <-]. clear IH. induction d as [|[c' v] d IHd]; simpl in Eg.
    + congruence.
    + destruct (Ascii.eqb c c'); [done|auto].
Qed.

Lemma float_rows_spec n : ∀ fp,
  match float_rows n fp with
  | Raise e => e = ValueError
  | Ok (_, fp') =>
      ∃ c, fp = c +:+ fp' ∧
           (fp' = EmptyString ∨ c = EmptyString ∨ ∃ p, c = p +:+ nl)
  end.
Proof.
  induction n as [|n IH]; intros fp; simpl.
  - exists EmptyString. split; [done|]. auto.
  - destruct (readline fp) as [line fp1] eqn:E1.
    apply readline_spec in E1 as (-> & Hcase & _).
    destruct (floats (split line)) as [row|e] eqn:Ef; cbn [mbind result_bind].
    2:{ by eapply floats_only_ValueError. }
    specialize (IH fp1). destruct (float_rows n fp1) as [[rows fp2]|e];
      cbn [mbind result_bind]; [|done].
    destruct IH as (c & -> & Hc). exists (line +:+ c).
    split; [by rewrite append_assoc|].
    destruct Hc as [?|[->|[p ->]]]; [by left| |].
    + rewrite append_nil in Hcase. rewrite append_nil_r.
      destruct Hcase as [?|[l ->]]; [by left|right; right; by exists l].
    + right; right. exists (line +:+ p). by rewrite append_assoc.
Qed.

(** One iteration of the loop: it returns the dict at an empty line,
    returns [None] at the end of the file, raises, or goes on after the
    lines of one section or one line it skips. *)
Lemma read_step fuel inc fp d :
  (∃ fp1, fp = nl +:+ fp1 ∧
          read_loop (S fuel) inc fp d = Some (Ok (Some d, fp1))) ∨
  (fp = EmptyString ∧
   read_loop (S fuel) inc fp d = Some (Ok (None, EmptyString))) ∨
  (∃ e, (e = KeyError ∨ e = ValueError) ∧
        read_loop (S fuel) inc fp d = Some (Raise e)) ∨
  (∃ c fp2 d2,
     fp = c +:+ fp2 ∧ c ≠ EmptyString ∧
     (fp2 = EmptyString ∨ ∃ p, c = p +:+ nl) ∧
     (inc = false → tertiary d2 = tertiary d) ∧
     read_loop (S fuel) inc fp d = read_loop fuel inc fp2 d2).
Proof.
  cbn [read_loop]. destruct (readline fp) as [next_line fp1] eqn:E1.
  apply readline_spec in E1 as (-> & Hcase1 & Hempty & _).
  assert (∀ line fp2,
            next_line ≠ EmptyString → readline fp1 = (line, fp2) →
            ∃ c, next_line +:+ fp1 = c +:+ fp2 ∧ c ≠ EmptyString ∧
                 (fp2 = EmptyString ∨ ∃ p, c = p +:+ nl)) as Hline.
  { intros line fp2 Hne (-> & Hcase2 & _)%readline_spec.
    exists (next_line +:+ line). split; [by rewrite append_assoc|].
    split; [by destruct next_line|].
    destruct Hcase2 as [?|[l ->]]; [by left|right].
    exists (next_line +:+ l). by rewrite append_assoc. }
  assert (∀ n,
            next_line ≠ EmptyString →
            match float_rows n fp1 with
            | Raise e => e = ValueError
            | Ok (_, fp2) =>
                ∃ c, next_line +:+ fp1 = c +:+ fp2 ∧ c ≠ EmptyString ∧
                     (fp2 = EmptyString ∨ ∃ p, c = p +:+ nl)
            end) as Hrows.
  { intros n Hne. pose proof (float_rows_spec n fp1) as Hs.
    destruct (float_rows n fp1) as [[rows fp2]|e]; [|done].
    destruct Hs as (c & -> & Hc). exists (next_line +:+ c).
    split; [by rewrite append_assoc|]. split; [by destruct next_line|].
    destruct Hc as [?|[->|[p ->]]]; [by left| |].
    - rewrite append_nil in Hcase1. rewrite append_nil_r.
      destruct Hcase1 as [?|[l ->]]; [by left|right; by exists l].
    - right. exists (next_line +:+ p). by rewrite append_assoc. }
  destruct (next_line =? "[ID]" +:+ nl)%string eqn:T1.
  { apply String.eqb_eq in T1.
    destruct (readline fp1) as [line fp2] eqn:E2.
    destruct (Hline line fp2) as (c & Heq & Hne & Hc); [by subst|done|].
    do 3 right. by exists c, fp2, (update_id (but_last line) d). }
  destruct (next_line =? "[PRIMARY]" +:+ nl)%string eqn:T2.
  { apply String.eqb_eq in T2.
    destruct (readline fp1) as [line fp2] eqn:E2.
    destruct (Hline line fp2) as (c & Heq & Hne & Hc); [by subst|done|].
    do 3 right. by exists c, fp2, (update_primary (but_last line) d). }
  destruct (next_line =? "[EVOLUTIONARY]" +:+ nl)%string eqn:T3.
  { apply String.eqb_eq in T3. specialize (Hrows 21).
    destruct (float_rows 21 fp1) as [[rows fp2]|e].
    - destruct Hrows as (c & Heq & Hne & Hc); [by subst|].
      do 3 right.
      by exists c, fp2, (update_evolutionary (asarray_T rows) d).
    - right; right; left. exists e. split; [|done]. right. apply Hrows.
      by subst. }
  destruct (next_line =? "[SECONDARY]" +:+ nl)%string eqn:T4.
  { apply String.eqb_eq in T4.
    destruct (readline fp1) as [line fp2] eqn:E2.
    destruct (Hline line fp2) as (c & Heq & Hne & Hc); [by subst|done|].
    destruct (codes _dssp_dict (chars (but_last line))) as [sec|e] eqn:Ec.
    - do 3 right. by exists c, fp2, (update_secondary sec d).
    - right; right; left. exists e. split; [|done]. left.
      by eapply codes_only_KeyError. }
  destruct ((next_line =? "[TERTIARY]" +:+ nl)%string && inc) eqn:T5.
  { apply andb_true_iff in T5 as [T5%String.eqb_eq ->].
    specialize (Hrows 3).
    destruct (float_rows 3 fp1) as [[rows fp2]|e].
    - destruct Hrows as (c & Heq & Hne & Hc); [by subst|].
      do 3 right. by exists c, fp2, (update_tertiary rows d).
    - right; right; left. exists e. split; [|done]. right. apply Hrows.
      by subst. }
  destruct (next_line =? "[MASK]" +:+ nl)%string eqn:T6.
  { apply String.eqb_eq in T6.
    destruct (readline fp1) as [line fp2] eqn:E2.
    destruct (Hline line fp2) as (c & Heq & Hne & Hc); [by subst|done|].
    destruct (codes _mask_dict (chars (but_last line))) as [msk|e] eqn:Ec.
    - do 3 right. by exists c, fp2, (update_mask msk d).
    - right; right; left. exists e. split; [|done]. left.
      by eapply codes_only_KeyError. }
  destruct (next_line =? nl)%string eqn:T7.
  { apply String.eqb_eq in T7. subst next_line. left. by exists fp1. }
  destruct (next_line =? EmptyString)%string eqn:T8.
  { apply String.eqb_eq in T8. subst next_line.
    pose proof (Hempty eq_refl) as Hfp. rewrite append_nil in Hfp. subst fp1.
    right; left. done. }
  apply String.eqb_neq in T8. do 3 right. exists next_line, fp1, d.
  split_and!; [done|done| |done|done].
  destruct Hcase1 as [?|[l ->]]; [by left|right; by exists l].
Qed.

Lemma length_append_lt c fp2 :
  c ≠ EmptyString → String.length fp2 < String.length (c +:+ fp2).
Proof. intros Hc. rewrite length_append. destruct c; [done|simpl; lia]. Qed.

Lemma read_loop_spec fuel : ∀ inc fp d,
  String.length fp < fuel →
  ∃ r, read_loop fuel inc fp d = Some r ∧
    match r with
    | Raise e => e = KeyError ∨ e = ValueError
    | Ok (None, rest) => rest = EmptyString
    | Ok (Some d', rest) =>
        (∃ mid, fp = mid +:+ nl +:+ rest ∧
                (mid = EmptyString ∨ ∃ p, mid = p +:+ nl)) ∧
        (inc = false → tertiary d' = tertiary d)
    end.
Proof.
  induction fuel as [|fuel IH]; intros inc fp d Hlen; [lia|].
  destruct (read_step fuel inc fp d)
    as [(fp1 & -> & ->)|[[-> ->]|[(e & He & ->)|(c & fp2 & d2 & -> & Hne & Hc
                                                 & Ht & ->)]]].
  - eexists. split; [done|]. split; [|done]. exists EmptyString. auto.
  - by eexists.
  - by eexists.
  - pose proof (length_append_lt c fp2 Hne).
    destruct (IH inc fp2 d2) as (r & Hr & Hspec); [lia|].
    exists r. split; [done|]. destruct r as [[[d'|] rest]|e]; [|done..].
    destruct Hspec as [(mid & -> & Hmid) Ht']. split.
    + exists (c +:+ mid). split; [by rewrite append_assoc|].
      destruct Hmid as [->|[p ->]].
      * rewrite append_nil_r. destruct Hc as [Hc|[p ->]]; [|right; by exists p].
        rewrite append_nil in Hc. done.
      * right. exists (c +:+ p). by rewrite append_assoc.
    + intros Hinc. by rewrite Ht', Ht.
Qed.

(** X22. Where a record ends. [read_protein_from_file] always comes back:
    it raises [KeyError] or [ValueError], or returns [None] with the file
    read to its end, or returns a dict; in the last case what it has read
    ends with an empty line, that is, with a newline that opens the file or
    follows another newline, and the dict has no coordinates unless they
    were asked for. So sections that no empty line follows are never
    returned. *)
Theorem X22_record_ends_at_empty_line (file_pointer : string)
    (include_tertiary : bool) :
  ∃ r, read_protein_from_file file_pointer include_tertiary = Some r ∧
    match r with
    | Raise e => e = KeyError ∨ e = ValueError
    | Ok (None, rest) => rest = EmptyString
    | Ok (Some d, rest) =>
        (∃ mid, file_pointer = mid +:+ nl +:+ rest ∧
                (mid = EmptyString ∨ ∃ p, mid = p +:+ nl)) ∧
        (include_tertiary = false → tertiary d = None)
    end.
Proof.
  unfold read_protein_from_file.
  destruct (read_loop_spec (S (String.length file_pointer)) include_tertiary
              file_pointer empty) as (r & Hr & Hspec); [lia|].
  exists r. split; [done|]. by destruct r as [[[d|] rest]|e].
Qed.

(** *** A whole file *)

Lemma process_loop_step fuel b s r rest txt md ids :
  spells s true r →
  process_loop (S fuel) b (record_text s +:+ rest) txt md ids
  = process_loop fuel b rest (txt +:+ src_id s +:+ nl)
      (<[src_id s := del_id r]> md) (if b then ids ++ [src_id s] else ids).
Proof.
  intros Hs. cbn [process_loop]. rewrite (read_written_record s true r rest Hs).
  by rewrite (spells_record s true r Hs) at 1.
Qed.

Lemma process_loop_records sources : ∀ rs fuel b rest txt md ids,
  Forall2 (λ s r, spells s true r) sources rs →
  process_loop (length sources + fuel) b (records_text sources +:+ rest)
    txt md ids
  = process_loop fuel b rest (txt +:+ id_lines sources)
      (foldl (λ m sr, <[src_id sr.1 := del_id sr.2]> m) md (zip sources rs))
      (if b then ids ++ map src_id sources else ids).
Proof.
  induction sources as [|s sources IH]; intros rs fuel b rest txt md ids Hs.
  - apply Forall2_nil_inv_l in Hs as ->. simpl.
    rewrite append_nil_r, app_nil_r. by destruct b.
  - apply Forall2_cons_inv_l in Hs as (r & rs' & Hr & Hs & ->).
    change (records_text (s :: sources))
      with (record_text s +:+ records_text sources).
    change (id_lines (s :: sources))
      with (src_id s +:+ nl +:+ id_lines sources).
    rewrite append_assoc. cbn [length Nat.add].
    rewrite (process_loop_step _ _ s r) by done.
    rewrite (IH rs' fuel b rest _ _ _ Hs). simpl.
    rewrite !append_assoc. destruct b; [|done]. by rewrite <- app_assoc.
Qed.

Lemma length_records_text sources :
  length sources ≤ String.length (records_text sources).
Proof.
  induction sources as [|s sources IH]; [done|].
  change (records_text (s :: sources))
    with (record_text s +:+ records_text sources).
  rewrite length_append. unfold record_text. rewrite length_append.
  pose proof (length_record_body s). simpl. lia.
Qed.

Lemma foldl_insert_last (sources : list source) (rs : list record) :
  ∀ (md : gmap string record) i s r,
  length sources = length rs →
  sources !! i = Some s → rs !! i = Some r →
  (∀ j s', i < j → sources !! j = Some s' → src_id s' ≠ src_id s) →
  foldl (λ m sr, <[src_id sr.1 := del_id sr.2]> m) md (zip sources rs)
    !! src_id s = Some (del_id r).
Proof.
  revert rs. induction sources as [|s0 sources IH];
    intros [|r0 rs] md i s r Hlen Hs Hr Hlast; try done.
  simpl. destruct i as [|i]; simpl in Hs, Hr.
  - simplify_eq. clear IH.
    assert (∀ s', s' ∈ sources → src_id s' ≠ src_id s) as Hne.
    { intros s' (j & Hj)%list_elem_of_lookup_1. by apply (Hlast (S j)); [lia|]. }
    clear Hlast. simpl in Hlen.
    assert (∀ md : gmap string record,
              md !! src_id s = Some (del_id r) →
              foldl (λ m sr, <[src_id sr.1 := del_id sr.2]> m) md
                (zip sources rs) !! src_id s = Some (del_id r)) as Hkeep.
    { revert rs Hlen. induction sources as [|s1 sources IH];
        intros [|r1 rs] Hlen md' Hmd; try done.
      simpl. apply IH; [by intros s' Hs'; apply Hne; right| simpl in Hlen; lia|].
      rewrite lookup_insert_ne; [done|]. apply Hne. by left. }
    apply Hkeep. by rewrite lookup_insert_eq.
  - apply (IH rs _ i s r); [simpl in Hlen; lia|done|done|].
    intros j s' Hj Hs'. apply (Hlast (S j)); [lia|done].
Qed.

(** X23. A file of well-formed records, possibly followed by the sections
    of one more record that no empty line closes. [process_file] writes
    the identifiers of the complete records to the ids file, one per line
    and in file order, returns them if asked to, and pickles a dict that
    maps an identifier to the values of the last record that carries it,
    the identifier taken out; the sections at the end are dropped. *)
Theorem X23_process_file_lists_the_complete_records (sources : list source)
    (rs : list record) (tail : string) (return_ids : bool) :
  Forall2 (λ s r, spells s true r) sources rs →
  tail = EmptyString ∨ (∃ s r, spells s true r ∧ tail = record_body s) →
  ∃ meta,
    process_file (records_text sources +:+ tail) return_ids
    = Some (Ok (Processed (id_lines sources) meta
                  (if return_ids then Some (map src_id sources) else None))) ∧
    (∀ k, is_Some (meta !! k) ↔ ∃ s, s ∈ sources ∧ src_id s = k) ∧
    ∀ i s r, sources !! i = Some s → rs !! i = Some r →
      (∀ j s', i < j → sources !! j = Some s' → src_id s' ≠ src_id s) →
      meta !! src_id s = Some (del_id r).
Proof.
  intros Hs Htail.
  exists (foldl (λ m sr, <[src_id sr.1 := del_id sr.2]> m) ∅ (zip sources rs)).
  split_and!.
  - unfold process_file.
    assert (∃ m, S (String.length (records_text sources +:+ tail))
                 = length sources + S m) as [m ->].
    { pose proof (length_records_text sources). rewrite length_append.
      exists (String.length (records_text sources) + String.length tail
              - length sources). lia. }
    rewrite (process_loop_records sources rs (S m) return_ids tail _ _ _ Hs).
    cbn [process_loop].
    assert (∃ x, read_protein_from_file tail true = Some (Ok (None, x)))
      as [x ->].
    { destruct Htail as [->|(s & r & Hsr & ->)]; [by eexists|].
      rewrite (read_cut_off_record s true r Hsr). by eexists. }
    rewrite append_nil. by destruct return_ids.
  - intros k. pose proof (Forall2_length _ _ _ Hs) as Hlen. clear Hs Htail.
    assert (∀ md : gmap string record,
              is_Some (foldl (λ m sr, <[src_id sr.1 := del_id sr.2]> m) md
                         (zip sources rs) !! k) ↔
              is_Some (md !! k) ∨ ∃ s, s ∈ sources ∧ src_id s = k) as Hdom.
    { revert rs Hlen. induction sources as [|s0 sources IH];
        intros [|r0 rs] Hlen md; try done.
      - simpl. split; [auto|]. intros [?|(s & Hin & _)]; [done|].
        by apply elem_of_nil in Hin.
      - simpl. rewrite IH by (simpl in Hlen; lia).
        destruct (decide (src_id s0 = k)) as [<-|Hne].
        + rewrite lookup_insert_eq. split; [|by eauto].
          intros _. right. exists s0. split; [by left|done].
        + rewrite lookup_insert_ne by done. split.
          * intros [?|(s & Hin & Hk)]; [by left|right].
            exists s. split; [by right|done].
          * intros [?|(s & [->|Hin]%elem_of_cons & Hk)]; [by left|done|].
            right. by exists s. }
    rewrite Hdom, lookup_empty. split; [|by right].
    intros [[? ?]|?]; done.
  - intros i s r Hi Hr Hlast. apply (foldl_insert_last sources rs ∅ i s r);
      [by eapply Forall2_length|done..].
Qed.

(** X24. An empty line too many. After any number of well-formed records,
    an empty line where a record should start is read as a record without
    sections: [process_file] looks up its identifier and raises
    [KeyError], whatever follows in the file. *)
Theorem X24_process_file_fails_on_an_extra_empty_line (sources : list source)
    (rs : list record) (rest : string) (return_ids : bool) :
  Forall2 (λ s r, spells s true r) sources rs →
  process_file (records_text sources +:+ nl +:+ rest) return_ids
  = Some (Raise KeyError).
Proof.
  intros Hs. unfold process_file.
  assert (∃ m, S (String.length (records_text sources +:+ nl +:+ rest))
               = length sources + S m) as [m ->].
  { pose proof (length_records_text sources). rewrite length_append.
    exists (String.length (records_text sources)
            + String.length (nl +:+ rest) - length sources). lia. }
  rewrite (process_loop_records sources rs (S m) return_ids _ _ _ _ Hs).
  cbn [process_loop]. unfold read_protein_from_file.
  by rewrite read_loop_blank.
Qed.

End Records.

(** *** The mask, printed and read *)

Lemma chars_mask_string seq_mask :
  chars (OpenfoldLoss.mask_string seq_mask)
  = map (λ x, if (x =? 1)%Z then "+"%char else "-"%char) seq_mask.
Proof.
  induction seq_mask as [|x m IH]; [done|]. simpl. by rewrite IH.
Qed.

(** X25. A mask that [openfold_loss.py] prints is a mask that [parse.py]
    reads. The string printed for a sequence mask has one character per
    entry, none of them a newline, and read through the mask alphabet of
    [read_protein_from_file] it gives 1 where the entry is 1 and 0
    elsewhere: a mask of zeros and ones comes back as it is. *)
Theorem X25_printed_mask_is_read_back (seq_mask : list Z) :
  String.length (OpenfoldLoss.mask_string seq_mask) = length seq_mask ∧
  one_line (OpenfoldLoss.mask_string seq_mask) ∧
  codes _mask_dict (chars (OpenfoldLoss.mask_string seq_mask))
  = Ok (map (λ x, if (x =? 1)%Z then 1%Z else 0%Z) seq_mask) ∧
  (Forall (λ x, x = 0%Z ∨ x = 1%Z) seq_mask →
   codes _mask_dict (chars (OpenfoldLoss.mask_string seq_mask)) = Ok seq_mask).
Proof.
  assert (codes _mask_dict (chars (OpenfoldLoss.mask_string seq_mask))
          = Ok (map (λ x, if (x =? 1)%Z then 1%Z else 0%Z) seq_mask)) as Hc.
  { rewrite chars_mask_string.
    induction seq_mask as [|x m IH]; [done|]. cbn [map codes].
    rewrite IH. by destruct (x =? 1)%Z. }
  split_and!; [| |done|].
  - clear Hc. induction seq_mask as [|x m IH]; [done|]. simpl. by rewrite IH.
  - unfold one_line. rewrite chars_mask_string. apply Forall_fmap.
    apply Forall_forall. intros x _. simpl. by destruct (x =? 1)%Z.
  - intros H01. rewrite Hc. f_equal. clear Hc.
    induction H01 as [|x m [-> | ->] _ IH]; [done|..]; simpl; by rewrite IH.
Qed.

(** *** The properties on the mocks *)

Lemma X19_astral_first_line_wins_witness :
  ∃ d,
    parse_astral_summary_file mock_astral = Ok d ∧
    (d !! "d1dlwa_" = Some ("1dlw", "A:") ↔
     "d1dlwa_" ≠ "-" ∧
     ∃ i line a b,
       mock_astral !! i = Some line ∧ startswith line "#" = false ∧
       split line !! 3 = Some "d1dlwa_" ∧
       split line !! 4 = Some a ∧ split line !! 5 = Some b ∧
       ("1dlw", "A:") = (a, b) ∧
       ∀ j line', j < i → mock_astral !! j = Some line' →
         startswith line' "#" = false → split line' !! 3 ≠ Some "d1dlwa_").
Proof.
  eexists. split; [reflexivity|].
  apply (X19_astral_first_line_wins mock_astral). reflexivity.
Defined.

Lemma X20_astral_succeeds_on_complete_lines_witness :
  nl ∈ mock_astral ++ [nl] ∧ startswith nl "#" = false ∧
  length (split nl) < 4 ∧
  parse_astral_summary_file (mock_astral ++ [nl]) = Raise IndexError.
Proof.
  assert (nl ∈ mock_astral ++ [nl]) as Hin.
  { apply elem_of_app. right. by left. }
  assert (length (split nl) < 4) as Hlen by (vm_compute; lia).
  split; [exact Hin|]. split; [reflexivity|]. split; [exact Hlen|].
  exact (proj2 (proj2 (X20_astral_succeeds_on_complete_lines
                         (mock_astral ++ [nl]))) nl Hin eq_refl Hlen).
Defined.

Lemma mock_word w :
  w ≠ EmptyString → forallb (λ c, negb (isspace c)) (chars w) = true →
  is_word w.
Proof.
  intros Hne Hw. split; [done|]. apply Forall_forall.
  intros c Hc%list_elem_of_In. rewrite forallb_forall in Hw.
  specialize (Hw c Hc). by apply negb_true_iff in Hw.
Qed.

Lemma mock_source_spells inc :
  @spells mock_numeric mock_source inc (mock_record inc).
Proof.
  unfold spells.
  split_and!; try (by apply one_line_literal); try done.
  - apply (Forall_replicate _ 21 ["0.5"; "0.25"]).
    repeat constructor; by apply mock_word.
  - apply (Forall_replicate _ 3 ["1.0"; "2.0"]).
    repeat constructor; by apply mock_word.
  - apply (Forall_replicate _ 3 ["1.0"; "2.0"]). by eexists _, _.
  - exists (replicate 21 ["0.5"; "0.25"]), (replicate 3 ["1.0"; "2.0"]),
      [0%Z; 1%Z], [1%Z; 0%Z].
    split_and!; [|  |done|done|done].
    + by apply (Forall2_replicate _ 21 ["0.5"; "0.25"] ["0.5"; "0.25"]).
    + by apply (Forall2_replicate _ 3 ["1.0"; "2.0"] ["1.0"; "2.0"]).
Qed.

Lemma X21_written_record_is_read_back_witness :
  @spells mock_numeric mock_source false (mock_record false) ∧
  @read_protein_from_file mock_numeric (record_text mock_source +:+ "[ID]")
    false = Some (Ok (Some (mock_record false), "[ID]")) ∧
  @read_protein_from_file mock_numeric (record_body mock_source) false
  = Some (Ok (None, EmptyString)).
Proof.
  split; [exact (mock_source_spells false)|].
  exact (@X21_written_record_is_read_back mock_numeric mock_source false
           (mock_record false) "[ID]" (mock_source_spells false)).
Defined.

Lemma X23_process_file_lists_the_complete_records_witness :
  Forall2 (λ s r, @spells mock_numeric s true r) [mock_source; mock_source]
    [mock_record true; mock_record true] ∧
  (record_body mock_source = EmptyString ∨
   ∃ s r, @spells mock_numeric s true r ∧
          record_body mock_source = record_body s) ∧
  ∃ meta,
    @process_file mock_numeric
      (records_text [mock_source; mock_source] +:+ record_body mock_source)
      true
    = Some (Ok (Processed (id_lines [mock_source; mock_source]) meta
                  (if true then Some (map src_id [mock_source; mock_source])
                   else None))) ∧
    (∀ k, is_Some (meta !! k) ↔
          ∃ s, s ∈ [mock_source; mock_source] ∧ src_id s = k) ∧
    ∀ i s r, [mock_source; mock_source] !! i = Some s →
      [mock_record true; mock_record true] !! i = Some r →
      (∀ j s', i < j → [mock_source; mock_source] !! j = Some s' →
                src_id s' ≠ src_id s) →
      meta !! src_id s = Some (del_id r).
Proof.
  assert (Forall2 (λ s r, @spells mock_numeric s true r)
            [mock_source; mock_source] [mock_record true; mock_record true])
    as Hs.
  { constructor; [apply mock_source_spells|].
    constructor; [apply mock_source_spells|constructor]. }
  assert (record_body mock_source = EmptyString ∨
          ∃ s r, @spells mock_numeric s true r ∧
                 record_body mock_source = record_body s) as Htail.
  { right. exists mock_source, (mock_record true).
    split; [apply mock_source_spells|done]. }
  split; [exact Hs|]. split; [exact Htail|].
  exact (@X23_process_file_lists_the_complete_records mock_numeric
           [mock_source; mock_source] [mock_record true; mock_record true]
           (record_body mock_source) true Hs Htail).
Defined.

Lemma X24_process_file_fails_on_an_extra_empty_line_witness :
  Forall2 (λ s r, @spells mock_numeric s true r) [mock_source]
    [mock_record true] ∧
  @process_file mock_numeric
    (records_text [mock_source] +:+ nl +:+ record_text mock_source) false
  = Some (Raise KeyError).
Proof.
  assert (Forall2 (λ s r, @spells mock_numeric s true r) [mock_source]
            [mock_record true]) as Hs.
  { constructor; [apply mock_source_spells|constructor]. }
  split; [exact Hs|].
  exact (@X24_process_file_fails_on_an_extra_empty_line mock_numeric
           [mock_source] [mock_record true] (record_text mock_source) false Hs).
Defined.

Lemma X25_printed_mask_is_read_back_witness :
  Forall (λ x, x = 0%Z ∨ x = 1%Z) [1%Z; 0%Z; 1%Z] ∧
  codes _mask_dict (chars (OpenfoldLoss.mask_string [1%Z; 0%Z; 1%Z]))
  = Ok [1%Z; 0%Z; 1%Z].
Proof.
  assert (Forall (λ x, x = 0%Z ∨ x = 1%Z) [1%Z; 0%Z; 1%Z]) as H01.
  { constructor; [by right|]. constructor; [by left|].
    constructor; [by right|constructor]. }
  split; [exact H01|].
  exact (proj2 (proj2 (proj2 (X25_printed_mask_is_read_back
                                [1%Z; 0%Z; 1%Z]))) H01).
Defined.

Lemma X26_chain_request_by_cases_witness :
  (∅ : gmap string (string * string)) !! "d1dlwa_" = None ∧
  get_chain_from_astral_id "d1dlwa_" ∅ = Raise KeyError.
Proof.
  split; [reflexivity|].
  exact (proj2 (proj1 (X26_chain_request_by_cases "d1dlwa_" ∅)) eq_refl).
Defined.

Lemma X27_selection_keeps_a_leading_hyphen_only_witness :
  selection "-5-10" = Some "resnum `-5 to 10`" ∧
  count_char "-" "resnum `-5 to 10`"
  = (if startswith "-5-10" "-" then 1 else 0) ∧
  (startswith "-5-10" "-" = false →
   "resnum `-5 to 10`" = "resnum " +:+ replace_char "-" " to " "-5-10") ∧
  (∀ rest, "-5-10" = String "-" rest →
   "resnum `-5 to 10`" = "resnum `-" +:+ replace_char "-" " to " rest +:+ "`").
Proof.
  split; [reflexivity|].
  exact (X27_selection_keeps_a_leading_hyphen_only "-5-10" "resnum `-5 to 10`"
           eq_refl).
Defined.

End ParseFacts.

(** ** [openfold_loss.py]: the atom map *)

Module MappingFacts.
Import Builtins Mapping.

Section Dict.
Context {K V : Type} `{EqDecision K}.

Lemma elem_of_setitem (k : K) (v : V) d k' v' :
  (k', v') ∈ setitem k v d → (k' = k ∧ v' = v) ∨ (k', v') ∈ d.
Proof.
  induction d as [|[k0 v0] d IH]; simpl.
  - intros [= -> ->]%list_elem_of_singleton. by left.
  - destruct (decide (k = k0)) as [->|Hne].
    + intros [[= -> ->]|Hin]%elem_of_cons; [by left|right; by right].
    + intros [[= -> ->]|Hin]%elem_of_cons; [right; by left|].
      destruct (IH Hin) as [?|?]; [by left|right; by right].
Qed.

Lemma keys_setitem (k : K) (v : V) d k' :
  k' ∈ (setitem k v d).*1 ↔ k' = k ∨ k' ∈ d.*1.
Proof.
  induction d as [|[k0 v0] d IH]; simpl.
  - rewrite list_elem_of_singleton, elem_of_nil. tauto.
  - destruct (decide (k = k0)) as [->|Hne]; simpl; rewrite !elem_of_cons.
    + tauto.
    + rewrite IH. tauto.
Qed.

Lemma NoDup_keys_setitem (k : K) (v : V) d :
  NoDup d.*1 → NoDup (setitem k v d).*1.
Proof.
  induction d as [|[k0 v0] d IH]; simpl; intros Hnd.
  - apply NoDup_singleton.
  - apply NoDup_cons in Hnd as [Hnin Hnd].
    destruct (decide (k = k0)) as [->|Hne]; simpl.
    + by apply NoDup_cons.
    + apply NoDup_cons. split; [|by apply IH].
      rewrite keys_setitem. intros [?|?]; [congruence|done].
Qed.

Lemma get_Some_elem (k : K) (v : V) d : get k d = Some v → (k, v) ∈ d.
Proof.
  induction d as [|[k0 v0] d IH]; simpl; [done|].
  destruct (decide (k = k0)) as [->|Hne].
  - intros [= ->]. by left.
  - intros Hg. right. by apply IH.
Qed.

Lemma get_setitem_eq (k : K) (v : V) d : get k (setitem k v d) = Some v.
Proof.
  induction d as [|[k0 v0] d IH]; simpl.
  - by rewrite decide_True.
  - destruct (decide (k = k0)) as [->|Hne]; simpl.
    + by rewrite decide_True.
    + by rewrite decide_False.
Qed.

Lemma get_setitem_ne (k k' : K) (v : V) d :
  k' ≠ k → get k' (setitem k v d) = get k' d.
Proof.
  intros Hne. induction d as [|[k0 v0] d IH]; simpl.
  - by rewrite decide_False.
  - destruct (decide (k = k0)) as [->|Hne0]; simpl.
    + by rewrite !decide_False.
    + destruct (decide (k' = k0)); [done|apply IH].
Qed.

Lemma getitem_Some (k : K) (v : V) d : getitem d k = Ok v ↔ get k d = Some v.
Proof. unfold getitem. destruct (get k d); split; congruence. Qed.

(** A property of the items that every assignment of a loop keeps. *)
Lemma foldl_items_inv {A : Type} (P : K → V → Prop)
    (step : list (K * V) → A → list (K * V)) (l : list A) :
  (∀ d a, a ∈ l → NoDup d.*1 → (∀ k v, (k, v) ∈ d → P k v) →
          NoDup (step d a).*1 ∧ ∀ k v, (k, v) ∈ step d a → P k v) →
  NoDup (foldl step [] l).*1 ∧ ∀ k v, (k, v) ∈ foldl step [] l → P k v.
Proof.
  intros Hstep.
  assert (∀ l', l' ⊆ l → ∀ d, NoDup d.*1 → (∀ k v, (k, v) ∈ d → P k v) →
               NoDup (foldl step d l').*1 ∧
               ∀ k v, (k, v) ∈ foldl step d l' → P k v) as Hgen.
  { induction l' as [|a l' IH]; intros Hsub d Hnd HP; [done|]. simpl.
    destruct (Hstep d a) as [Hnd' HP']; [apply Hsub; by left|done..|].
    apply IH; [|done..]. intros x Hx. apply Hsub. by right. }
  apply (Hgen l); [done|constructor|]. by intros k v ?%elem_of_nil.
Qed.

Lemma for_each_items_inv {A : Type} (P : K → V → Prop)
    (body : A → list (K * V) → result (list (K * V))) (l : list A) d :
  for_each l body [] = Ok d →
  (∀ d d' a, a ∈ l → body a d = Ok d' →
             NoDup d.*1 → (∀ k v, (k, v) ∈ d → P k v) →
             NoDup d'.*1 ∧ ∀ k v, (k, v) ∈ d' → P k v) →
  NoDup d.*1 ∧ ∀ k v, (k, v) ∈ d → P k v.
Proof.
  intros Hloop Hstep.
  assert (∀ l', l' ⊆ l → ∀ d0, for_each l' body d0 = Ok d →
               NoDup d0.*1 → (∀ k v, (k, v) ∈ d0 → P k v) →
               NoDup d.*1 ∧ ∀ k v, (k, v) ∈ d → P k v) as Hgen.
  { induction l' as [|a l' IH]; intros Hsub d0 Hl Hnd HP.
    - simpl in Hl. by simplify_eq.
    - simpl in Hl. destruct (body a d0) as [d1|] eqn:Hb; [|done].
      cbn [mbind result_bind] in Hl.
      destruct (Hstep d0 d1 a) as [Hnd' HP']; [apply Hsub; by left|done..|].
      apply (IH ltac:(intros x Hx; apply Hsub; by right) d1); done. }
  apply (Hgen l ltac:(done) []); [done|constructor|].
  by intros k v ?%elem_of_nil.
Qed.

Lemma get_is_Some (k : K) (d : list (K * V)) : is_Some (get k d) ↔ k ∈ d.*1.
Proof.
  induction d as [|[k0 v0] d IH]; simpl.
  - rewrite elem_of_nil. split; [by intros [? ?]|done].
  - rewrite elem_of_cons. destruct (decide (k = k0)) as [->|Hne].
    + split; [by left|by eauto].
    + rewrite IH. split; [by right|]. by intros [?|?].
Qed.

End Dict.

(** A loop that looks a key up in a table for each item and assigns under
    it: it comes to its end exactly when every lookup succeeds, and then
    the keys assigned are the keys looked up. *)
Lemma keyed_loop_spec {A V : Type} (table : list (string * string))
    (f : A → string) (g : A → V) (l : list A) : ∀ d0,
  match for_each l (λ item d, k ← getitem table (f item);
                              Ok (setitem k (g item) d)) d0 with
  | Ok d =>
      (∀ item, item ∈ l → is_Some (get (f item) table)) ∧
      ∀ k, k ∈ d.*1 ↔
           k ∈ d0.*1 ∨ ∃ item, item ∈ l ∧ get (f item) table = Some k
  | Raise e =>
      e = KeyError ∧ ∃ item, item ∈ l ∧ get (f item) table = None
  end.
Proof.
  induction l as [|a l IH]; intros d0.
  - simpl. split; [by intros item ?%elem_of_nil|]. intros k. split; [auto|].
    intros [?|(item & ?%elem_of_nil & _)]; done.
  - cbn [for_each].
    destruct (get (f a) table) as [k0|] eqn:Hk.
    2:{ assert (getitem table (f a) = Raise KeyError) as ->
          by (unfold getitem; by rewrite Hk).
        cbn [mbind result_bind]. split; [done|].
        exists a. split; [by apply elem_of_cons; left|done]. }
    assert (getitem table (f a) = Ok k0) as ->
      by (unfold getitem; by rewrite Hk).
    cbn [mbind result_bind].
    specialize (IH (setitem k0 (g a) d0)).
    destruct (for_each l _ (setitem k0 (g a) d0)) as [d|e].
    + destruct IH as [Hall Hkeys]. split.
      * intros item [->|Hin]%elem_of_cons; [by rewrite Hk|by apply Hall].
      * intros k. rewrite Hkeys, keys_setitem. split.
        -- intros [[->|?]|(item & Hin & Hi)]; [|by left|].
           ++ right. exists a. split; [by apply elem_of_cons; left|done].
           ++ right. exists item. split; [by apply elem_of_cons; right|done].
        -- intros [?|(item & [->|Hin]%elem_of_cons & Hi)]; [by auto| |].
           ++ left. left. congruence.
           ++ right. by exists item.
    + destruct IH as [-> (item & Hin & Hi)]. split; [done|].
      exists item. split; [by apply elem_of_cons; right|done].
Qed.

Lemma name_index_spec keep atom_names :
  NoDup (name_index keep atom_names).*1 ∧
  ∀ name i, (name, i) ∈ name_index keep atom_names →
    atom_names !! i = Some name ∧ keep name = true.
Proof.
  unfold name_index. apply foldl_items_inv.
  intros d [i name] Hin Hnd HP. simpl. destruct (keep name) eqn:Hk; [|done].
  split; [by apply NoDup_keys_setitem|].
  intros k v [[-> ->]|Hin']%elem_of_setitem; [|by apply HP].
  apply elem_of_lookup_imap in Hin as (j & y & [= -> ->] & Hj). done.
Qed.

Section Mapping.
Context `{Tables}.

Lemma openfold_index_spec resname names_idx :
  (resname, names_idx) ∈ openfold_name_to_openfold_idx →
  ∃ atom_names,
    (resname, atom_names) ∈ restype_name_to_atom14_names ∧
    names_idx
    = name_index (λ a, negb (a =? EmptyString)%string) atom_names.
Proof.
  revert resname names_idx. unfold openfold_name_to_openfold_idx.
  apply foldl_items_inv. intros d [resname atom_names] Hin Hnd HP. simpl.
  split; [by apply NoDup_keys_setitem|].
  intros k v [[-> ->]|Hin']%elem_of_setitem; [by eauto|by apply HP].
Qed.

Lemma scn_index_spec scn :
  scn_name_to_scn_idx = Ok scn →
  ∀ resname names_idx, (resname, names_idx) ∈ scn →
    ∃ resid atom_names,
      (resid, atom_names) ∈ ATOM_MAP_HEAVY ∧
      get resid ONE_TO_THREE_LETTER_MAP = Some resname ∧
      names_idx = name_index (λ a, negb (a =? "PAD")%string) atom_names.
Proof.
  unfold scn_name_to_scn_idx. intros Hloop.
  eapply for_each_items_inv; [exact Hloop|].
  intros d d' [resid atom_names] Hin Hbody Hnd HP. simpl in Hbody.
  destruct (getitem ONE_TO_THREE_LETTER_MAP resid) as [resname|] eqn:Hg;
    [|done].
  cbn [mbind result_bind] in Hbody. simplify_eq. apply getitem_Some in Hg.
  split; [by apply NoDup_keys_setitem|].
  intros k v [[-> ->]|Hin']%elem_of_setitem; [by eauto|by apply HP].
Qed.

Lemma pair_up_spec resname scn_atomnames :
  NoDup (pair_up resname scn_atomnames).*1 ∧
  ∀ s t, (s, t) ∈ pair_up resname scn_atomnames →
    ∃ name names_idx,
      (name, t) ∈ scn_atomnames ∧
      get resname openfold_name_to_openfold_idx = Some names_idx ∧
      get name names_idx = Some s.
Proof.
  unfold pair_up. apply foldl_items_inv.
  intros d [name t] Hin Hnd HP. simpl.
  destruct (get resname openfold_name_to_openfold_idx) as [names_idx|] eqn:Ho;
    simpl; [|done].
  destruct (get name names_idx) as [s|] eqn:Hs; [|done].
  split; [by apply NoDup_keys_setitem|].
  intros k v [[-> ->]|Hin']%elem_of_setitem; [by eauto|by apply HP].
Qed.

Lemma residues_spec scn res :
  for_each scn
    (λ item d,
       rescode ← getitem THREE_TO_ONE_LETTER_MAP item.1;
       let pairs := pair_up item.1 item.2 in
       Ok (setitem rescode (pairs.*1, pairs.*2) d)) [] = Ok res →
  ∀ rescode st, (rescode, st) ∈ res →
    ∃ resname names_idx,
      (resname, names_idx) ∈ scn ∧
      get resname THREE_TO_ONE_LETTER_MAP = Some rescode ∧
      st = ((pair_up resname names_idx).*1, (pair_up resname names_idx).*2).
Proof.
  intros Hloop. eapply for_each_items_inv; [exact Hloop|].
  intros d d' [resname names_idx] Hin Hbody Hnd HP. simpl in Hbody.
  destruct (getitem THREE_TO_ONE_LETTER_MAP resname) as [rescode|] eqn:Hg;
    [|done].
  cbn [mbind result_bind] in Hbody. simplify_eq. apply getitem_Some in Hg.
  split; [by apply NoDup_keys_setitem|].
  intros k v [[-> ->]|Hin']%elem_of_setitem; [by eauto|by apply HP].
Qed.

(** X28. The map pairs positions that hold the same atom. For every
    residue code of the map, the two index lists have the same length, the
    list of OpenFold positions has no repetition, and the positions paired
    at each rank carry one and the same atom name, in OpenFold's table of
    the residue and in SidechainNet's, a name that is neither empty nor
    the padding; the residue is the one whose three-letter name the two
    letter maps give for the code. The code X has the lists of glycine. *)
Theorem X28_map_pairs_atoms_of_the_same_name
    (m : list (string * (list nat * list nat))) (rescode : string)
    (source_selection target_selection : list nat) :
  get_openfold_to_sidechainnet_mapping = Ok m →
  get rescode m = Some (source_selection, target_selection) →
  get "X" m = get "G" m ∧
  length source_selection = length target_selection ∧
  NoDup source_selection ∧
  ∃ resid resname scn_names,
    (resid, scn_names) ∈ ATOM_MAP_HEAVY ∧
    get resid ONE_TO_THREE_LETTER_MAP = Some resname ∧
    get resname THREE_TO_ONE_LETTER_MAP
    = Some (if (rescode =? "X")%string then "G" else rescode) ∧
    ∀ j s t, source_selection !! j = Some s → target_selection !! j = Some t →
      ∃ openfold_names name,
        (resname, openfold_names) ∈ restype_name_to_atom14_names ∧
        openfold_names !! s = Some name ∧ scn_names !! t = Some name ∧
        name ≠ EmptyString ∧ name ≠ "PAD".
Proof.
  unfold get_openfold_to_sidechainnet_mapping. intros Hm Hget.
  destruct scn_name_to_scn_idx as [scn|] eqn:Hscn; [|done].
  cbn [mbind result_bind] in Hm.
  destruct (for_each scn _ []) as [res|] eqn:Hres; [|done].
  cbn [mbind result_bind] in Hm.
  destruct (getitem res "G") as [glycine|] eqn:Hg; [|done].
  cbn [mbind result_bind] in Hm. simplify_eq. apply getitem_Some in Hg.
  assert (get "X" (setitem "X" glycine res) = get "G" (setitem "X" glycine res))
    as HX.
  { rewrite get_setitem_eq, get_setitem_ne by done. done. }
  split; [done|].
  assert (get (if (rescode =? "X")%string then "G" else rescode) res
          = Some (source_selection, target_selection)) as Hin.
  { destruct (rescode =? "X")%string eqn:E.
    - apply String.eqb_eq in E. subst rescode.
      rewrite get_setitem_eq in Hget. congruence.
    - apply String.eqb_neq in E. by rewrite get_setitem_ne in Hget. }
  clear Hget HX. apply get_Some_elem in Hin.
  destruct (residues_spec scn res Hres _ _ Hin)
    as (resname & names_idx & Hscn_in & H31 & [= -> ->]).
  destruct (scn_index_spec scn Hscn _ _ Hscn_in)
    as (resid & scn_names & Hheavy & H13 & ->).
  destruct (pair_up_spec resname
              (name_index (λ a, negb (a =? "PAD")%string) scn_names))
    as [Hnd Hpairs].
  split_and!; [by rewrite !length_fmap|done|].
  exists resid, resname, scn_names. split_and!; [done..|].
  intros j s t Hs Ht. rewrite list_lookup_fmap in Hs, Ht.
  destruct (pair_up resname _ !! j) as [[s' t']|] eqn:Hj; [|done].
  simpl in Hs, Ht. simplify_eq.
  apply list_elem_of_lookup_2 in Hj.
  destruct (Hpairs s t Hj) as (name & of_idx & Hname & Hof & Hsn).
  apply get_Some_elem, openfold_index_spec in Hof as (of_names & Hof_in & ->).
  apply get_Some_elem in Hsn.
  destruct (name_index_spec (λ a, negb (a =? EmptyString)%string) of_names)
    as [_ Hof_spec].
  destruct (name_index_spec (λ a, negb (a =? "PAD")%string) scn_names)
    as [_ Hscn_spec].
  destruct (Hof_spec name s Hsn) as [Hs1 Hk1].
  destruct (Hscn_spec name t Hname) as [Ht1 Hk2].
  exists of_names, name. split_and!; [done..| |].
  - apply negb_true_iff, String.eqb_neq in Hk1. done.
  - apply negb_true_iff, String.eqb_neq in Hk2. done.
Qed.

(** X29. When the map is built. The function returns exactly when the
    first letter map names every residue of SidechainNet's atom table, the
    second gives a code for each of these names, and one of the codes is
    G; otherwise it raises [KeyError], and nothing else. An atom name
    that OpenFold does not have for a residue never makes it fail. *)
Theorem X29_map_is_built_iff_the_letter_maps_cover :
  ((∃ m, get_openfold_to_sidechainnet_mapping = Ok m) ↔
   (∀ item, item ∈ ATOM_MAP_HEAVY →
      ∃ resname, get item.1 ONE_TO_THREE_LETTER_MAP = Some resname ∧
                 is_Some (get resname THREE_TO_ONE_LETTER_MAP)) ∧
   (∃ item resname, item ∈ ATOM_MAP_HEAVY ∧
      get item.1 ONE_TO_THREE_LETTER_MAP = Some resname ∧
      get resname THREE_TO_ONE_LETTER_MAP = Some "G")) ∧
  ∀ e, get_openfold_to_sidechainnet_mapping = Raise e → e = KeyError.
Proof.
  unfold get_openfold_to_sidechainnet_mapping, scn_name_to_scn_idx.
  pose proof (keyed_loop_spec ONE_TO_THREE_LETTER_MAP fst
                (λ item, name_index (λ a, negb (a =? "PAD")%string) item.2)
                ATOM_MAP_HEAVY []) as H1.
  destruct (for_each ATOM_MAP_HEAVY _ []) as [scn|e1];
    cbn [mbind result_bind].
  2:{ destruct H1 as [-> (item & Hin & Hnone)]. split; [|by intros e [= <-]].
      split; [by intros [? ?]|]. intros [Hall _].
      destruct (Hall item Hin) as (? & ? & _). congruence. }
  destruct H1 as [Hall1 Hkeys1].
  pose proof (keyed_loop_spec THREE_TO_ONE_LETTER_MAP fst
                (λ item, ((pair_up item.1 item.2).*1,
                          (pair_up item.1 item.2).*2)) scn []) as H2.
  destruct (for_each scn _ []) as [res|e2]; cbn [mbind result_bind].
  2:{ destruct H2 as [-> ([resname idx] & Hin & Hnone)].
      split; [|by intros e [= <-]].
      split; [by intros [? ?]|]. intros [Hall _].
      assert (resname ∈ scn.*1) as Hk.
      { apply list_elem_of_fmap. by exists (resname, idx). }
      apply Hkeys1 in Hk as [?%elem_of_nil|(item & Hitem & Hi)]; [done|].
      destruct (Hall item Hitem) as (r & Hr & [c Hc]). simpl in *. congruence. }
  destruct H2 as [Hall2 Hkeys2]. unfold getitem.
  destruct (get "G" res) as [glycine|] eqn:Hg; cbn [mbind result_bind].
  - split; [|done]. split; [|by eauto]. intros _. split.
    + intros item Hin. destruct (Hall1 item Hin) as [resname Hr].
      exists resname. split; [done|].
      assert (resname ∈ scn.*1) as Hk.
      { apply Hkeys1. right. by exists item. }
      apply list_elem_of_fmap in Hk as ([r idx] & -> & Hin').
      by apply (Hall2 _ Hin').
    + assert ("G" ∈ res.*1) as Hk by (apply get_is_Some; by eexists).
      apply Hkeys2 in Hk as [?%elem_of_nil|([resname idx] & Hin & Hc)]; [done|].
      assert (resname ∈ scn.*1) as Hk.
      { apply list_elem_of_fmap. by exists (resname, idx). }
      apply Hkeys1 in Hk as [?%elem_of_nil|(item & Hitem & Hi)]; [done|].
      by exists item, resname.
  - split; [|by intros e [= <-]]. split; [by intros [? ?]|].
    intros [_ (item & resname & Hitem & Hr & Hc)].
    assert (resname ∈ scn.*1) as Hk.
    { apply Hkeys1. right. by exists item. }
    apply list_elem_of_fmap in Hk as ([r idx] & -> & Hin').
    assert ("G" ∈ res.*1) as HG.
    { apply Hkeys2. right. by exists (r, idx). }
    apply get_is_Some in HG as [? ?]. congruence.
Qed.

End Mapping.

(** *** The property on the mocked tables *)

Lemma X28_map_pairs_atoms_of_the_same_name_witness :
  ∃ m,
    @get_openfold_to_sidechainnet_mapping mock_tables = Ok m ∧
    get "A" m = Some ([0; 1; 2; 3; 4], [0; 1; 2; 3; 4]) ∧
    get "X" m = get "G" m ∧
    length [0; 1; 2; 3; 4] = length [0; 1; 2; 3; 4] ∧
    NoDup [0; 1; 2; 3; 4] ∧
    ∃ resid resname scn_names,
      (resid, scn_names) ∈ @ATOM_MAP_HEAVY mock_tables ∧
      get resid (@ONE_TO_THREE_LETTER_MAP mock_tables) = Some resname ∧
      get resname (@THREE_TO_ONE_LETTER_MAP mock_tables)
      = Some (if ("A" =? "X")%string then "G" else "A") ∧
      ∀ j s t, [0; 1; 2; 3; 4] !! j = Some s → [0; 1; 2; 3; 4] !! j = Some t →
        ∃ openfold_names name,
          (resname, openfold_names)
          ∈ @restype_name_to_atom14_names mock_tables ∧
          openfold_names !! s = Some name ∧ scn_names !! t = Some name ∧
          name ≠ EmptyString ∧ name ≠ "PAD".
Proof.
  eexists. split; [reflexivity|]. split; [reflexivity|].
  apply (@X28_map_pairs_atoms_of_the_same_name mock_tables _ "A"); reflexivity.
Defined.

Lemma X29_map_is_built_iff_the_letter_maps_cover_witness :
  ((∀ item, item ∈ @ATOM_MAP_HEAVY mock_tables →
      ∃ resname,
        get item.1 (@ONE_TO_THREE_LETTER_MAP mock_tables) = Some resname ∧
        is_Some (get resname (@THREE_TO_ONE_LETTER_MAP mock_tables))) ∧
   (∃ item resname, item ∈ @ATOM_MAP_HEAVY mock_tables ∧
      get item.1 (@ONE_TO_THREE_LETTER_MAP mock_tables) = Some resname ∧
      get resname (@THREE_TO_ONE_LETTER_MAP mock_tables) = Some "G")) ∧
  ∃ m, @get_openfold_to_sidechainnet_mapping mock_tables = Ok m.
Proof.
  assert ((∀ item, item ∈ @ATOM_MAP_HEAVY mock_tables →
             ∃ resname,
               get item.1 (@ONE_TO_THREE_LETTER_MAP mock_tables)
               = Some resname ∧
               is_Some (get resname (@THREE_TO_ONE_LETTER_MAP mock_tables))) ∧
          (∃ item resname, item ∈ @ATOM_MAP_HEAVY mock_tables ∧
             get item.1 (@ONE_TO_THREE_LETTER_MAP mock_tables) = Some resname ∧
             get resname (@THREE_TO_ONE_LETTER_MAP mock_tables) = Some "G"))
    as Hcover.
  { split.
    - intros item Hin. apply list_elem_of_In in Hin. simpl in Hin.
      destruct Hin as [<-|[<-|[]]]; eexists; (split; [reflexivity|by eexists]).
    - eexists (_, _), _. split; [right; left|]. by split. }
  split; [exact Hcover|].
  exact (proj2 (proj1 (@X29_map_is_built_iff_the_letter_maps_cover mock_tables))
           Hcover).
Defined.

End MappingFacts.

